(** * Export service of the photos app: a shallow embedding

    This development embeds [web/apps/photos/src/services/export/index.ts]
    (the filesystem export engine) and proves properties of its planner,
    journal, materializer and scheduler.

    Conventions of the embedding:
    - JavaScript numbers that hold integers (file ids, collection ids,
      timestamps, stage numbers) are [Z];
    - JavaScript strings are [string]; template literals are [+:+];
    - objects used as dictionaries are [gmap];
    - [undefined] / an absent property is [None];
    - asynchronous, throwing code is a state-and-error monad over a model
      of the export folder (see [Module Fs]). *)

From Stdlib Require Import ZArith Ascii String List Lia.
From Stdlib Require Import Decimal DecimalString DecimalZ DecimalPos DecimalFacts.
From stdpp Require Import base option list gmap strings sorting.

Local Open Scope Z_scope.

(** ** Strings *)

Module Str.

(** [s.split(sep)] for a one-character separator. The result is never
    empty: splitting the empty string gives the list of the empty
    string alone. *)
Fixpoint split (sep : ascii) (s : string) : list string :=
  match s with
  | EmptyString => [EmptyString]
  | String c r =>
      if Ascii.eqb c sep then EmptyString :: split sep r
      else match split sep r with
           | [] => [String c EmptyString]
           | p :: ps => String c p :: ps
           end
  end.

(** Characters of a string, and the property that all satisfy a test. *)
Fixpoint forallb (P : ascii → bool) (s : string) : bool :=
  match s with
  | EmptyString => true
  | String c r => P c && forallb P r
  end.

Definition is_digit (c : ascii) : bool :=
  match Ascii.is_nat c with Some _ => true | None => false end.

Definition lacks (sep : ascii) (s : string) : bool :=
  forallb (λ c, negb (Ascii.eqb c sep)) s.

(** [s] without its first character, when that character is [c]. *)
Definition strip_char (c : ascii) (s : string) : option string :=
  match s with
  | String c' r => if Ascii.eqb c' c then Some r else None
  | EmptyString => None
  end.

Fixpoint drop (n : nat) (s : string) : string :=
  match n, s with
  | S n, String _ r => drop n r
  | _, _ => s
  end.

(** [s.replace(pattern, empty)] for a string [pattern]: the first
    occurrence is removed. *)
Fixpoint remove_first (pattern s : string) : string :=
  if String.prefix pattern s then drop (String.length pattern) s
  else match s with
       | EmptyString => EmptyString
       | String c r => String c (remove_first pattern r)
       end.

(** [s.lastIndexOf(".")], as the two parts around that dot. *)
Fixpoint split_last_dot (s : string) : option (string * string) :=
  match s with
  | EmptyString => None
  | String c r =>
      match split_last_dot r with
      | Some (a, b) => Some (String c a, b)
      | None => if Ascii.eqb c "." then Some (EmptyString, r) else None
      end
  end.

End Str.

(** ** Numbers and their string forms *)

(** [Number.prototype.toString] (as used by template literals and
    [toString()]) on an integer: the decimal numeral, with a leading ["-"]
    for negative values. (ECMAScript switches to exponent notation from
    [1e21] on; ids and timestamps are far below that.) *)
Definition Number_toString (n : Z) : string :=
  NilZero.string_of_int (Z.to_int n).

(** [Number(s)] on a string, restricted to the integer numerals: an
    optional sign followed by decimal digits; the empty string is [0].
    [None] is [NaN] (the other numeric literal forms of ECMAScript,
    whitespace padding, fractions, exponents, radix prefixes and
    [Infinity], are outside this model and fall under [None]). *)
Definition Number_of_string (s : string) : option Z :=
  match s with
  | EmptyString => Some 0
  | String c r =>
      if Ascii.eqb c "+" then Z.of_uint <$> NilZero.uint_of_string r
      else Z.of_int <$> NilZero.int_of_string s
  end.

(** [Number(x)] where [x] may be [undefined]: [Number(undefined)] is [NaN]. *)
Definition Number (x : option string) : option Z := x ≫= Number_of_string.


(** ** JSON *)

(** The values of JSON texts, with [JSON.parse] and [JSON.stringify] of
    the ECMAScript runtime. A number is kept as a decimal mantissa and
    exponent ([JNumber m e] is [m * 10^e]); the members of an object are
    kept in the order of the text. *)
Module JSON.

#[local] Set Warnings "-register-all".

Inductive value :=
| JNull
| JBool (b : bool)
| JNumber (mantissa exponent : Z)
| JString (s : string)
| JArray (elements : list value)
| JObject (members : list (string * value)).

(** *** Reading *)

Definition is_ws (c : ascii) : bool :=
  match c with
  | " " | "009" | "010" | "013" => true
  | _ => false
  end%char.

Fixpoint skip_ws (s : string) : string :=
  match s with
  | String c r => if is_ws c then skip_ws r else s
  | EmptyString => s
  end.

(** The longest prefix of decimal digits, and the rest. *)
Fixpoint span_digits (s : string) : string * string :=
  match s with
  | String c r =>
      if Str.is_digit c
      then let '(ds, rest) := span_digits r in (String c ds, rest)
      else (EmptyString, s)
  | EmptyString => (EmptyString, s)
  end.

Definition digits_value (ds : string) : Z :=
  from_option Z.of_uint 0 (NilEmpty.uint_of_string ds).

(** The integer part of a number: digits, a single zero or without a
    leading zero. *)
Definition parse_int (s : string) : option (string * string) :=
  let '(int, s) := span_digits s in
  match int with
  | EmptyString => None
  | String c r =>
      if Ascii.eqb c "0" && negb (String.eqb r EmptyString) then None
      else Some (int, s)
  end.

(** The optional fraction: a dot and digits. *)
Definition parse_fraction (s : string) : option (string * string) :=
  match Str.strip_char "." s with
  | Some r =>
      let '(frac, s) := span_digits r in
      if String.eqb frac EmptyString then None else Some (frac, s)
  | None => Some (EmptyString, s)
  end.

(** The optional exponent: [e] or [E], an optional sign and digits. *)
Definition parse_exponent (s : string) : option (Z * string) :=
  match s with
  | String e r =>
      if Ascii.eqb e "e" || Ascii.eqb e "E" then
        let '(sign, r) :=
          match Str.strip_char "+" r, Str.strip_char "-" r with
          | Some r, _ => (1, r)
          | None, Some r => (-1, r)
          | None, None => (1, r)
          end in
        let '(ds, s) := span_digits r in
        if String.eqb ds EmptyString then None
        else Some (sign * digits_value ds, s)
      else Some (0, s)
  | EmptyString => Some (0, s)
  end.

(** A number: an optional minus sign, the integer part, the optional
    fraction and the optional exponent. *)
Definition parse_number (s : string) : option (value * string) :=
  let '(negative, s) :=
    match Str.strip_char "-" s with
    | Some r => (true, r)
    | None => (false, s)
    end in
  '(int, s) ← parse_int s;
  '(frac, s) ← parse_fraction s;
  '(exp, s) ← parse_exponent s;
  let m := digits_value (int +:+ frac) in
  Some (JNumber (if negative then - m else m)
          (exp - Z.of_nat (String.length frac)), s).

Definition hex_digit (c : ascii) : option N :=
  let n := N_of_ascii c in
  if (48 <=? n)%N && (n <=? 57)%N then Some (n - 48)%N
  else if (65 <=? n)%N && (n <=? 70)%N then Some (n - 55)%N
  else if (97 <=? n)%N && (n <=? 102)%N then Some (n - 87)%N
  else None.

(** The UTF-8 bytes of a code unit given by a [\uXXXX] escape. *)
Definition utf8 (n : N) (rest : string) : string :=
  if (n <? 128)%N then String (ascii_of_N n) rest
  else if (n <? 2048)%N then
    String (ascii_of_N (192 + n / 64))
      (String (ascii_of_N (128 + n mod 64)) rest)
  else
    String (ascii_of_N (224 + n / 4096))
      (String (ascii_of_N (128 + (n / 64) mod 64))
         (String (ascii_of_N (128 + n mod 64)) rest)).

(** The characters of a string literal after its opening quote, up to
    and including the closing quote. *)
Fixpoint parse_chars (s : string) : option (string * string) :=
  match s with
  | EmptyString => None
  | String c r =>
      if Ascii.eqb c "034" then Some (EmptyString, r)
      else if Ascii.eqb c "\" then
        match r with
        | String e r' =>
            let simple (x : ascii) :=
              '(t, rest) ← parse_chars r'; Some (String x t, rest) in
            if Ascii.eqb e "034" then simple "034"%char
            else if Ascii.eqb e "\" then simple "\"%char
            else if Ascii.eqb e "/" then simple "/"%char
            else if Ascii.eqb e "b" then simple "008"%char
            else if Ascii.eqb e "f" then simple "012"%char
            else if Ascii.eqb e "n" then simple "010"%char
            else if Ascii.eqb e "r" then simple "013"%char
            else if Ascii.eqb e "t" then simple "009"%char
            else if Ascii.eqb e "u" then
              match r' with
              | String h1 (String h2 (String h3 (String h4 r''))) =>
                  match hex_digit h1, hex_digit h2, hex_digit h3, hex_digit h4 with
                  | Some a, Some b, Some c, Some d =>
                      '(t, rest) ← parse_chars r'';
                      Some (utf8 (((a * 16 + b) * 16 + c) * 16 + d)%N t, rest)
                  | _, _, _, _ => None
                  end
              | _ => None
              end
            else None
        | EmptyString => None
        end
      else if (N_of_ascii c <? 32)%N then None
      else '(t, rest) ← parse_chars r; Some (String c t, rest)
  end.

Definition parse_literal (lit : string) (v : value) (s : string)
    : option (value * string) :=
  if String.prefix lit s then Some (v, Str.drop (String.length lit) s)
  else None.

(** A value at the start of [s] (after white space), and the rest of
    [s]. The recursion is bounded by [fuel]; the length of the text is
    enough (see [parse]). *)
Fixpoint parse_value (fuel : nat) (s : string) : option (value * string) :=
  match fuel with
  | O => None
  | S fuel =>
      match skip_ws s with
      | EmptyString => None
      | String c r as s' =>
          if Ascii.eqb c "{" then
            match Str.strip_char "}" (skip_ws r) with
            | Some r' => Some (JObject [], r')
            | None => '(ms, rest) ← parse_members fuel r; Some (JObject ms, rest)
            end
          else if Ascii.eqb c "[" then
            match Str.strip_char "]" (skip_ws r) with
            | Some r' => Some (JArray [], r')
            | None => '(vs, rest) ← parse_elements fuel r; Some (JArray vs, rest)
            end
          else if Ascii.eqb c "034" then
            '(t, rest) ← parse_chars r; Some (JString t, rest)
          else if Ascii.eqb c "n" then parse_literal "null" JNull s'
          else if Ascii.eqb c "t" then parse_literal "true" (JBool true) s'
          else if Ascii.eqb c "f" then parse_literal "false" (JBool false) s'
          else parse_number s'
      end
  end
(** The elements of an array after its opening bracket, up to and
    including the closing bracket. *)
with parse_elements (fuel : nat) (s : string) : option (list value * string) :=
  match fuel with
  | O => None
  | S fuel =>
      '(v, rest) ← parse_value fuel s;
      let rest := skip_ws rest in
      match Str.strip_char "," rest, Str.strip_char "]" rest with
      | Some r, _ => '(vs, rest') ← parse_elements fuel r; Some (v :: vs, rest')
      | None, Some r => Some ([v], r)
      | None, None => None
      end
  end
(** The members of an object after its opening brace, up to and
    including the closing brace. *)
with parse_members (fuel : nat) (s : string)
    : option (list (string * value) * string) :=
  match fuel with
  | O => None
  | S fuel =>
      r ← Str.strip_char "034" (skip_ws s);
      '(k, rest) ← parse_chars r;
      r ← Str.strip_char ":" (skip_ws rest);
      '(v, rest) ← parse_value fuel r;
      let rest := skip_ws rest in
      match Str.strip_char "," rest, Str.strip_char "}" rest with
      | Some r, _ =>
          '(ms, rest') ← parse_members fuel r; Some ((k, v) :: ms, rest')
      | None, Some r => Some ([(k, v)], r)
      | None, None => None
      end
  end.

(** [JSON.parse(text)]; [None] when it throws a [SyntaxError]. *)
Definition parse (text : string) : option value :=
  '(v, rest) ← parse_value (S (String.length text)) text;
  match skip_ws rest with
  | EmptyString => Some v
  | _ => None
  end.

(** *** Writing *)

Definition hex_char (n : N) : ascii :=
  if (n <? 10)%N then ascii_of_N (48 + n) else ascii_of_N (87 + n).

(** [QuoteJSONString], character by character: the quote and the
    backslash are escaped, the control characters are written with
    their short escape or as [\u00XX]. *)
Definition escape_char (c : ascii) : string :=
  let n := N_of_ascii c in
  if Ascii.eqb c "034" then String "\" (String "034" EmptyString)
  else if Ascii.eqb c "\" then "\\"
  else if Ascii.eqb c "008" then "\b"
  else if Ascii.eqb c "012" then "\f"
  else if Ascii.eqb c "010" then "\n"
  else if Ascii.eqb c "013" then "\r"
  else if Ascii.eqb c "009" then "\t"
  else if (n <? 32)%N then
    String "\" (String "u" (String "0" (String "0"
      (String (hex_char (n / 16)) (String (hex_char (n mod 16))
         EmptyString)))))
  else String c EmptyString.

Fixpoint escape (s : string) : string :=
  match s with
  | EmptyString => EmptyString
  | String c r => escape_char c +:+ escape r
  end.

Definition quote (s : string) : string :=
  String "034" (escape s +:+ String "034" EmptyString).

Fixpoint join (sep : string) (parts : list string) : string :=
  match parts with
  | [] => EmptyString
  | p :: ps =>
      match ps with
      | [] => p
      | _ => p +:+ sep +:+ join sep ps
      end
  end.

Definition number_text (m e : Z) : string :=
  if e =? 0 then Number_toString m
  else Number_toString m +:+ "e" +:+ Number_toString e.

(** The line break before a part: none when [gap] is empty, otherwise
    a line feed and the indentation. *)
Definition line (gap indent : string) : string :=
  if String.eqb gap EmptyString then EmptyString else String "010" indent.

(** [SerializeJSONObject] and [SerializeJSONArray] put their parts
    between [open] and [close]: on one line, separated by commas, when
    [gap] is empty; otherwise one part per line at the new
    indentation, the closing bracket on a line of its own at the old
    one. *)
Definition wrap (gap stepback indent open close : string)
    (partial : list string) : string :=
  match partial with
  | [] => open +:+ close
  | _ =>
      open +:+ line gap indent
        +:+ join ("," +:+ line gap indent) partial
        +:+ line gap stepback +:+ close
  end.

Definition colon (gap : string) : string :=
  if String.eqb gap EmptyString then ":" else ": ".

(** [SerializeJSONProperty] with the indentation unit [gap] (empty for
    the compact form) at the current indentation [indent]. *)
Fixpoint serialize (gap indent : string) (v : value) : string :=
  let stepback := indent in
  let indent := indent +:+ gap in
  match v with
  | JNull => "null"
  | JBool true => "true"
  | JBool false => "false"
  | JNumber m e => number_text m e
  | JString s => quote s
  | JArray vs =>
      wrap gap stepback indent "[" "]" (List.map (serialize gap indent) vs)
  | JObject ms =>
      wrap gap stepback indent "{" "}"
        (List.map (λ '(k, x),
             quote k +:+ colon gap +:+ serialize gap indent x) ms)
  end.

(** [JSON.stringify(v)] and [JSON.stringify(v, null, 2)]. *)
Definition stringify (v : value) : string := serialize EmptyString EmptyString v.
Definition stringify2 (v : value) : string := serialize "  " EmptyString v.

(** A bound on the recursion [parse_value] needs on the text of a
    value. *)
Fixpoint size (v : value) : nat :=
  match v with
  | JArray vs => S (list_sum (List.map (λ x, S (size x)) vs))
  | JObject ms => S (list_sum (List.map (λ '(_, x), S (size x)) ms))
  | _ => 1
  end.

(** *** Access *)

(** The property [k] of an object: when the text repeats a name, the
    last member is the one kept. *)
Definition get (k : string) (v : value) : option value :=
  match v with
  | JObject ms =>
      snd <$> List.find (λ '(k', _), String.eqb k' k) (rev ms)
  | _ => None
  end.

Definition to_Z (v : value) : option Z :=
  match v with
  | JNumber m e =>
      if 0 <=? e then Some (m * 10 ^ e)
      else if (m mod 10 ^ (- e) =? 0) then Some (m / 10 ^ (- e)) else None
  | _ => None
  end.

Definition to_string (v : value) : option string :=
  match v with
  | JString s => Some s
  | _ => None
  end.

End JSON.

(** ** Remote inventory *)

Inductive FILE_TYPE := IMAGE | VIDEO | LIVE_PHOTO | OTHERS.

Global Instance FILE_TYPE_eq_dec : EqDecision FILE_TYPE.
Proof. solve_decision. Defined.

(** Geographic coordinates are carried as the JSON numbers they are
    written as. *)
Module Metadata.
Record t := {
  title : string;
  creationTime : Z;
  modificationTime : option Z;
  latitude : option JSON.value;
  longitude : option JSON.value;
  fileType : FILE_TYPE;
}.
End Metadata.
Abbreviation Metadata := Metadata.t.

Module EnteFile.
Record t := {
  id : Z;
  collectionID : Z;
  updationTime : Z;
  ownerID : Z;
  metadata : Metadata;
  caption : option string;
}.
End EnteFile.
Abbreviation EnteFile := EnteFile.t.

Module Collection.
Record t := {
  id : Z;
  ownerID : Z;
  name : string;
}.
Global Instance eq_dec : EqDecision t.
Proof. solve_decision. Defined.
End Collection.
Abbreviation Collection := Collection.t.

(** ** File UIDs *)

Definition getExportRecordFileUID (file : EnteFile) : string :=
  Number_toString (EnteFile.id file) +:+ "_"
    +:+ Number_toString (EnteFile.collectionID file) +:+ "_"
    +:+ Number_toString (EnteFile.updationTime file).

Definition getCollectionIDFromFileUID (fileUID : string) : option Z :=
  Number (Str.split "_" fileUID !! 1%nat).

(** ** The journal record *)

Module ExportStage.
Definition INIT : Z := 0.
Definition MIGRATION : Z := 1.
Definition STARTING : Z := 2.
Definition EXPORTING_FILES : Z := 3.
Definition TRASHING_DELETED_FILES : Z := 4.
Definition RENAMING_COLLECTION_FOLDERS : Z := 5.
Definition TRASHING_DELETED_COLLECTIONS : Z := 6.
Definition FINISHED : Z := 7.
End ExportStage.

(** An object with (some of) the properties of the interface
    [ExportRecord]: a property that is absent is [None]. The same type
    serves for [Partial<ExportRecord>]. [lastAttemptTimestamp] may be
    present and [null], which is [Some None]. [FileExportNames] maps file
    UIDs to export names, [CollectionExportNames] maps collection ids to
    directory names. *)
Record ExportRecord := {
  version : option Z;
  lastAttemptTimestamp : option (option Z);
  stage : option Z;
  fileExportNames : option (gmap string string);
  collectionExportNames : option (gmap Z string);
}.

Global Instance ExportRecord_eq_dec : EqDecision ExportRecord.
Proof. solve_decision. Defined.

Definition NULL_EXPORT_RECORD : ExportRecord := {|
  version := Some 3;
  lastAttemptTimestamp := Some None;
  stage := Some ExportStage.INIT;
  fileExportNames := Some ∅;
  collectionExportNames := Some ∅;
|}.

(** A property of [{ ...a, ...b }]: the one of [b] when [b] has it,
    otherwise the one of [a]. *)
Definition spread_property {A} (a b : option A) : option A :=
  match b with
  | Some x => Some x
  | None => a
  end.

(** Object spread [{ ...a, ...b }]: the properties of [b] win, the other
    properties of [a] are kept. *)
Definition spread (a b : ExportRecord) : ExportRecord := {|
  version := spread_property (version a) (version b);
  lastAttemptTimestamp :=
    spread_property (lastAttemptTimestamp a) (lastAttemptTimestamp b);
  stage := spread_property (stage a) (stage b);
  fileExportNames := spread_property (fileExportNames a) (fileExportNames b);
  collectionExportNames :=
    spread_property (collectionExportNames a) (collectionExportNames b);
|}.

(** The object with no property, and the one-property objects the service
    passes to [updateExportRecord]. *)
Definition emptyRecord : ExportRecord :=
  {| version := None; lastAttemptTimestamp := None; stage := None;
     fileExportNames := None; collectionExportNames := None |}.

(** ** The planner *)

(** The regular expression [/\(\d+\)$/]. *)
Module NumberedSuffix.

(** [\d*\)$] from the start of [s]. *)
Fixpoint digits_close (s : string) : bool :=
  match s with
  | EmptyString => false
  | String c r =>
      if Str.is_digit c then digits_close r
      else Ascii.eqb c ")" && String.eqb r EmptyString
  end.

(** [\(\d+\)$] anchored at the start of [s]. *)
Definition matches_at (s : string) : bool :=
  match s with
  | String c (String d r) =>
      Ascii.eqb c "(" && Str.is_digit d && digits_close r
  | _ => false
  end.

(** [s.match(/\(\d+\)$/)]: the leftmost position where the expression
    matches, if any. *)
Fixpoint match_ (s : string) : option nat :=
  if matches_at s then Some 0%nat
  else match s with
       | EmptyString => None
       | String _ r => S <$> match_ r
       end.

(** [s.replace(/\(\d+\)$/, empty)]: the leftmost match is removed; as the
    expression is anchored at the end, what remains is the text before
    the match. *)
Fixpoint replace (s : string) : string :=
  if matches_at s then EmptyString
  else match s with
       | EmptyString => EmptyString
       | String c r => String c (replace r)
       end.

End NumberedSuffix.

Definition convertCollectionIDExportNameObjectToMap
    (collectionExportNames : option (gmap Z string)) : gmap Z string :=
  default ∅ collectionExportNames.

Definition convertFileIDExportNameObjectToMap
    (fileExportNames : option (gmap string string)) : gmap string string :=
  default ∅ fileExportNames.

Section planner.
(** [getCollectionUserFacingName] lives in [utils/collection], outside
    these sources; the planner is parametric in it. *)
Variable getCollectionUserFacingName : Collection → string.

Definition getRenamedExportedCollections
    (collections : list Collection) (exportRecord : ExportRecord)
    : list Collection :=
  match collectionExportNames exportRecord with
  | None => []
  | Some _ =>
      let collectionIDExportNameMap :=
        convertCollectionIDExportNameObjectToMap
          (collectionExportNames exportRecord) in
      List.filter (λ collection,
        match collectionIDExportNameMap !! Collection.id collection with
        | Some currentExportName =>
            let collectionExportName :=
              getCollectionUserFacingName collection in
            if String.eqb currentExportName collectionExportName then false
            else
              let hasNumberedSuffix :=
                NumberedSuffix.match_ currentExportName in
              let currentExportNameWithoutNumberedSuffix :=
                match hasNumberedSuffix with
                | Some _ => NumberedSuffix.replace currentExportName
                | None => currentExportName
                end in
              negb (String.eqb collectionExportName
                      currentExportNameWithoutNumberedSuffix)
        | None => false
        end) collections
  end.
End planner.

Definition getDeletedExportedCollections
    (collections : list Collection) (exportRecord : ExportRecord) : list Z :=
  match collectionExportNames exportRecord with
  | None => []
  | Some names =>
      let presentCollections : gset Z :=
        list_to_set (Collection.id <$> collections) in
      List.filter (λ collectionID,
          negb (bool_decide (collectionID ∈ presentCollections)))
        (map_to_list names).*1
  end.

Definition getUnExportedFiles
    (allFiles : list EnteFile) (exportRecord : ExportRecord) : list EnteFile :=
  match fileExportNames exportRecord with
  | None => allFiles
  | Some names =>
      let exportedFiles : gset string := dom names in
      List.filter (λ file,
          negb (bool_decide (getExportRecordFileUID file ∈ exportedFiles)))
        allFiles
  end.

Definition getDeletedExportedFiles
    (allFiles : list EnteFile) (exportRecord : ExportRecord) : list string :=
  match fileExportNames exportRecord with
  | None => []
  | Some names =>
      let presentFileUIDs : gset string :=
        list_to_set (getExportRecordFileUID <$> allFiles) in
      List.filter (λ fileUID,
          negb (bool_decide (fileUID ∈ presentFileUIDs)))
        (map_to_list names).*1
  end.

Definition getCollectionExportedFiles
    (exportRecord : ExportRecord) (collectionID : Z) : list string :=
  match fileExportNames exportRecord with
  | None => []
  | Some names =>
      List.filter (λ fileUID,
          let fileCollectionID := Number (Str.split "_" fileUID !! 1%nat) in
          bool_decide (fileCollectionID = Some collectionID))
        (map_to_list names).*1
  end.

(** ** Errors *)

(** A JavaScript [Error]; the service only ever looks at its message. *)
Record Error := { message : string }.

Global Instance Error_eq_dec : EqDecision Error.
Proof. solve_decision. Defined.

(** Modelled from the spec: the table [CustomError] of
    [@ente/shared/error] is not part of these sources; the error kinds
    are the ones section 7 of the specification names, as pairwise
    distinct messages. *)
Module CustomError.
Definition EXPORT_FOLDER_DOES_NOT_EXIST : string := "export folder does not exist".
Definition EXPORT_STOPPED : string := "export stopped".
Definition UPDATE_EXPORTED_RECORD_FAILED : string := "update file exported record failed".
Definition EXPORT_RECORD_JSON_PARSING_FAILED : string := "export record json parsing failed".
Definition SELECT_FOLDER_ABORTED : string := "select folder aborted".
End CustomError.

(** ** The export folder and asynchronous code *)

Module Fs.

Inductive node :=
| Dir
| File (contents : string).

(** The calls the service makes on the desktop bridge
    ([ensureElectron()]). *)
Inductive op :=
| exists_ (path : string)
| readTextFile (path : string)
| saveFileToDisk (path : string)
| saveStreamToDisk (path : string)
| deleteFile (path : string)
| deleteFolder (path : string).

(** What an observer can see of a run: the calls on the bridge, the
    sleeps and the errors that are logged ([log.info] leaves no
    mark). The most recent event is the head of the trace. *)
Inductive event :=
| Call (o : op)
| Sleep (ms : nat)
| LogError (msg : string) (e : Error).

(** The export folder at one instant, with its environment: [faults]
    tells which calls on the bridge fail (with which message), [tamper]
    what other processes do to the folder while the service sleeps
    (given the time at which it wakes up). *)
Record World := {
  nodes : gmap string node;
  faults : op → option string;
  tamper : nat → gmap string node → gmap string node;
  clock : nat;
  trace : list event;
}.

Definition with_nodes (f : gmap string node → gmap string node) (w : World) : World :=
  {| nodes := f (nodes w); faults := faults w; tamper := tamper w;
     clock := clock w; trace := trace w |}.

Definition record (e : event) (w : World) : World :=
  {| nodes := nodes w; faults := faults w; tamper := tamper w;
     clock := clock w; trace := e :: trace w |}.

(** [w] after the events [es] (the most recent first). *)
Definition traced (es : list event) (w : World) : World :=
  {| nodes := nodes w; faults := faults w; tamper := tamper w;
     clock := clock w; trace := es ++ trace w |}.

Global Instance op_eq_dec : EqDecision op.
Proof. solve_decision. Defined.

Global Instance event_eq_dec : EqDecision event.
Proof. solve_decision. Defined.

End Fs.

(** The outcome of awaiting a promise: it resolves, it rejects, or (in
    the model only) a loop ran out of fuel. *)
Inductive Outcome (A : Type) :=
| Resolved (a : A)
| Rejected (e : Error)
| OutOfFuel.
Arguments Resolved {A} a.
Arguments Rejected {A} e.
Arguments OutOfFuel {A}.

(** Asynchronous code that acts on the export folder. *)
Definition Async (A : Type) : Type := Fs.World → Outcome A * Fs.World.

Module Async.

Definition ret {A} (a : A) : Async A := λ w, (Resolved a, w).

Definition throw {A} (e : Error) : Async A := λ w, (Rejected e, w).

Definition out_of_fuel {A} : Async A := λ w, (OutOfFuel, w).

Definition bind {A B} (m : Async A) (k : A → Async B) : Async B :=
  λ w, match m w with
       | (Resolved a, w') => k a w'
       | (Rejected e, w') => (Rejected e, w')
       | (OutOfFuel, w') => (OutOfFuel, w')
       end.

(** [try { m } catch (e) { handler e }] *)
Definition try_catch {A} (m : Async A) (handler : Error → Async A) : Async A :=
  λ w, match m w with
       | (Rejected e, w') => handler e w'
       | r => r
       end.

(** A call on the bridge: it is traced; if the environment makes it
    fail it rejects and leaves the folder as it is. *)
Definition call {A} (o : Fs.op) (run : Fs.World → Outcome A * Fs.World) : Async A :=
  λ w, let w := Fs.record (Fs.Call o) w in
       match Fs.faults w o with
       | Some msg => (Rejected {| message := msg |}, w)
       | None => run w
       end.

End Async.

Global Instance Async_ret : MRet Async := @Async.ret.
Global Instance Async_bind : MBind Async := λ A B k m, Async.bind m k.

(** [if (b) { m }] *)
Definition when (b : bool) (m : Async unit) : Async unit :=
  if b then m else mret ().

(** [throw Error(msg)] *)
Definition throwError {A} (msg : string) : Async A :=
  Async.throw {| message := msg |}.

Module log.
Definition error (msg : string) (e : Error) : Async unit :=
  λ w, (Resolved (), Fs.record (Fs.LogError msg e) w).
End log.

(** [sleep(ms)]: time passes, and the rest of the system may act on the
    folder meanwhile. *)
Definition sleep (ms : nat) : Async unit :=
  λ w, let t := (Fs.clock w + ms)%nat in
       (Resolved (),
        {| Fs.nodes := Fs.tamper w t (Fs.nodes w); Fs.faults := Fs.faults w;
           Fs.tamper := Fs.tamper w; Fs.clock := t;
           Fs.trace := Fs.Sleep ms :: Fs.trace w |}).

(** The bridge to the filesystem ([ensureElectron()], section 4.1 of the
    specification). *)
Module electron.

Definition exists_ (path : string) : Async bool :=
  Async.call (Fs.exists_ path)
    (λ w, (Resolved (bool_decide (is_Some (Fs.nodes w !! path))), w)).

Definition readTextFile (path : string) : Async string :=
  Async.call (Fs.readTextFile path)
    (λ w, match Fs.nodes w !! path with
          | Some (Fs.File contents) => (Resolved contents, w)
          | _ => (Rejected {| message := "ENOENT: no such file" |}, w)
          end).

Definition saveFileToDisk (path contents : string) : Async unit :=
  Async.call (Fs.saveFileToDisk path)
    (λ w, (Resolved (), Fs.with_nodes <[path := Fs.File contents]> w)).

Definition saveStreamToDisk (path stream : string) : Async unit :=
  Async.call (Fs.saveStreamToDisk path)
    (λ w, (Resolved (), Fs.with_nodes <[path := Fs.File stream]> w)).

Definition deleteFile (path : string) : Async unit :=
  Async.call (Fs.deleteFile path)
    (λ w, (Resolved (), Fs.with_nodes (delete path) w)).

Definition deleteFolder (path : string) : Async unit :=
  Async.call (Fs.deleteFolder path)
    (λ w, (Resolved (), Fs.with_nodes (delete path) w)).

End electron.

(** ** The journal on disk *)

(** The JSON value of a record, property by property; an absent
    property is left out, as [JSON.stringify] leaves out [undefined]. *)
Definition json_of_names {K} (key : K → string) (names : list (K * string))
    : JSON.value :=
  JSON.JObject ((λ '(k, name), (key k, JSON.JString name)) <$> names).

Definition json_of_record (r : ExportRecord) : JSON.value :=
  JSON.JObject
    (option_list ((λ n, ("version", JSON.JNumber n 0)) <$> version r)
     ++ option_list ((λ t, ("lastAttemptTimestamp",
                            from_option (λ n, JSON.JNumber n 0) JSON.JNull t))
                       <$> lastAttemptTimestamp r)
     ++ option_list ((λ n, ("stage", JSON.JNumber n 0)) <$> stage r)
     ++ option_list ((λ names, ("fileExportNames",
                            json_of_names (λ uid, uid) (map_to_list names)))
                       <$> fileExportNames r)
     ++ option_list ((λ names, ("collectionExportNames",
                            json_of_names Number_toString (map_to_list names)))
                       <$> collectionExportNames r)).

(** The members of an object whose values are strings, as a dictionary
    (a repeated name keeps its last value); [key] reads the name. *)
Definition names_of_json `{Countable K} (key : string → option K)
    (v : JSON.value) : option (gmap K string) :=
  match v with
  | JSON.JObject ms =>
      Some (fold_left (λ acc '(k, x),
              match key k, JSON.to_string x with
              | Some k, Some name => <[k := name]> acc
              | _, _ => acc
              end) ms ∅)
  | _ => None
  end.

(** The value [JSON.parse] returns, seen at the type [ExportRecord]:
    the properties the interface declares, when they have the declared
    type. *)
Definition record_of_json (v : JSON.value) : ExportRecord := {|
  version := JSON.get "version" v ≫= JSON.to_Z;
  lastAttemptTimestamp :=
    JSON.get "lastAttemptTimestamp" v ≫= λ t,
      match t with
      | JSON.JNull => Some None
      | _ => Some <$> JSON.to_Z t
      end;
  stage := JSON.get "stage" v ≫= JSON.to_Z;
  fileExportNames := JSON.get "fileExportNames" v ≫= names_of_json Some;
  collectionExportNames :=
    JSON.get "collectionExportNames" v ≫= names_of_json Number_of_string;
|}.

(** ** The export service *)

(** Name of the JSON file in which we keep the state of the export. *)
Definition exportRecordFileName : string := "export_status.json".

(** Name of the directory in which we put our metadata when exporting to
    the filesystem. *)
Definition exportMetadataDirectoryName : string := "metadata".

(** Name of the directory in which we keep trash items. *)
Definition exportTrashDirectoryName : string := "Trash".

(** [CancellationStatus]: the flag [stopRunningExport] may set while the
    run is suspended; what a read of [isCanceled.status] gives depends on
    the moment of the read. *)
Definition CancellationStatus : Type := Fs.World → bool.

Definition readStatus (isCanceled : CancellationStatus) : Async bool :=
  λ w, (Resolved (isCanceled w), w).

Definition is_fatal (e : Error) : bool :=
  String.eqb (message e) CustomError.UPDATE_EXPORTED_RECORD_FAILED
  || String.eqb (message e) CustomError.EXPORT_FOLDER_DOES_NOT_EXIST
  || String.eqb (message e) CustomError.EXPORT_STOPPED.

Definition is_not_found_or_stopped (e : Error) : bool :=
  String.eqb (message e) CustomError.EXPORT_FOLDER_DOES_NOT_EXIST
  || String.eqb (message e) CustomError.EXPORT_STOPPED.

Definition exists_ (path : string) : Async bool := electron.exists_ path.

(** [exportFolder && (await this.exists(exportFolder))] *)
Definition exportFolderExists (exportFolder : string) : Async bool :=
  if String.eqb exportFolder EmptyString then mret false
  else exists_ exportFolder.

Definition verifyExportFolderExists (exportFolder : string) : Async unit :=
  Async.try_catch
    (b ← exportFolderExists exportFolder;
     when (negb b) (throwError CustomError.EXPORT_FOLDER_DOES_NOT_EXIST))
    (λ e,
       when (negb (String.eqb (message e) CustomError.EXPORT_FOLDER_DOES_NOT_EXIST))
         (log.error "verifyExportFolderExists failed" e);;
       Async.throw e).

Definition createEmptyExportRecord (exportRecordJSONPath : string)
    : Async ExportRecord :=
  let exportRecord := NULL_EXPORT_RECORD in
  electron.saveFileToDisk exportRecordJSONPath
    (JSON.stringify2 (json_of_record exportRecord));;
  mret exportRecord.

(** One activation of [getExportRecord]; [again] is the recursive call
    [this.getExportRecord(folder, false)]. The promise of
    [createEmptyExportRecord] is returned without being awaited, so its
    rejection does not pass through the [catch]. *)
Definition getExportRecord_once (folder : string) (retry : bool)
    (again : Async ExportRecord) : Async ExportRecord :=
  r ← Async.try_catch
    (verifyExportFolderExists folder;;
     let exportRecordJSONPath := folder +:+ "/" +:+ exportRecordFileName in
     b ← exists_ exportRecordJSONPath;
     if negb b then mret (inl exportRecordJSONPath)
     else
       recordFile ← electron.readTextFile exportRecordJSONPath;
       match JSON.parse recordFile with
       | Some v => mret (inr (record_of_json v))
       | None => throwError CustomError.EXPORT_RECORD_JSON_PARSING_FAILED
       end)
    (λ e,
       if String.eqb (message e) CustomError.EXPORT_RECORD_JSON_PARSING_FAILED
          && retry
       then sleep 1000;; exportRecord ← again; mret (inr exportRecord)
       else
         when (negb (String.eqb (message e) CustomError.EXPORT_FOLDER_DOES_NOT_EXIST))
           (log.error "export Record JSON parsing failed" e);;
         Async.throw e);
  match r with
  | inl exportRecordJSONPath => createEmptyExportRecord exportRecordJSONPath
  | inr exportRecord => mret exportRecord
  end.

(** [getExportRecord(folder, retry = true)]. With [retry] false the
    activation never calls itself again. *)
Definition getExportRecord (folder : string) (retry : bool) : Async ExportRecord :=
  getExportRecord_once folder retry
    (getExportRecord_once folder false Async.out_of_fuel).

Definition updateExportRecordHelper (folder : string) (newData : ExportRecord)
    : Async ExportRecord :=
  Async.try_catch
    (exportRecord ← getExportRecord folder true;
     let newRecord := spread exportRecord newData in
     electron.saveFileToDisk (folder +:+ "/" +:+ exportRecordFileName)
       (JSON.stringify2 (json_of_record newRecord));;
     mret newRecord)
    (λ e,
       if String.eqb (message e) CustomError.EXPORT_FOLDER_DOES_NOT_EXIST
       then Async.throw e
       else
         log.error "error updating Export Record" e;;
         throwError CustomError.UPDATE_EXPORTED_RECORD_FAILED).

(** Modelled from the spec: the [QueueProcessor] of
    [@ente/shared/utils/queueProcessor] is not part of these sources. It
    runs the queued requests one at a time, in the order they were
    queued (section 4.3); for a caller that awaits each update before
    the next call, that is the request itself. *)
Definition updateExportRecord (folder : string) (newData : ExportRecord)
    : Async ExportRecord :=
  updateExportRecordHelper folder newData.

Definition with_fileExportNames (r : ExportRecord)
    (names : option (gmap string string)) : ExportRecord :=
  {| version := version r; lastAttemptTimestamp := lastAttemptTimestamp r;
     stage := stage r; fileExportNames := names;
     collectionExportNames := collectionExportNames r |}.

Definition with_collectionExportNames (r : ExportRecord)
    (names : option (gmap Z string)) : ExportRecord :=
  {| version := version r; lastAttemptTimestamp := lastAttemptTimestamp r;
     stage := stage r; fileExportNames := fileExportNames r;
     collectionExportNames := names |}.

Definition log_unless_folder_missing {A} (msg : string) (e : Error) : Async A :=
  when (negb (String.eqb (message e) CustomError.EXPORT_FOLDER_DOES_NOT_EXIST))
    (log.error msg e);;
  Async.throw e.

Definition addFileExportedRecord (folder fileUID fileExportName : string)
    : Async unit :=
  Async.try_catch
    (exportRecord ← getExportRecord folder true;
     let exportRecord :=
       match fileExportNames exportRecord with
       | None => with_fileExportNames exportRecord (Some ∅)
       | Some _ => exportRecord
       end in
     let exportRecord :=
       with_fileExportNames exportRecord
         (Some (<[fileUID := fileExportName]>
                  (default ∅ (fileExportNames exportRecord)))) in
     updateExportRecord folder exportRecord;;
     mret ())
    (log_unless_folder_missing "addFileExportedRecord failed").

(** The export name may be [undefined] (a collection the map has no
    entry for): the property is then set to [undefined], and
    [JSON.stringify] leaves it out of the file. *)
Definition addCollectionExportedRecord (folder : string) (collectionID : Z)
    (collectionExportName : option string) : Async unit :=
  Async.try_catch
    (exportRecord ← getExportRecord folder true;
     let exportRecord :=
       match collectionExportNames exportRecord with
       | None => with_collectionExportNames exportRecord (Some ∅)
       | Some _ => exportRecord
       end in
     let names := default ∅ (collectionExportNames exportRecord) in
     let exportRecord :=
       with_collectionExportNames exportRecord
         (Some match collectionExportName with
               | Some name => <[collectionID := name]> names
               | None => delete collectionID names
               end) in
     updateExportRecord folder exportRecord;;
     mret ())
    (log_unless_folder_missing "addCollectionExportedRecord failed").

(** [Object.entries(undefined)] throws a [TypeError]. *)
Definition Object_entries {A} (o : option A) : Async A :=
  match o with
  | Some a => mret a
  | None => throwError "Cannot convert undefined or null to object"
  end.

Definition removeCollectionExportedRecord (folder : string) (collectionID : Z)
    : Async unit :=
  Async.try_catch
    (exportRecord ← getExportRecord folder true;
     names ← Object_entries (collectionExportNames exportRecord);
     let exportRecord :=
       with_collectionExportNames exportRecord
         (Some (filter (λ '(key, _), key ≠ collectionID) names)) in
     updateExportRecord folder exportRecord;;
     mret ())
    (log_unless_folder_missing "removeCollectionExportedRecord failed").

Definition removeFileExportedRecord (folder fileUID : string) : Async unit :=
  Async.try_catch
    (exportRecord ← getExportRecord folder true;
     names ← Object_entries (fileExportNames exportRecord);
     let exportRecord :=
       with_fileExportNames exportRecord
         (Some (filter (λ '(key, _), key ≠ fileUID) names)) in
     updateExportRecord folder exportRecord;;
     mret ())
    (log_unless_folder_missing "removeFileExportedRecord failed").

Definition getMetadataFolderExportPath (collectionExportPath : string) : string :=
  collectionExportPath +:+ "/" +:+ exportMetadataDirectoryName.

Definition getFileMetadataExportPath
    (collectionExportPath fileExportName : string) : string :=
  collectionExportPath +:+ "/" +:+ exportMetadataDirectoryName +:+ "/"
    +:+ fileExportName +:+ ".json".

Definition getLivePhotoExportName (imageExportName videoExportName : string)
    : string :=
  JSON.stringify
    (JSON.JObject [("image", JSON.JString imageExportName);
                   ("video", JSON.JString videoExportName)]).

Definition isLivePhotoExportName (exportName : string) : bool :=
  match JSON.parse exportName with
  | Some _ => true
  | None => false
  end.

(** Modelled from the spec: [splitFilenameAndExtension] of [utils/file]
    is not part of these sources. It splits at the last dot, "preserving
    the last [.]-separated extension if any" (section 4.2); without a
    dot the extension is [null]. *)
Definition splitFilenameAndExtension (filename : string) : string * option string :=
  match Str.split_last_dot filename with
  | Some (stem, ext) => (stem, Some ext)
  | None => (filename, None)
  end.

(** [if (parts[1])]: [null] and the empty string are falsy. *)
Definition truthy (s : option string) : option string :=
  match s with
  | Some EmptyString | None => None
  | Some ext => Some ext
  end.

(** The [while] loop of [getTrashedFileExportPath]. *)
Fixpoint getTrashedFileExportPath_loop (fuel : nat)
    (trashedFilePath : string) (count : Z) : Async string :=
  match fuel with
  | O => Async.out_of_fuel
  | S fuel =>
      taken ← exists_ trashedFilePath;
      if (taken : bool) then
        let trashedFilePathParts := splitFilenameAndExtension trashedFilePath in
        let trashedFilePath :=
          match truthy (trashedFilePathParts.2) with
          | Some ext =>
              trashedFilePathParts.1 +:+ "(" +:+ Number_toString count +:+ ")."
                +:+ ext
          | None =>
              trashedFilePathParts.1 +:+ "(" +:+ Number_toString count +:+ ")"
          end in
        getTrashedFileExportPath_loop fuel trashedFilePath (count + 1)
      else mret trashedFilePath
  end.

Definition getTrashedFileExportPath (fuel : nat) (exportDir path : string)
    : Async string :=
  let fileRelativePath := Str.remove_first (exportDir +:+ "/") path in
  let trashedFilePath :=
    exportDir +:+ "/" +:+ exportTrashDirectoryName +:+ "/" +:+ fileRelativePath in
  getTrashedFileExportPath_loop fuel trashedFilePath 1.

(** ** Writing files *)

(** Modelled from the spec: [safeFileName] of [utils/native-fs] and the
    sanitizer it calls are not part of these sources. Section 4.2: the
    candidate is sanitized (path separators and control characters
    become [_], trailing dots and spaces are trimmed, the result is
    capped at the platform's basename limit, here [limit]); if
    [parent/candidate] does not exist it is returned; otherwise
    [stem(k).ext] is tried for [k = 1, 2, ...], preserving the last
    dot-separated extension if any, until a name is free. *)
Module NameAllocator.

Definition replace_unsafe (c : ascii) : ascii :=
  if Ascii.eqb c "/" || Ascii.eqb c "\" || (N_of_ascii c <? 32)%N
     || Ascii.eqb c "127"
  then "_"%char else c.

Fixpoint map_chars (f : ascii → ascii) (s : string) : string :=
  match s with
  | EmptyString => EmptyString
  | String c r => String (f c) (map_chars f r)
  end.

(** Trailing dots and spaces removed. *)
Fixpoint trim_end (s : string) : string :=
  match s with
  | EmptyString => EmptyString
  | String c r =>
      match trim_end r with
      | EmptyString =>
          if Ascii.eqb c "." || Ascii.eqb c " " then EmptyString
          else String c EmptyString
      | r' => String c r'
      end
  end.

Fixpoint take (n : nat) (s : string) : string :=
  match n, s with
  | S n, String c r => String c (take n r)
  | _, _ => EmptyString
  end.

Definition sanitize (limit : nat) (name : string) : string :=
  take limit (trim_end (map_chars replace_unsafe name)).

Definition candidate (name : string) (k : Z) : string :=
  match splitFilenameAndExtension name with
  | (stem, Some ext) => stem +:+ "(" +:+ Number_toString k +:+ ")." +:+ ext
  | (stem, None) => stem +:+ "(" +:+ Number_toString k +:+ ")"
  end.

Fixpoint allocate_from (fuel : nat) (parent name current : string) (k : Z)
    : Async string :=
  match fuel with
  | O => Async.out_of_fuel
  | S fuel =>
      taken ← exists_ (parent +:+ "/" +:+ current);
      if (taken : bool)
      then allocate_from fuel parent name (candidate name k) (k + 1)
      else mret current
  end.

Definition safeFileName (limit fuel : nat) (directoryPath name : string)
    : Async string :=
  let name := sanitize limit name in
  allocate_from fuel directoryPath name name 1.

End NameAllocator.

(** The result of [decodeLivePhoto]. *)
Record LivePhoto := {
  image : string;
  video : string;
  imageNameTitle : string;
  videoNameTitle : string;
}.

Section materializer.
(** Collaborators outside these sources: the name allocator of
    [utils/native-fs], the live photo decoder of [livePhotoService] and
    the date formatter of [@ente/shared/time/format]. *)
Variable safeFileName : string → string → Async string.
Variable decodeLivePhoto : EnteFile → string → Async LivePhoto.
Variable formatDateTimeShort : Z → string.

Definition getGoogleLikeMetadataFile (fileExportName : string) (file : EnteFile)
    : string :=
  let metadata := EnteFile.metadata file in
  let creationTime := Metadata.creationTime metadata / 1000000 in
  let modificationTime :=
    default (Metadata.creationTime metadata)
      (Metadata.modificationTime metadata) / 1000000 in
  let captionValue := EnteFile.caption file in
  JSON.stringify2
    (JSON.JObject
       ([("title", JSON.JString fileExportName)]
        ++ option_list ((λ c, ("caption", JSON.JString c)) <$> captionValue)
        ++ [("creationTime",
             JSON.JObject
               [("timestamp", JSON.JNumber creationTime 0);
                ("formatted",
                 JSON.JString (formatDateTimeShort (creationTime * 1000)))]);
            ("modificationTime",
             JSON.JObject
               [("timestamp", JSON.JNumber modificationTime 0);
                ("formatted",
                 JSON.JString (formatDateTimeShort (modificationTime * 1000)))]);
            ("geoData",
             JSON.JObject
               (option_list ((λ x, ("latitude", x)) <$> Metadata.latitude metadata)
                ++ option_list
                     ((λ x, ("longitude", x)) <$> Metadata.longitude metadata)))])).

Definition saveMetadataFile
    (collectionExportPath fileExportName : string) (file : EnteFile) : Async unit :=
  electron.saveFileToDisk
    (getFileMetadataExportPath collectionExportPath fileExportName)
    (getGoogleLikeMetadataFile fileExportName file).

(** [fileStream] is the stream as the bytes it yields; reading it into
    a blob gives those bytes. *)
Definition exportLivePhoto
    (exportDir fileUID collectionExportPath fileStream : string)
    (file : EnteFile) : Async unit :=
  let fileBlob := fileStream in
  livePhoto ← decodeLivePhoto file fileBlob;
  imageExportName ← safeFileName collectionExportPath (imageNameTitle livePhoto);
  videoExportName ← safeFileName collectionExportPath (videoNameTitle livePhoto);
  let livePhotoExportName :=
    getLivePhotoExportName imageExportName videoExportName in
  addFileExportedRecord exportDir fileUID livePhotoExportName;;
  Async.try_catch
    (let imageStream := image livePhoto in
     saveMetadataFile collectionExportPath imageExportName file;;
     electron.saveStreamToDisk
       (collectionExportPath +:+ "/" +:+ imageExportName) imageStream;;
     let videoStream := video livePhoto in
     saveMetadataFile collectionExportPath videoExportName file;;
     Async.try_catch
       (electron.saveStreamToDisk
          (collectionExportPath +:+ "/" +:+ videoExportName) videoStream)
       (λ e,
          electron.deleteFile (collectionExportPath +:+ "/" +:+ imageExportName);;
          Async.throw e))
    (λ e,
       removeFileExportedRecord exportDir fileUID;;
       Async.throw e).
End materializer.

(** ** Removing the directories of deleted collections *)

(** [`${exportFolder}/${collectionExportName}`]: an [undefined] name is
    written as the text [undefined]. *)
Definition template (x : option string) : string := default "undefined" x.

(** The body of the [for] loop of [collectionRemover], for one collection
    id. *)
Definition collectionRemover_item (exportFolder : string)
    (isCanceled : CancellationStatus) (exportRecord : ExportRecord)
    (collectionIDPathMap : gmap Z string) (collectionID : Z) : Async unit :=
  Async.try_catch
    (stopped ← readStatus isCanceled;
     when stopped (throwError CustomError.EXPORT_STOPPED);;
     verifyExportFolderExists exportFolder;;
     let collectionExportName := collectionIDPathMap !! collectionID in
     (* verify that the all exported files from the collection has been removed *)
     let collectionExportedFiles :=
       getCollectionExportedFiles exportRecord collectionID in
     when (0 <? length collectionExportedFiles)%nat
       (throwError "collection is not empty, can't remove");;
     let collectionExportPath :=
       exportFolder +:+ "/" +:+ template collectionExportName in
     removeCollectionExportedRecord exportFolder collectionID;;
     Async.try_catch
       ((* delete the collection metadata folder *)
        electron.deleteFolder (getMetadataFolderExportPath collectionExportPath);;
        (* delete the collection folder *)
        electron.deleteFolder collectionExportPath)
       (λ e,
          addCollectionExportedRecord exportFolder collectionID collectionExportName;;
          Async.throw e))
    (λ e,
       log.error "collectionRemover failed a collection" e;;
       when (is_fatal e) (Async.throw e)).

(** The [for] loop of [collectionRemover]. *)
Fixpoint collectionRemover_loop (exportFolder : string)
    (isCanceled : CancellationStatus) (exportRecord : ExportRecord)
    (collectionIDPathMap : gmap Z string)
    (deletedExportedCollectionIDs : list Z) : Async unit :=
  match deletedExportedCollectionIDs with
  | [] => mret ()
  | collectionID :: rest =>
      collectionRemover_item exportFolder isCanceled exportRecord
        collectionIDPathMap collectionID;;
      collectionRemover_loop exportFolder isCanceled exportRecord
        collectionIDPathMap rest
  end.

Definition collectionRemover (deletedExportedCollectionIDs : list Z)
    (exportFolder : string) (isCanceled : CancellationStatus) : Async unit :=
  Async.try_catch
    (exportRecord ← getExportRecord exportFolder true;
     let collectionIDPathMap :=
       convertCollectionIDExportNameObjectToMap
         (collectionExportNames exportRecord) in
     collectionRemover_loop exportFolder isCanceled exportRecord
       collectionIDPathMap deletedExportedCollectionIDs)
    (λ e,
       when (negb (is_not_found_or_stopped e))
         (log.error "collectionRemover failed" e);;
       Async.throw e).

(** ** Shapes of JSON texts *)

Module JSONAux.
Import JSON.

Definition all_ws (s : string) : Prop := Str.forallb is_ws s = true.

(** The text after a value written by [serialize]: nothing, a comma,
    a closing bracket or a line break. *)
Definition delimited (s : string) : Prop :=
  match s with
  | EmptyString => True
  | String c _ => c = ","%char ∨ c = "]"%char ∨ c = "}"%char ∨ c = "010"%char
  end.

Definition nondigit_head (s : string) : Prop :=
  match s with
  | EmptyString => True
  | String c _ => Str.is_digit c = false
  end.

(** The decimal numeral of a natural number: digits, not empty, without
    a leading zero unless it is ["0"]. *)
Definition numeral (ds : string) (n : Z) : Prop :=
  Str.forallb Str.is_digit ds = true
  ∧ (∃ c r, ds = String c r
            ∧ (Ascii.eqb c "0" && negb (String.eqb r EmptyString) = false))
  ∧ digits_value ds = n.

(** The first character of the text of a value. *)
Definition starts_value (s : string) : Prop :=
  ∃ c r, s = String c r ∧ is_ws c = false
         ∧ Ascii.eqb c "]" = false ∧ Ascii.eqb c "}" = false
         ∧ Ascii.eqb c "," = false.

(** The text of [v], at any indentation and before any delimiter, is
  read back as [v]. *)
Definition reads_back (gap : string) (v : value) : Prop :=
  ∀ indent rest fuel,
    all_ws indent → delimited rest → (size v ≤ fuel)%nat →
    parse_value fuel (serialize gap indent v +:+ rest) = Some (v, rest).

End JSONAux.

(** ** Scheduling export runs *)

(** [scheduleExport], [stopRunningExport] and the timer queue act on two
    fields of the service, [exportInProgress] and [reRunNeeded]. An
    activation of [scheduleExport] that starts a run is suspended while
    it awaits the run and later [postExport]; other calls execute in
    between. The model splits the function at these [await]s: each
    definition below is one stretch of code that executes without
    interruption. *)
Module Scheduler.

(** Where a run (an activation of [scheduleExport] that got past the
    in-progress check) is suspended. *)
Inductive position :=
| Exporting           (* awaiting [preExport] / [runExport] *)
| PostExportCancelled (* in [finally], cancelled branch, awaiting [postExport] *)
| PostExportNatural   (* in [finally], other branch, awaiting [postExport] *)
| Returned.

Global Instance position_eq_dec : EqDecision position.
Proof. solve_decision. Defined.

(** A run: its [CancellationStatus] object [isCanceled], which the
    canceller kept in [exportInProgress] closes over, and its
    position. *)
Record Run := {
  status : bool;
  position_of : position;
}.

(** [exportInProgress] holds the canceller of a run, identified by the
    index of the run; [timers] counts the pending
    [setTimeout(() => this.scheduleExport(), 0)] callbacks;
    [postExports] counts the calls of [postExport]. *)
Record State := {
  exportInProgress : option nat;
  reRunNeeded : bool;
  runs : list Run;
  timers : nat;
  postExports : nat;
}.

Definition initial : State :=
  {| exportInProgress := None; reRunNeeded := false; runs := [];
     timers := 0; postExports := 0 |}.

Definition set_run (n : nat) (f : Run → Run) (s : State) : State :=
  {| exportInProgress := exportInProgress s; reRunNeeded := reRunNeeded s;
     runs := alter f n (runs s); timers := timers s;
     postExports := postExports s |}.

Definition move (p : position) (r : Run) : Run :=
  {| status := status r; position_of := p |}.

Definition call_postExport (s : State) : State :=
  {| exportInProgress := exportInProgress s; reRunNeeded := reRunNeeded s;
     runs := runs s; timers := timers s; postExports := S (postExports s) |}.

(** [scheduleExport], from the call to the first [await]: either the
    re-run flag is set and the call returns, or a canceller is
    installed and the run starts. *)
Definition scheduleExport (s : State) : State :=
  match exportInProgress s with
  | Some _ =>
      (* export in progress, scheduling re-run *)
      {| exportInProgress := exportInProgress s; reRunNeeded := true;
         runs := runs s; timers := timers s; postExports := postExports s |}
  | None =>
      (* export not in progress, starting export *)
      let isCanceled := {| status := false; position_of := Exporting |} in
      {| exportInProgress := Some (length (runs s));
         reRunNeeded := reRunNeeded s;
         runs := runs s ++ [isCanceled]; timers := timers s;
         postExports := postExports s |}
  end.

(** The [try] block of run [n] is left (the export completed, or
    [preExport] or [runExport] threw): the [finally] block starts, up
    to its [await]. *)
Definition enter_finally (n : nat) (s : State) : State :=
  match runs s !! n with
  | Some {| status := isCanceled; position_of := Exporting |} =>
      if isCanceled then
        (* export cancellation done *)
        match exportInProgress s with
        | None => call_postExport (set_run n (move PostExportCancelled) s)
        | Some _ => set_run n (move Returned) s
        end
      else call_postExport (set_run n (move PostExportNatural) s)
  | _ => s
  end.

(** [postExport] returns to run [n]: the rest of the [finally] block. *)
Definition leave_finally (n : nat) (s : State) : State :=
  match runs s !! n with
  | Some {| position_of := PostExportCancelled |} =>
      set_run n (move Returned) s
  | Some {| position_of := PostExportNatural |} =>
      (* resetting export in progress after completion *)
      let s := set_run n (move Returned) s in
      if reRunNeeded s then
        (* re-running export *)
        {| exportInProgress := None; reRunNeeded := false; runs := runs s;
           timers := S (timers s); postExports := postExports s |}
      else
        {| exportInProgress := None; reRunNeeded := reRunNeeded s;
           runs := runs s; timers := timers s; postExports := postExports s |}
  | _ => s
  end.

(** [stopRunningExport], up to its [await]. With no export in progress
    [this.exportInProgress.exec()] throws a [TypeError], which is
    caught and logged. *)
Definition stopRunningExport (s : State) : State :=
  match exportInProgress s with
  | Some n =>
      let s :=
        set_run n (λ r, {| status := true; position_of := position_of r |}) s in
      call_postExport
        {| exportInProgress := None; reRunNeeded := false; runs := runs s;
           timers := timers s; postExports := postExports s |}
  | None => s
  end.

(** A deferred call fires: [() => this.scheduleExport()]. *)
Definition timer_fires (s : State) : State :=
  match timers s with
  | O => s
  | S k =>
      scheduleExport
        {| exportInProgress := exportInProgress s; reRunNeeded := reRunNeeded s;
           runs := runs s; timers := k; postExports := postExports s |}
  end.

(** The runs that are executing [preExport] or [runExport]. *)
Definition exporting (s : State) : list Run :=
  List.filter (λ r, bool_decide (position_of r = Exporting)) (runs s).

End Scheduler.

(** ** The state of the journal, as a load would find it *)

Definition journalPath (folder : string) : string :=
  folder +:+ "/" +:+ exportRecordFileName.

(** The record held by the journal file, when the file exists and its
    text is JSON. *)
Definition journal_of (folder : string) (w : Fs.World) : option ExportRecord :=
  match Fs.nodes w !! journalPath folder with
  | Some (Fs.File text) => record_of_json <$> JSON.parse text
  | _ => None
  end.

(** The export folder is set and exists. *)
Definition folder_present (folder : string) (w : Fs.World) : Prop :=
  folder ≠ EmptyString ∧ is_Some (Fs.nodes w !! folder).

(** The calls that load and save the journal do not fail. *)
Definition journal_reliable (folder : string) (w : Fs.World) : Prop :=
  Fs.faults w (Fs.exists_ folder) = None
  ∧ Fs.faults w (Fs.exists_ (journalPath folder)) = None
  ∧ Fs.faults w (Fs.readTextFile (journalPath folder)) = None
  ∧ Fs.faults w (Fs.saveFileToDisk (journalPath folder)) = None.

(** What a load of the journal gives: the record of the file, or the
    empty record when there is no file yet. *)
Definition journal_reads (folder : string) (w : Fs.World) (r : ExportRecord)
    : Prop :=
  journal_of folder w = Some r
  ∨ (Fs.nodes w !! journalPath folder = None ∧ r = NULL_EXPORT_RECORD).

(** [w'] is [w] but for the trace. *)
Definition same_folder (w w' : Fs.World) : Prop :=
  Fs.nodes w' = Fs.nodes w ∧ Fs.faults w' = Fs.faults w
  ∧ Fs.tamper w' = Fs.tamper w ∧ Fs.clock w' = Fs.clock w.

(** [w'] is [w] but for the trace and what is at the paths [paths]. *)
Definition frame (paths : list string) (w w' : Fs.World) : Prop :=
  (∀ p, p ∉ paths → Fs.nodes w' !! p = Fs.nodes w !! p)
  ∧ Fs.faults w' = Fs.faults w
  ∧ Fs.tamper w' = Fs.tamper w ∧ Fs.clock w' = Fs.clock w.

(** The world after a first load found an unreadable journal and the
    service slept for a second. *)
Definition after_failed_attempt (folder : string) (w : Fs.World) : Fs.World :=
  {| Fs.nodes := Fs.tamper w (Fs.clock w + 1000)%nat (Fs.nodes w);
     Fs.faults := Fs.faults w;
     Fs.tamper := Fs.tamper w;
     Fs.clock := (Fs.clock w + 1000)%nat;
     Fs.trace :=
       [Fs.Sleep 1000;
        Fs.Call (Fs.readTextFile (journalPath folder));
        Fs.Call (Fs.exists_ (journalPath folder));
        Fs.Call (Fs.exists_ folder)] ++ Fs.trace w |}.

(** ** Export names and paths, continued *)

(** [s.includes(pattern)] *)
Fixpoint String_includes (pattern s : string) : bool :=
  String.prefix pattern s
  || match s with
     | EmptyString => false
     | String _ r => String_includes pattern r
     end.

(** [const { image, video } = JSON.parse(livePhotoExportName)]:
    [JSON.parse] throws a [SyntaxError] on a text that is not JSON, and
    destructuring [null] throws a [TypeError]; a property that the value
    does not have is [undefined]. The result is the pair of [image] and
    [video]. *)
Definition parseLivePhotoExportName (livePhotoExportName : string)
    : Error + (option JSON.value * option JSON.value) :=
  match JSON.parse livePhotoExportName with
  | None => inl {| message := "Unexpected token in JSON" |}
  | Some JSON.JNull =>
      inl {| message := "Cannot destructure property 'image' of null" |}
  | Some v => inr (JSON.get "image" v, JSON.get "video" v)
  end.

(** [filePath.split("/").pop()] is the text after the last slash; the
    first occurrence of that name after a slash is then removed from the
    path. *)
Definition getMetadataFileExportPath (filePath : string) : string :=
  let filename := template (last (Str.split "/" filePath)) in
  let collectionExportPath := Str.remove_first ("/" +:+ filename) filePath in
  collectionExportPath +:+ "/" +:+ exportMetadataDirectoryName +:+ "/"
    +:+ filename +:+ ".json".

Definition isExportInProgress (exportStage : Z) : bool :=
  (ExportStage.INIT <? exportStage) && (exportStage <? ExportStage.FINISHED).
(** ** Downloading and saving one file *)

Section downloader.
(** Collaborators outside these sources: the name allocator, the live
    photo decoder and the date formatter as before, the download manager
    of [services/download] and the EXIF updater of [utils/file]. The
    streams are the bytes they yield. The [FileReader] that
    [downloadAndSave] creates on first use and hands to the EXIF
    updater is part of that collaborator here. *)
Variable safeFileName : string → string → Async string.
Variable decodeLivePhoto : EnteFile → string → Async LivePhoto.
Variable formatDateTimeShort : Z → string.
Variable getFile : EnteFile → Async string.
Variable getUpdatedEXIFFileForDownload : EnteFile → string → Async string.

Definition downloadAndSave (exportDir collectionExportPath : string)
    (file : EnteFile) : Async unit :=
  Async.try_catch
    (let fileUID := getExportRecordFileUID file in
     originalFileStream ← getFile file;
     updatedFileStream ←
       getUpdatedEXIFFileForDownload file originalFileStream;
     if decide (Metadata.fileType (EnteFile.metadata file) = LIVE_PHOTO)
     then
       exportLivePhoto safeFileName decodeLivePhoto formatDateTimeShort
         exportDir fileUID collectionExportPath updatedFileStream file
     else
       fileExportName ←
         safeFileName collectionExportPath
           (Metadata.title (EnteFile.metadata file));
       addFileExportedRecord exportDir fileUID fileExportName;;
       Async.try_catch
         (saveMetadataFile formatDateTimeShort collectionExportPath
            fileExportName file;;
          electron.saveStreamToDisk
            (collectionExportPath +:+ "/" +:+ fileExportName)
            updatedFileStream)
         (λ e,
            removeFileExportedRecord exportDir fileUID;;
            Async.throw e))
    (λ e,
       log.error "download and save failed" e;;
       Async.throw e).
End downloader.
(** ** Executions of the scheduler *)

(** One uninterrupted stretch of code of the service runs: a trigger
    ([scheduleExport] is called), a deferred call fires, the [try] block
    of a run is left, [postExport] returns to a run, or the user stops
    the export while the run in progress is exporting. *)
Inductive scheduler_step : Scheduler.State → Scheduler.State → Prop :=
| step_trigger s :
    scheduler_step s (Scheduler.scheduleExport s)
| step_timer s :
    scheduler_step s (Scheduler.timer_fires s)
| step_enter_finally n s :
    scheduler_step s (Scheduler.enter_finally n s)
| step_leave_finally n s :
    scheduler_step s (Scheduler.leave_finally n s)
| step_stop_exporting n isCanceled s :
    Scheduler.exportInProgress s = Some n →
    Scheduler.runs s !! n
      = Some {| Scheduler.status := isCanceled;
                Scheduler.position_of := Scheduler.Exporting |} →
    scheduler_step s (Scheduler.stopRunningExport s).

(** The states the service reaches from its initial state. *)
Definition reachable (s : Scheduler.State) : Prop :=
  rtc scheduler_step Scheduler.initial s.

(** A run is live when it has not returned and has not been cancelled. *)
Definition live (r : Scheduler.Run) : Prop :=
  Scheduler.status r = false ∧ Scheduler.position_of r ≠ Scheduler.Returned.

(** ** Continuous export *)

(** Modelled from the spec: the event bus of [@ente/shared/events] is not
    part of these sources. The specification gives its interface,
    [addListener] and [removeListener] for [LOCAL_FILES_UPDATED], and
    says that each event calls the subscribed handler: [addListener] adds a
    registration, [removeListener] removes one, and an event calls the
    handler once per registration.

    The service with its listener: [scheduler] holds [exportInProgress]
    and [reRunNeeded], [continuousExportEventHandler] tells whether the
    handler is set, and [listeners] counts its registrations. *)
Module ExportService.

Record t := {
  scheduler : Scheduler.State;
  continuousExportEventHandler : bool;
  listeners : nat;
}.

Definition initial : t :=
  {| scheduler := Scheduler.initial; continuousExportEventHandler := false;
     listeners := 0 |}.

Definition enableContinuousExport (s : t) : t :=
  if continuousExportEventHandler s then
    (* continuous export already enabled *)
    s
  else
    (* enabling continuous export *)
    {| scheduler := Scheduler.scheduleExport (scheduler s);
       continuousExportEventHandler := true;
       listeners := S (listeners s) |}.

Definition disableContinuousExport (s : t) : t :=
  if negb (continuousExportEventHandler s) then
    (* continuous export already disabled *)
    s
  else
    (* disabling continuous export *)
    {| scheduler := scheduler s;
       continuousExportEventHandler := false;
       listeners := pred (listeners s) |}.

(** [eventBus.emit(Events.LOCAL_FILES_UPDATED)] *)
Definition LOCAL_FILES_UPDATED (s : t) : t :=
  {| scheduler := Nat.iter (listeners s) Scheduler.scheduleExport (scheduler s);
     continuousExportEventHandler := continuousExportEventHandler s;
     listeners := listeners s |}.

Inductive toggle : t → t → Prop :=
| toggle_enable s : toggle s (enableContinuousExport s)
| toggle_disable s : toggle s (disableContinuousExport s)
| toggle_event s : toggle s (LOCAL_FILES_UPDATED s).

End ExportService.

(** ** The canceller and the runs *)

(** Every run is either the one whose canceller is installed, not
    cancelled and before the end of its [finally] block, or it is not
    the one installed and has returned or was cancelled. *)
Definition canceller_tracks_runs (s : Scheduler.State) : Prop :=
  (∀ n, Scheduler.exportInProgress s = Some n →
        (n < length (Scheduler.runs s))%nat)
  ∧ ∀ n r, Scheduler.runs s !! n = Some r →
      (Scheduler.exportInProgress s = Some n
       ∧ Scheduler.status r = false
       ∧ (Scheduler.position_of r = Scheduler.Exporting
          ∨ Scheduler.position_of r = Scheduler.PostExportNatural))
      ∨ (Scheduler.exportInProgress s ≠ Some n
         ∧ (Scheduler.position_of r = Scheduler.Returned
            ∨ (Scheduler.status r = true
               ∧ (Scheduler.position_of r = Scheduler.Exporting
                  ∨ Scheduler.position_of r = Scheduler.PostExportCancelled)))).
(** ** Before and after a run *)

Record ExportProgress := {
  success : Z;
  failed : Z;
  total : Z;
}.

(** [ExportUIUpdaters]: the callbacks through which the service tells the
    user interface about its state. *)
Record ExportUIUpdaters := {
  setExportProgress : ExportProgress → Async unit;
  setExportStage : Z → Async unit;
  setLastExportTime : Z → Async unit;
  setPendingExports : list EnteFile → Async unit;
}.

(** The updaters the service starts with. *)
Definition initialUIUpdaters : ExportUIUpdaters :=
  {| setExportProgress := λ _, mret ();
     setExportStage := λ _, mret ();
     setLastExportTime := λ _, mret ();
     setPendingExports := λ _, mret () |}.

Section lifecycle.
(** The user interface; the inventory of [fileService] and
    [collectionService]; [getPersonalFiles] of [utils/file], applied to
    the user of the local storage; [migrateExport] of [./migration];
    and the folder of the export settings,
    [this.getExportSettings()?.folder], where the empty string also
    stands for a folder that is not set. *)
Variable uiUpdater : ExportUIUpdaters.
Variable getAllLocalFiles : Async (list EnteFile).
Variable getAllLocalCollections : Async (list Collection).
Variable getPersonalFiles : list EnteFile → gmap Z Z → list EnteFile.
Variable migrateExport :
  string → ExportRecord → (ExportProgress → Async unit) → Async unit.
Variable settingsFolder : string.

Definition runMigration (exportDir : string) (exportRecord : ExportRecord)
    (updateProgress : ExportProgress → Async unit) : Async unit :=
  Async.try_catch
    (migrateExport exportDir exportRecord updateProgress)
    (λ e,
       log.error "migration failed" e;;
       Async.throw e).

Definition updateExportProgress (exportProgress : ExportProgress)
    : Async unit :=
  setExportProgress uiUpdater exportProgress.

Definition updateExportStage (stage : Z) : Async unit :=
  let exportFolder := settingsFolder in
  updateExportRecord exportFolder
    {| version := None; lastAttemptTimestamp := None; stage := Some stage;
       fileExportNames := None; collectionExportNames := None |};;
  setExportStage uiUpdater stage.

Definition updateLastExportTime (exportTime : Z) : Async unit :=
  let exportFolder := settingsFolder in
  updateExportRecord exportFolder
    {| version := None; lastAttemptTimestamp := Some (Some exportTime);
       stage := None; fileExportNames := None;
       collectionExportNames := None |};;
  setLastExportTime uiUpdater exportTime.

(** [new Map(entries)]: of two entries with the same key the later one
    is kept. *)
Definition getPendingExports (exportRecord : ExportRecord)
    : Async (list EnteFile) :=
  Async.try_catch
    (files ← getAllLocalFiles;
     collections ← getAllLocalCollections;
     let collectionIdToOwnerIDMap : gmap Z Z :=
       list_to_map
         (reverse ((λ collection,
                      (Collection.id collection, Collection.ownerID collection))
                     <$> collections)) in
     let userPersonalFiles :=
       getPersonalFiles files collectionIdToOwnerIDMap in
     let unExportedFiles :=
       getUnExportedFiles userPersonalFiles exportRecord in
     mret unExportedFiles)
    (λ e,
       log.error "getUpdateFileLists failed" e;;
       Async.throw e).

Definition preExport (exportFolder : string) : Async unit :=
  verifyExportFolderExists exportFolder;;
  exportRecord ← getExportRecord exportFolder true;
  updateExportStage ExportStage.MIGRATION;;
  runMigration exportFolder exportRecord updateExportProgress;;
  updateExportStage ExportStage.STARTING.

(** [now] is the value of [Date.now()]. *)
Definition postExport (now : Z) : Async unit :=
  Async.try_catch
    (let exportFolder := settingsFolder in
     b ← exportFolderExists exportFolder;
     if negb b then setExportStage uiUpdater ExportStage.INIT
     else
       updateExportStage ExportStage.FINISHED;;
       updateLastExportTime now;;
       exportRecord ← getExportRecord exportFolder true;
       pendingExports ← getPendingExports exportRecord;
       setPendingExports uiUpdater pendingExports)
    (λ e, log.error "postExport failed" e).
End lifecycle.
(** ** Resuming at start *)

Record ExportSettings := {
  folder : string;
  continuousExport : bool;
}.

(** [exportService.scheduleExport()], up to its first [await]. *)
Definition service_scheduleExport (service : ExportService.t) : ExportService.t :=
  {| ExportService.scheduler :=
       Scheduler.scheduleExport (ExportService.scheduler service);
     ExportService.continuousExportEventHandler :=
       ExportService.continuousExportEventHandler service;
     ExportService.listeners := ExportService.listeners service |}.

(** [resumeExportsIfNeeded], given the export settings (which may be
    absent) and acting on the service. A journal without [stage] is not
    in progress: [undefined > 0] is false. *)
Definition resumeExportsIfNeeded (exportSettings : option ExportSettings)
    (service : ExportService.t) : Async ExportService.t :=
  b ← exportFolderExists (from_option folder EmptyString exportSettings);
  if negb b then mret service
  else
    exportRecord ←
      getExportRecord (from_option folder EmptyString exportSettings) true;
    let service :=
      if from_option continuousExport false exportSettings
      then ExportService.enableContinuousExport service else service in
    let service :=
      if from_option isExportInProgress false (stage exportRecord)
      then service_scheduleExport service else service in
    mret service.

(** * Statements of the specification *)

(** ** The planner's lists, as the specification words them *)

(** The journal has an entry for the UID. *)
Definition recorded_file (exportRecord : ExportRecord) (fileUID : string) : Prop :=
  ∃ names exportName,
    fileExportNames exportRecord = Some names ∧ names !! fileUID = Some exportName.

Global Instance recorded_file_dec r u : Decision (recorded_file r u).
Proof.
  unfold recorded_file.
  destruct (fileExportNames r) as [names|] eqn:E.
  - destruct (names !! u) as [n|] eqn:En.
    + left. eauto.
    + right. intros (names' & n & [= <-] & ?). congruence.
  - right. intros (names' & n & [=] & ?).
Defined.

(** The order [(collection_id, id)] on files. *)
Definition collection_id_le (a b : EnteFile) : Prop :=
  EnteFile.collectionID a < EnteFile.collectionID b
  ∨ (EnteFile.collectionID a = EnteFile.collectionID b
     ∧ EnteFile.id a ≤ EnteFile.id b).

Global Instance collection_id_le_dec : RelDecision collection_id_le.
Proof. intros a b. unfold collection_id_le. apply _. Defined.

(** [FilesToExport] as the specification states it: exactly the personal
    files without a journal entry, ordered by [(collection_id, id)]. *)
Definition FilesToExport_stated
    (personalFiles : list EnteFile) (exportRecord : ExportRecord)
    (filesToExport : list EnteFile) : Prop :=
  (∀ f, f ∈ filesToExport ↔
        f ∈ personalFiles ∧ ¬ recorded_file exportRecord (getExportRecordFileUID f))
  ∧ StronglySorted collection_id_le filesToExport.

(** A name that carries a numbered suffix: [base(k)] for a nonempty run
    of decimal digits [k]. *)
Definition numbered (base name : string) : Prop :=
  ∃ k, k ≠ EmptyString ∧ Str.forallb Str.is_digit k = true
       ∧ name = base +:+ "(" +:+ k +:+ ")".

(** [bare] is [name] after stripping a trailing [(k)] suffix. *)
Definition stripped (name bare : string) : Prop :=
  numbered bare name ∨ (name = bare ∧ ¬ ∃ base, numbered base name).

(** ** Journal updates, as the specification words them *)

(** A property of the updated record: replaced when the partial data
    has it, kept otherwise. *)
Definition merged {A} (prior newData persisted : option A) : Prop :=
  (is_Some newData → persisted = newData)
  ∧ (newData = None → persisted = prior).

Definition fieldwise_merge (prior newData persisted : ExportRecord) : Prop :=
  merged (version prior) (version newData) (version persisted)
  ∧ merged (lastAttemptTimestamp prior) (lastAttemptTimestamp newData)
      (lastAttemptTimestamp persisted)
  ∧ merged (stage prior) (stage newData) (stage persisted)
  ∧ merged (fileExportNames prior) (fileExportNames newData)
      (fileExportNames persisted)
  ∧ merged (collectionExportNames prior) (collectionExportNames newData)
      (collectionExportNames persisted).

(** ** Collection removal, as the specification words it *)

(** The journal has a file entry for the collection: an entry whose UID
    carries the collection's id. *)
Definition has_file_entry_for (exportRecord : ExportRecord) (collectionID : Z)
    : Prop :=
  ∃ names fileUID exportName,
    fileExportNames exportRecord = Some names
    ∧ names !! fileUID = Some exportName
    ∧ getCollectionIDFromFileUID fileUID = Some collectionID.

Definition collection_not_empty : Error :=
  {| message := "collection is not empty, can't remove" |}.

(** The second candidate the specification names for [path] in the
    Trash of [exportDir]: [stem(2).ext] of the first candidate. *)
Definition second_trash_candidate (exportDir path : string) : string :=
  NameAllocator.candidate
    (exportDir +:+ "/" +:+ exportTrashDirectoryName +:+ "/"
       +:+ Str.remove_first (exportDir +:+ "/") path) 2.

(** ** Collaborators *)

(** A call of a collaborator that resolves to [a] and leaves the export
    folder as it is. *)
Definition resolves_to {A} (m : Async A) (w : Fs.World) (a : A)
    (w' : Fs.World) : Prop :=
  m w = (Resolved a, w') ∧ same_folder w w'.

(** A callback that returns without acting on the export folder or its
    trace, as the setters of the user interface do. *)
Definition silent {A} (callback : A → Async unit) : Prop :=
  ∀ a w, callback a w = (Resolved (), w).

Definition silent_ui (uiUpdater : ExportUIUpdaters) : Prop :=
  silent (setExportProgress uiUpdater) ∧ silent (setExportStage uiUpdater)
  ∧ silent (setLastExportTime uiUpdater)
  ∧ silent (setPendingExports uiUpdater).

(** A sidecar on disk: a file holding a JSON text whose [title] is the
    export name. *)
Definition sidecar_titled (node : option Fs.node) (fileExportName : string)
    : Prop :=
  ∃ text v,
    node = Some (Fs.File text) ∧ JSON.parse text = Some v
    ∧ JSON.get "title" v = Some (JSON.JString fileExportName).
(** ** Journals of the declared type *)

(** The key of a collection as [toString()] writes it: the decimal
    numeral of an integer. *)
Definition canonical_number (key : string) : bool :=
  match Number_of_string key with
  | Some n => String.eqb (Number_toString n) key
  | None => false
  end.

(** An object of export names: every value is a string and every key
    passes [key_ok]. *)
Definition export_names (key_ok : string → bool) (x : JSON.value) : bool :=
  match x with
  | JSON.JObject entries =>
      forallb (λ '(key, name),
                 key_ok key
                 && match name with JSON.JString _ => true | _ => false end)
        entries
  | _ => false
  end.

(** The value of [JSON.parse] is a journal of the type [ExportRecord]
    declares: an object in which [fileExportNames], when present, is an
    object of strings and [collectionExportNames], when present, is an
    object of strings whose keys are collection ids as [toString()]
    writes them. (Other properties are not looked at.) *)
Definition journal_object (v : JSON.value) : bool :=
  match v with
  | JSON.JObject _ =>
      from_option (export_names (λ _, true)) true
        (JSON.get "fileExportNames" v)
      && from_option (export_names canonical_number) true
           (JSON.get "collectionExportNames" v)
  | _ => false
  end.

(** The journal file of [folder] exists and holds a journal of the
    declared type, which read as a record is [r]. *)
Definition journal_holds (folder : string) (w : Fs.World) (r : ExportRecord)
    : Prop :=
  ∃ text v,
    Fs.nodes w !! journalPath folder = Some (Fs.File text)
    ∧ JSON.parse text = Some v
    ∧ journal_object v = true
    ∧ record_of_json v = r.

(** Every key of [fileExportNames] is the UID of a file. *)
Definition file_keys_are_uids (exportRecord : ExportRecord) : Prop :=
  ∀ names fileUID exportName,
    fileExportNames exportRecord = Some names →
    names !! fileUID = Some exportName →
    ∃ file, fileUID = getExportRecordFileUID file.

(** * Concrete inputs *)

Definition file_2_in_1 : EnteFile :=
  {| EnteFile.id := 2; EnteFile.collectionID := 1; EnteFile.updationTime := 1;
     EnteFile.ownerID := 7;
     EnteFile.metadata :=
       {| Metadata.title := "b.jpg"; Metadata.creationTime := 0;
          Metadata.modificationTime := None; Metadata.latitude := None;
          Metadata.longitude := None; Metadata.fileType := IMAGE |};
     EnteFile.caption := None |}.

Definition file_1_in_1 : EnteFile :=
  {| EnteFile.id := 1; EnteFile.collectionID := 1; EnteFile.updationTime := 1;
     EnteFile.ownerID := 7;
     EnteFile.metadata :=
       {| Metadata.title := "a.jpg"; Metadata.creationTime := 0;
          Metadata.modificationTime := None; Metadata.latitude := None;
          Metadata.longitude := None; Metadata.fileType := IMAGE |};
     EnteFile.caption := None |}.


(** A collection whose directory was allocated as [Summer(1)]. *)
Definition summer : Collection :=
  {| Collection.id := 5; Collection.ownerID := 7; Collection.name := "Summer" |}.

(** A journal: one file exported from collection 5, directories recorded
    for the collections 5 and 6. *)
Definition journal_with_file_in_5 : ExportRecord :=
  {| version := Some 3; lastAttemptTimestamp := Some None;
     stage := Some ExportStage.TRASHING_DELETED_COLLECTIONS;
     fileExportNames := Some {[ "1_5_1" := "a.jpg" ]};
     collectionExportNames := Some (<[5 := "A"]> {[ 6 := "B" ]}) |}.

Definition reliable_environment (nodes : gmap string Fs.node) : Fs.World :=
  {| Fs.nodes := nodes; Fs.faults := λ _, None; Fs.tamper := λ _ nodes, nodes;
     Fs.clock := 0; Fs.trace := [] |}.

(** An export folder [/e] holding that journal and the two collection
    directories. *)
Definition folder_with_two_collections : Fs.World :=
  reliable_environment
    (<["/e" := Fs.Dir]>
       (<["/e/export_status.json" :=
            Fs.File (JSON.stringify2 (json_of_record journal_with_file_in_5))]>
          (<["/e/A" := Fs.Dir]>
             (<["/e/A/metadata" := Fs.Dir]>
                (<["/e/A/a.jpg" := Fs.File "bytes"]>
                   (<["/e/B" := Fs.Dir]> {[ "/e/B/metadata" := Fs.Dir ]})))))).

Definition never_cancelled : CancellationStatus := λ _, false.

(** An export folder whose journal file is not JSON. *)
Definition folder_with_broken_journal : Fs.World :=
  reliable_environment
    (<["/e" := Fs.Dir]> {[ "/e/export_status.json" := Fs.File "{oops" ]}).

(** The Trash of [/e] already holds [A/1.jpg] and [A/1(1).jpg]. *)
Definition folder_with_trashed_twice : Fs.World :=
  reliable_environment
    (<["/e" := Fs.Dir]>
       (<["/e/Trash/A/1.jpg" := Fs.File "old"]>
          {[ "/e/Trash/A/1(1).jpg" := Fs.File "older" ]})).

(** A live photo, and an export folder, with its journal, in which
    writing the video of the live photo fails. *)
Definition live_photo : LivePhoto :=
  {| image := "image bytes"; video := "video bytes";
     imageNameTitle := "LP.HEIC"; videoNameTitle := "LP.MOV" |}.

Definition live_photo_file : EnteFile :=
  {| EnteFile.id := 9; EnteFile.collectionID := 5; EnteFile.updationTime := 1;
     EnteFile.ownerID := 7;
     EnteFile.metadata :=
       {| Metadata.title := "LP"; Metadata.creationTime := 1700000000000000;
          Metadata.modificationTime := None; Metadata.latitude := None;
          Metadata.longitude := None; Metadata.fileType := LIVE_PHOTO |};
     EnteFile.caption := None |}.

Definition folder_with_failing_video_write : Fs.World :=
  {| Fs.nodes :=
       <["/e" := Fs.Dir]>
         (<["/e/export_status.json" :=
              Fs.File (JSON.stringify2 (json_of_record journal_with_file_in_5))]>
            {[ "/e/A" := Fs.Dir ]});
     Fs.faults := λ o,
       if decide (o = Fs.saveStreamToDisk "/e/A/LP.MOV") then Some "disk full"
       else None;
     Fs.tamper := λ _ nodes, nodes; Fs.clock := 0; Fs.trace := [] |}.

(** A run that awaits [postExport] after an export that was not
    cancelled. *)
Definition run_completing : Scheduler.State :=
  {| Scheduler.exportInProgress := Some 0%nat; Scheduler.reRunNeeded := false;
     Scheduler.runs :=
       [{| Scheduler.status := false;
           Scheduler.position_of := Scheduler.PostExportNatural |}];
     Scheduler.timers := 0; Scheduler.postExports := 1 |}.

(** * The claims that fail, as they are stated *)

(** The claim as it is stated: a collection that still has file entries
    makes the phase fail. *)
Definition CollectionNotEmpty_is_fatal
    (ids : list Z) (folder : string) (isCanceled : CancellationStatus)
    (w : Fs.World) : Prop :=
  ∀ r collectionID,
    journal_of folder w = Some r → collectionID ∈ ids →
    has_file_entry_for r collectionID →
    ∃ e w', collectionRemover ids folder isCanceled w = (Rejected e, w').


(** The claim as it is stated: at most one export run executes at a
    time, in every state the service reaches. *)
Definition at_most_one_run_executes : Prop :=
  ∀ s, reachable s → (length (Scheduler.exporting s) ≤ 1)%nat.
(** ** More concrete inputs *)

(** No export folder on disk. *)
Definition no_folder : Fs.World := reliable_environment ∅.

(** The export folder [/e] with its two collections, on a disk on which
    the journal file cannot be written. *)
Definition folder_with_failing_journal_write : Fs.World :=
  {| Fs.nodes := Fs.nodes folder_with_two_collections;
     Fs.faults := λ o,
       if decide (o = Fs.saveFileToDisk "/e/export_status.json")
       then Some "disk full" else None;
     Fs.tamper := λ _ nodes, nodes; Fs.clock := 0; Fs.trace := [] |}.

(** An export folder whose journal is the object without properties. *)
Definition folder_with_bare_journal : Fs.World :=
  reliable_environment
    (<["/e" := Fs.Dir]> {[ "/e/export_status.json" := Fs.File "{}" ]}).

(** An export folder with the journal above and the directory of one
    collection; the same on a disk on which the file [a.jpg] cannot be
    written. *)
Definition folder_with_one_directory : Fs.World :=
  reliable_environment
    (<["/e" := Fs.Dir]>
       (<["/e/export_status.json" :=
            Fs.File (JSON.stringify2 (json_of_record journal_with_file_in_5))]>
          {[ "/e/A" := Fs.Dir ]})).

Definition folder_with_failing_file_write : Fs.World :=
  {| Fs.nodes := Fs.nodes folder_with_one_directory;
     Fs.faults := λ o,
       if decide (o = Fs.saveStreamToDisk "/e/A/a.jpg") then Some "disk full"
       else None;
     Fs.tamper := λ _ nodes, nodes; Fs.clock := 0; Fs.trace := [] |}.

(** The export folder [/e] with its two collections, on a disk on which
    the directory [/e/B] cannot be deleted. *)
Definition folder_with_failing_directory_removal : Fs.World :=
  {| Fs.nodes := Fs.nodes folder_with_two_collections;
     Fs.faults := λ o,
       if decide (o = Fs.deleteFolder "/e/B") then Some "directory not empty"
       else None;
     Fs.tamper := λ _ nodes, nodes; Fs.clock := 0; Fs.trace := [] |}.

(** The file that the journal above records under [1_5_1]. *)
Definition file_1_in_5 : EnteFile :=
  {| EnteFile.id := 1; EnteFile.collectionID := 5; EnteFile.updationTime := 1;
     EnteFile.ownerID := 7;
     EnteFile.metadata :=
       {| Metadata.title := "a.jpg"; Metadata.creationTime := 0;
          Metadata.modificationTime := None; Metadata.latitude := None;
          Metadata.longitude := None; Metadata.fileType := IMAGE |};
     EnteFile.caption := None |}.

Definition cancelled : CancellationStatus := λ _, true.

(** * Properties *)

(** ** Splitting and decimal numerals *)

Lemma app_empty (b : string) : EmptyString +:+ b = b.
Proof. reflexivity. Qed.

Lemma app_String (c : ascii) (r b : string) :
  String c r +:+ b = String c (r +:+ b).
Proof. reflexivity. Qed.

Lemma app_empty_r (a : string) : a +:+ EmptyString = a.
Proof. induction a as [|c r IH]; [done|]. by rewrite app_String, IH. Qed.

Lemma app_assoc_s (a b c : string) : (a +:+ b) +:+ c = a +:+ (b +:+ c).
Proof. induction a as [|x r IH]; [done|]. by rewrite !app_String, IH. Qed.

Section split_facts.
Variable sep : ascii.

Lemma split_lacks (s : string) :
  Str.lacks sep s = true → Str.split sep s = [s].
Proof.
  induction s as [|c r IH]; [done|].
  cbn. intros [Hc Hr]%andb_prop.
  destruct (Ascii.eqb c sep); [done|].
  by rewrite (IH Hr).
Qed.

Lemma split_app_sep (a b : string) :
  Str.lacks sep a = true →
  Str.split sep (a +:+ String sep b) = a :: Str.split sep b.
Proof.
  induction a as [|c r IH].
  - intros _. rewrite app_empty. cbn. by rewrite Ascii.eqb_refl.
  - rewrite app_String. cbn. intros [Hc Hr]%andb_prop.
    destruct (Ascii.eqb c sep); [done|].
    by rewrite (IH Hr).
Qed.
End split_facts.

Lemma forallb_app (P : ascii → bool) (a b : string) :
  Str.forallb P (a +:+ b) = Str.forallb P a && Str.forallb P b.
Proof.
  induction a as [|c r IH]; [done|].
  rewrite app_String. cbn. by rewrite IH, andb_assoc.
Qed.

Lemma forallb_impl (P Q : ascii → bool) (s : string) :
  (∀ c, P c = true → Q c = true) →
  Str.forallb P s = true → Str.forallb Q s = true.
Proof.
  intros HPQ. induction s as [|c r IH]; [done|].
  cbn. intros [Hc Hr]%andb_prop. by rewrite (HPQ _ Hc), (IH Hr).
Qed.

Lemma string_of_uint_digits (d : uint) :
  Str.forallb Str.is_digit (NilEmpty.string_of_uint d) = true.
Proof. induction d; cbn; auto. Qed.

Lemma NilZero_string_of_uint_digits (d : uint) :
  Str.forallb Str.is_digit (NilZero.string_of_uint d) = true.
Proof. destruct d; try done; apply (string_of_uint_digits (_ _)). Qed.

Lemma digit_not_underscore (c : ascii) :
  Str.is_digit c = true → negb (Ascii.eqb c "_") = true.
Proof.
  destruct c as [[] [] [] [] [] [] [] []]; cbn; congruence.
Qed.

Lemma Number_toString_lacks_underscore (n : Z) :
  Str.lacks "_" (Number_toString n) = true.
Proof.
  unfold Number_toString, Str.lacks.
  destruct (Z.to_int n) as [d|d]; cbn -[NilZero.string_of_uint].
  - apply (forallb_impl Str.is_digit); [apply digit_not_underscore|].
    apply NilZero_string_of_uint_digits.
  - apply (forallb_impl Str.is_digit); [apply digit_not_underscore|].
    apply NilZero_string_of_uint_digits.
Qed.

Lemma to_int_not_nil (n : Z) : Z.to_int n ≠ Pos Nil ∧ Z.to_int n ≠ Neg Nil.
Proof.
  destruct n as [|p|p]; cbn; split; try discriminate;
    intros [= H]; by apply Unsigned.to_uint_nonnil in H.
Qed.

Lemma Number_toString_not_plus (n : Z) :
  ∀ r, Number_toString n ≠ String "+" r.
Proof.
  intros r H.
  assert (Hd : Str.forallb (λ c, Str.is_digit c || Ascii.eqb c "-")
                 (Number_toString n) = true).
  { unfold Number_toString. destruct (Z.to_int n) as [d|d]; cbn -[NilZero.string_of_uint].
    - eapply forallb_impl, NilZero_string_of_uint_digits. by intros c ->.
    - eapply forallb_impl, NilZero_string_of_uint_digits. by intros c ->. }
  rewrite H in Hd. discriminate.
Qed.

(** Printing an integer and reading it back gives the integer. *)
Lemma Number_of_string_toString (n : Z) :
  Number_of_string (Number_toString n) = Some n.
Proof.
  unfold Number_of_string.
  destruct (Number_toString n) as [|c r] eqn:E.
  - exfalso. unfold Number_toString in E.
    destruct (Z.to_int n) as [d|d] eqn:Ed; [|discriminate].
    destruct d; discriminate.
  - destruct (Ascii.eqb_spec c "+") as [->|_].
    + by apply Number_toString_not_plus in E.
    + rewrite <- E. unfold Number_toString.
      destruct (to_int_not_nil n) as [H1 H2].
      rewrite (NilZero.isi _ H1 H2). cbn. by rewrite DecimalZ.of_to.
Qed.

(** C8. UID roundtrip: for every file [f] with integer id, collection id
    and updation time, reading the collection id back from the UID
    ["{id}_{collectionID}_{updationTime}"] of [f] gives [f]'s collection
    id. *)
Theorem uid_roundtrip (f : EnteFile) :
  getExportRecordFileUID f
    = Number_toString (EnteFile.id f) +:+ "_"
        +:+ Number_toString (EnteFile.collectionID f) +:+ "_"
        +:+ Number_toString (EnteFile.updationTime f)
  ∧ getCollectionIDFromFileUID (getExportRecordFileUID f)
    = Some (EnteFile.collectionID f).
Proof.
  split; [done|].
  unfold getCollectionIDFromFileUID, getExportRecordFileUID.
  rewrite !app_String, !app_empty.
  rewrite (split_app_sep "_"), (split_app_sep "_")
    by apply Number_toString_lacks_underscore.
  cbn. apply Number_of_string_toString.
Qed.

(** ** The planner *)

Section planner_facts.
Variable getCollectionUserFacingName : Collection → string.

Lemma digits_close_open (x y : string) :
  NumberedSuffix.digits_close (x +:+ String "(" y) = false.
Proof.
  induction x as [|c r IH].
  - done.
  - rewrite app_String. cbn.
    destruct (Str.is_digit c); [done|].
    destruct r; rewrite ?app_empty, ?app_String; cbn; apply andb_false_r.
Qed.

Lemma matches_at_before (c : ascii) (r y : string) :
  NumberedSuffix.matches_at (String c (r +:+ String "(" y)) = false.
Proof.
  destruct r as [|d r].
  - rewrite app_empty. cbn. by rewrite andb_false_r.
  - rewrite app_String. cbn. rewrite digits_close_open. apply andb_false_r.
Qed.

Lemma digits_close_digits (k : string) :
  Str.forallb Str.is_digit k = true →
  NumberedSuffix.digits_close (k +:+ ")") = true.
Proof.
  induction k as [|c r IH]; [done|].
  rewrite app_String. cbn. intros [-> Hr]%andb_prop. auto.
Qed.

Lemma matches_at_suffix (k : string) :
  k ≠ EmptyString → Str.forallb Str.is_digit k = true →
  NumberedSuffix.matches_at (String "(" (k +:+ ")")) = true.
Proof.
  destruct k as [|d r]; [done|]. intros _.
  rewrite app_String. cbn. intros [-> Hr]%andb_prop.
  by apply digits_close_digits.
Qed.

Lemma replace_numbered (base name : string) :
  numbered base name →
  is_Some (NumberedSuffix.match_ name) ∧ NumberedSuffix.replace name = base.
Proof.
  intros (k & Hk & Hd & ->).
  rewrite !app_String, !app_empty.
  induction base as [|c r [IH1 IH2]].
  - rewrite app_empty.
    cbn [NumberedSuffix.match_ NumberedSuffix.replace].
    rewrite (matches_at_suffix k Hk Hd). eauto.
  - rewrite app_String.
    cbn [NumberedSuffix.match_ NumberedSuffix.replace].
    rewrite matches_at_before. split.
    + destruct IH1 as [n ->]. eauto.
    + by rewrite IH2.
Qed.

(** C4. Rename-suffix stability: a collection recorded in the journal
    whose recorded directory name, after stripping a trailing [(k)]
    suffix, equals its current user-facing name is not selected for
    rename. *)
Theorem rename_suffix_stability
    (collections : list Collection) (exportRecord : ExportRecord)
    (names : gmap Z string) (c : Collection) (recordedName : string) :
  collectionExportNames exportRecord = Some names →
  names !! Collection.id c = Some recordedName →
  stripped recordedName (getCollectionUserFacingName c) →
  c ∉ getRenamedExportedCollections getCollectionUserFacingName
        collections exportRecord.
Proof.
  intros Hnames Hrec Hstrip Hin.
  unfold getRenamedExportedCollections in Hin. rewrite Hnames in Hin.
  apply list_elem_of_In, filter_In in Hin as [_ Hin].
  cbn in Hin. rewrite Hrec in Hin.
  destruct (String.eqb_spec recordedName (getCollectionUserFacingName c))
    as [|Hne]; [done|].
  destruct Hstrip as [Hnum|[? _]]; [|done].
  apply replace_numbered in Hnum as [[n Hm] Hr].
  rewrite Hm, Hr, String.eqb_refl in Hin. done.
Qed.
End planner_facts.

(** FilesToExport: the files of the input list that have no journal
    entry, in the order of the input list. *)
Lemma getUnExportedFiles_filter
    (personalFiles : list EnteFile) (exportRecord : ExportRecord) :
  getUnExportedFiles personalFiles exportRecord
  = filter (λ f, ¬ recorded_file exportRecord (getExportRecordFileUID f))
      personalFiles.
Proof.
  unfold getUnExportedFiles.
  destruct (fileExportNames exportRecord) as [names|] eqn:E.
  - induction personalFiles as [|f fs IH]; [done|].
    cbn [List.filter]. rewrite filter_cons, IH.
    destruct (decide (getExportRecordFileUID f ∈ dom names)) as [Hd|Hd].
    + rewrite bool_decide_true by done. cbn.
      rewrite decide_False; [done|].
      intros Hn. apply Hn. apply elem_of_dom in Hd as [n Hn'].
      exists names, n. done.
    + rewrite bool_decide_false by done. cbn.
      rewrite decide_True; [done|].
      intros (names' & n & Hn1 & Hn2). apply Hd.
      rewrite E in Hn1. injection Hn1 as <-. apply elem_of_dom. eauto.
  - induction personalFiles as [|f fs IH]; [done|].
    rewrite filter_cons, <- IH. rewrite decide_True; [done|].
    intros (names' & n & Hn1 & _). congruence.
Qed.

(** C3 (as amended). For every inventory snapshot and journal, the
    planner's FilesToExport list consists of exactly those personal files
    whose UID is not a key of the journal's [fileExportNames]; the list
    keeps the order (and the repetitions) of the list of personal files
    it is given: no sort is applied. *)
Theorem FilesToExport_exact_in_input_order
    (personalFiles : list EnteFile) (exportRecord : ExportRecord) :
  let filesToExport := getUnExportedFiles personalFiles exportRecord in
  (∀ f, f ∈ filesToExport ↔
        f ∈ personalFiles
        ∧ ¬ recorded_file exportRecord (getExportRecordFileUID f))
  ∧ filesToExport `sublist_of` personalFiles
  ∧ filesToExport
    = filter (λ f, ¬ recorded_file exportRecord (getExportRecordFileUID f))
        personalFiles.
Proof.
  cbn. rewrite getUnExportedFiles_filter. split_and!.
  - intros f. rewrite list_elem_of_filter. tauto.
  - apply sublist_filter.
  - done.
Qed.

(** With an empty journal and the personal files given as [id 2, id 1]
    (same collection), the planner returns them in that order, which is
    not the order [(collection_id, id)]. *)
Lemma FilesToExport_not_sorted :
  getUnExportedFiles [file_2_in_1; file_1_in_1] NULL_EXPORT_RECORD
  = [file_2_in_1; file_1_in_1]
  ∧ ¬ FilesToExport_stated [file_2_in_1; file_1_in_1] NULL_EXPORT_RECORD
        (getUnExportedFiles [file_2_in_1; file_1_in_1] NULL_EXPORT_RECORD).
Proof.
  assert (E : getUnExportedFiles [file_2_in_1; file_1_in_1] NULL_EXPORT_RECORD
              = [file_2_in_1; file_1_in_1]) by (vm_compute; reflexivity).
  split; [exact E|]. rewrite E. intros [_ Hsorted].
  apply StronglySorted_inv in Hsorted as [_ Hall].
  apply Forall_cons in Hall as [Hle _].
  unfold collection_id_le in Hle. cbn in Hle. lia.
Qed.

(** The collection [Summer], recorded as [Summer(1)], is not renamed. *)
Lemma rename_suffix_stability_witness :
  summer ∉ getRenamedExportedCollections Collection.name [summer]
             {| version := Some 3; lastAttemptTimestamp := Some None;
                stage := Some 0; fileExportNames := Some ∅;
                collectionExportNames := Some {[ 5 := "Summer(1)" ]} |}.
Proof.
  apply (rename_suffix_stability Collection.name [summer] _
           {[ 5 := "Summer(1)" ]} summer "Summer(1)").
  - reflexivity.
  - reflexivity.
  - left. exists "1". split; [discriminate|]. split; reflexivity.
Defined.


(** ** JSON: what is written is read back *)

Module JSONFacts.
Import JSON JSONAux.

Lemma length_app (a b : string) :
  String.length (a +:+ b) = (String.length a + String.length b)%nat.
Proof.
  induction a as [|c r IH]; [done|]. rewrite app_String. cbn. by rewrite IH.
Qed.

Lemma skip_ws_app (a s : string) :
  all_ws a → skip_ws (a +:+ s) = skip_ws s.
Proof.
  unfold all_ws. induction a as [|c r IH]; [done|].
  rewrite app_String. cbn. intros [-> Hr]%andb_prop. auto.
Qed.

Lemma skip_ws_idemp (s : string) : skip_ws (skip_ws s) = skip_ws s.
Proof.
  induction s as [|c r IH]; [done|].
  cbn. destruct (is_ws c) eqn:E; [done|]. cbn. by rewrite E.
Qed.

Lemma all_ws_app (a b : string) : all_ws a → all_ws b → all_ws (a +:+ b).
Proof. unfold all_ws. intros Ha Hb. by rewrite forallb_app, Ha, Hb. Qed.

Lemma delimited_skip_ws (s : string) :
  delimited s →
  skip_ws s = EmptyString ∨ ∃ c r, skip_ws s = String c r ∧ is_ws c = false.
Proof.
  induction s as [|c r IH]; [by left|]. intros _. cbn.
  destruct (is_ws c) eqn:E.
  - clear IH. induction r as [|d r IH]; [by left|].
    cbn. destruct (is_ws d) eqn:E'; [done|]. right. eauto.
  - right. eauto.
Qed.

(** *** Strings *)

Lemma parse_chars_escape_char (c : ascii) (t : string) :
  parse_chars (escape_char c +:+ t)
  = '(x, rest) ← parse_chars t; Some (String c x, rest).
Proof.
  destruct c as [[] [] [] [] [] [] [] []];
    vm_compute (escape_char _); rewrite ?app_String, ?app_empty; cbn;
    reflexivity.
Qed.

Lemma parse_chars_escape (s rest : string) :
  parse_chars (escape s +:+ String "034" rest) = Some (s, rest).
Proof.
  induction s as [|c r IH]; [done|].
  cbn [escape]. by rewrite app_assoc_s, parse_chars_escape_char, IH.
Qed.

(** *** Numbers *)

Lemma span_digits_app (ds rest : string) :
  Str.forallb Str.is_digit ds = true →
  match rest with
  | EmptyString => True
  | String c _ => Str.is_digit c = false
  end →
  span_digits (ds +:+ rest) = (ds, rest).
Proof.
  intros Hds Hrest. induction ds as [|c r IH].
  - rewrite app_empty. destruct rest as [|c r]; [done|]. cbn. by rewrite Hrest.
  - rewrite app_String. cbn in *. apply andb_prop in Hds as [-> Hr].
    by rewrite (IH Hr).
Qed.

Lemma nzhead_head (d : uint) :
  match nzhead d with D0 _ => False | _ => True end.
Proof. induction d; done. Qed.

Lemma to_uint_no_leading_zero (p : positive) :
  match Pos.to_uint p with D0 _ | Nil => False | _ => True end.
Proof.
  pose proof (Unsigned.to_of (Pos.to_uint p)) as H.
  rewrite Unsigned.of_to in H. cbn in H.
  pose proof (nzhead_head (Pos.to_uint p)) as Hn.
  pose proof (Unsigned.to_uint_nonzero p) as Hz.
  unfold unorm in H. destruct (nzhead (Pos.to_uint p)); rewrite H; try done.
Qed.

Lemma numeral_pos (p : positive) :
  numeral (NilEmpty.string_of_uint (Pos.to_uint p)) (Z.pos p).
Proof.
  split_and!.
  - apply string_of_uint_digits.
  - pose proof (to_uint_no_leading_zero p) as H.
    destruct (Pos.to_uint p); try done; cbn; eauto.
  - unfold digits_value. rewrite NilEmpty.usu. cbn.
    unfold Z.of_uint. by rewrite Unsigned.of_to.
Qed.

Lemma Number_toString_numeral (n : Z) :
  ∃ ds, numeral ds (Z.abs n)
        ∧ Number_toString n = if n <? 0 then String "-" ds else ds.
Proof.
  destruct n as [|p|p].
  - exists "0". split; [|done]. split_and!; [done| |done]. by exists "0"%char, EmptyString.
  - exists (NilEmpty.string_of_uint (Pos.to_uint p)).
    split; [apply numeral_pos|].
    unfold Number_toString. cbn.
    pose proof (Unsigned.to_uint_nonnil p). by destruct (Pos.to_uint p).
  - exists (NilEmpty.string_of_uint (Pos.to_uint p)).
    split; [apply numeral_pos|].
    unfold Number_toString. cbn.
    pose proof (Unsigned.to_uint_nonnil p). by destruct (Pos.to_uint p).
Qed.

Lemma digit_facts (c : ascii) :
  Str.is_digit c = true →
  is_ws c = false ∧ Ascii.eqb c "-" = false ∧ Ascii.eqb c "+" = false
  ∧ Ascii.eqb c "." = false ∧ Ascii.eqb c "e" = false
  ∧ Ascii.eqb c "E" = false ∧ Ascii.eqb c "{" = false
  ∧ Ascii.eqb c "[" = false ∧ Ascii.eqb c "034" = false
  ∧ Ascii.eqb c "n" = false ∧ Ascii.eqb c "t" = false
  ∧ Ascii.eqb c "f" = false.
Proof.
  destruct c as [[] [] [] [] [] [] [] []]; cbn; intros; try discriminate;
    repeat split.
Qed.

Lemma delimited_facts (c : ascii) (r : string) :
  delimited (String c r) →
  Str.is_digit c = false ∧ Ascii.eqb c "." = false
  ∧ Ascii.eqb c "e" = false ∧ Ascii.eqb c "E" = false.
Proof. intros [-> | [-> | [-> | ->]]]; done. Qed.


Lemma strip_sign (n : Z) (ds rest : string) :
  numeral ds (Z.abs n) →
  Str.strip_char "-" ((if n <? 0 then String "-" ds else ds) +:+ rest)
  = if n <? 0 then Some (ds +:+ rest) else None.
Proof.
  intros (Hd & (c & r & -> & _) & _).
  destruct (n <? 0); [done|].
  rewrite app_String. cbn in *. apply andb_prop in Hd as [Hc _].
  apply digit_facts in Hc. by destruct Hc as (_ & -> & _).
Qed.

Lemma strip_plus (ds rest : string) (n : Z) :
  numeral ds n → Str.strip_char "+" (ds +:+ rest) = None.
Proof.
  intros (Hd & (c & r & -> & _) & _).
  rewrite app_String. cbn in *. apply andb_prop in Hd as [Hc _].
  apply digit_facts in Hc. by destruct Hc as (_ & _ & -> & _).
Qed.

Lemma signed_abs (n : Z) : (if n <? 0 then - Z.abs n else Z.abs n) = n.
Proof. destruct (Z.ltb_spec n 0); lia. Qed.

Lemma parse_int_numeral (ds rest : string) (n : Z) :
  numeral ds n → nondigit_head rest →
  parse_int (ds +:+ rest) = Some (ds, rest).
Proof.
  intros (Hd & (c & r & -> & Hlead) & _) Hrest. unfold parse_int.
  rewrite span_digits_app by done. by rewrite Hlead.
Qed.

Lemma parse_fraction_none (rest : string) :
  delimited rest → parse_fraction rest = Some (EmptyString, rest).
Proof.
  destruct rest as [|c r]; [done|].
  intros (_ & H & _)%delimited_facts. unfold parse_fraction. cbn. by rewrite H.
Qed.

Lemma parse_exponent_none (rest : string) :
  delimited rest → parse_exponent rest = Some (0, rest).
Proof.
  destruct rest as [|c r]; [done|].
  intros (_ & _ & H1 & H2)%delimited_facts. cbn. by rewrite H1, H2.
Qed.

Lemma parse_exponent_text (e : Z) (rest : string) :
  delimited rest →
  parse_exponent (String "e" (Number_toString e +:+ rest)) = Some (e, rest).
Proof.
  intros Hrest.
  destruct (Number_toString_numeral e) as (ds & Hds & ->).
  assert (nondigit_head rest).
  { destruct rest; [done|]. by apply delimited_facts in Hrest as [? _]. }
  pose proof Hds as (Hdig & (c & r & Eds & _) & Hval).
  cbn [parse_exponent Ascii.eqb Bool.eqb orb].
  rewrite strip_sign by done.
  pose proof (signed_abs e) as Hs.
  destruct (e <? 0).
  - cbn [Str.strip_char Ascii.eqb Bool.eqb]. rewrite app_String. cbn [Str.strip_char Ascii.eqb Bool.eqb].
    rewrite span_digits_app by done. rewrite Eds at 1. cbn [String.eqb].
    rewrite Hval. do 2 f_equal. lia.
  - rewrite (strip_plus _ _ _ Hds).
    rewrite span_digits_app by done. rewrite Eds at 1. cbn [String.eqb].
    rewrite Hval. do 2 f_equal. lia.
Qed.

Lemma parse_number_text (m e : Z) (rest : string) :
  delimited rest →
  parse_number (number_text m e +:+ rest) = Some (JNumber m e, rest).
Proof.
  intros Hrest.
  destruct (Number_toString_numeral m) as (ds & Hds & Em).
  pose proof Hds as (_ & _ & Hval).
  assert (nondigit_head rest).
  { destruct rest; [done|]. by apply delimited_facts in Hrest as [? _]. }
  pose proof (signed_abs m) as Hs.
  unfold number_text, parse_number.
  destruct (Z.eqb_spec e 0) as [->|He].
  - rewrite Em, strip_sign by done.
    destruct (m <? 0);
      rewrite (parse_int_numeral _ _ _ Hds) by done; cbn;
      rewrite parse_fraction_none by done; cbn;
      rewrite parse_exponent_none by done; cbn;
      rewrite app_empty_r, Hval; by rewrite Hs.
  - rewrite !app_assoc_s, app_String, app_empty, Em, strip_sign by done.
    destruct (m <? 0);
      rewrite (parse_int_numeral _ _ _ Hds) by done; cbn -[parse_exponent];
      rewrite parse_exponent_text by done; cbn;
      rewrite app_empty_r, Hval, Z.sub_0_r; by rewrite Hs.
Qed.


Lemma value_ind' (P : value → Prop) :
  P JNull → (∀ b, P (JBool b)) → (∀ m e, P (JNumber m e)) →
  (∀ s, P (JString s)) →
  (∀ vs, Forall P vs → P (JArray vs)) →
  (∀ ms, Forall (λ kv, P kv.2) ms → P (JObject ms)) →
  ∀ v, P v.
Proof.
  intros HN HB HNum HS HA HO. fix IH 1.
  intros [|b|m e|s|vs|ms];
    [exact HN | exact (HB b) | exact (HNum m e) | exact (HS s) | |].
  - apply HA. induction vs as [|v vs IHvs]; constructor; [apply IH|exact IHvs].
  - apply HO. induction ms as [|[k v] ms IHms]; constructor;
      [apply IH|exact IHms].
Qed.

Lemma skip_ws_starts_value (a s : string) :
  all_ws a → starts_value s → skip_ws (a +:+ s) = s.
Proof.
  intros Ha (c & r & -> & Hc & _). rewrite skip_ws_app by done.
  cbn. by rewrite Hc.
Qed.

Lemma parse_value_skip (fuel : nat) (s : string) :
  parse_value fuel (skip_ws s) = parse_value fuel s.
Proof. destruct fuel; [done|]. cbn. by rewrite skip_ws_idemp. Qed.

Lemma parse_value_ws (fuel : nat) (a s : string) :
  all_ws a → parse_value fuel (a +:+ s) = parse_value fuel s.
Proof.
  intros Ha. by rewrite <- parse_value_skip, skip_ws_app, parse_value_skip.
Qed.

Lemma parse_value_number (fuel : nat) (c : ascii) (r : string) :
  Str.is_digit c = true ∨ c = "-"%char →
  parse_value (S fuel) (String c r) = parse_number (String c r).
Proof.
  intros [H| ->]; [|done].
  destruct c as [[] [] [] [] [] [] [] []]; try discriminate H; reflexivity.
Qed.

Lemma number_text_head (m e : Z) :
  ∃ c r, number_text m e = String c r ∧ (Str.is_digit c = true ∨ c = "-"%char).
Proof.
  destruct (Number_toString_numeral m) as (ds & (Hd & (c & r & -> & _) & _) & Em).
  cbn in Hd. apply andb_prop in Hd as [Hc _].
  unfold number_text. rewrite Em.
  destruct (e =? 0), (m <? 0); rewrite ?app_String; eauto.
Qed.

Lemma join_cons (sep a b : string) (l : list string) :
  join sep (a :: b :: l) = a +:+ sep +:+ join sep (b :: l).
Proof. reflexivity. Qed.

Lemma list_sum_cons (a : nat) (l : list nat) :
  list_sum (a :: l) = (a + list_sum l)%nat.
Proof. reflexivity. Qed.

Ltac sum_lia :=
  cbn [List.map] in *; rewrite ?list_sum_cons in *; cbn [list_sum foldr] in *; lia.

Lemma join_starts (sep p : string) (ps : list string) (rest : string) :
  (∀ rest, starts_value (p +:+ rest)) →
  starts_value (join sep (p :: ps) +:+ rest).
Proof.
  intros Hp. destruct ps as [|q ps]; [apply Hp|].
  rewrite join_cons, app_assoc_s. apply Hp.
Qed.

Lemma strip_close_starts (a s : string) :
  all_ws a → starts_value s →
  Str.strip_char "]" (skip_ws (a +:+ s)) = None
  ∧ Str.strip_char "}" (skip_ws (a +:+ s)) = None.
Proof.
  intros Ha Hs. rewrite skip_ws_starts_value by done.
  destruct Hs as (c & r & -> & _ & H1 & H2 & _). cbn. by rewrite H1, H2.
Qed.

Section roundtrip.
Variable gap : string.
Hypothesis Hgap : all_ws gap.

Lemma all_ws_line (indent : string) : all_ws indent → all_ws (line gap indent).
Proof. intros H. unfold line. by destruct (String.eqb gap EmptyString). Qed.

Lemma serialize_starts (indent rest : string) (v : value) :
  starts_value (serialize gap indent v +:+ rest).
Proof.
  unfold starts_value.
  destruct v as [|[]|m e|s|vs|ms]; cbn [serialize];
    rewrite ?app_String; try (do 2 eexists; split; [done|done]).
  - destruct (number_text_head m e) as (c & r & -> & Hc).
    rewrite app_String. do 2 eexists. split; [done|].
    destruct Hc as [Hc| ->]; [|done].
    destruct c as [[] [] [] [] [] [] [] []]; try discriminate Hc; done.
  - unfold wrap. destruct (List.map _ vs);
      rewrite ?app_String; do 2 eexists; split; done.
  - unfold wrap. destruct (List.map _ ms);
      rewrite ?app_String; do 2 eexists; split; done.
Qed.

Lemma colon_shape : ∃ sp, all_ws sp ∧ colon gap = String ":" sp.
Proof.
  unfold colon. destruct (String.eqb gap EmptyString); [by exists EmptyString|by exists " "].
Qed.

Lemma delimited_line (indent s : string) :
  delimited s → s ≠ EmptyString → delimited (line gap indent +:+ s).
Proof.
  intros Hs Hne. unfold line. destruct (String.eqb gap EmptyString).
  - done.
  - rewrite app_String. cbn. auto.
Qed.

Lemma parse_elements_join (vs : list value) :
  vs ≠ [] → Forall (reads_back gap) vs →
  ∀ indent stepback rest fuel,
    all_ws indent → all_ws stepback →
    (list_sum (List.map (λ x, S (size x)) vs) ≤ fuel)%nat →
    parse_elements fuel
      (line gap indent
         +:+ join (String "," (line gap indent))
               (List.map (serialize gap indent) vs)
         +:+ line gap stepback +:+ String "]" rest)
    = Some (vs, rest).
Proof.
  induction vs as [|v vs IH]; [done|]. intros _ HF.
  apply Forall_cons in HF as [Hv HF].
  intros indent stepback rest [|fuel] Hi Hs Hfuel; [sum_lia|].
  cbn [parse_elements]. rewrite parse_value_ws by by apply all_ws_line.
  destruct vs as [|v' vs'].
  - cbn [List.map join].
    rewrite Hv; [|done| |sum_lia].
    2:{ apply delimited_line; [cbn; auto|done]. }
    cbn [mbind option_bind].
    rewrite skip_ws_app by by apply all_ws_line. done.
  - cbn [List.map]. cbn [List.map] in IH. rewrite join_cons.
    rewrite !app_assoc_s, app_String.
    rewrite Hv; [|done|cbn; auto|]. 2:{ sum_lia. }
    cbn [mbind option_bind skip_ws is_ws Str.strip_char Ascii.eqb Bool.eqb].
    rewrite (IH ltac:(done) HF indent stepback rest fuel) by (done || sum_lia).
    done.
Qed.

Lemma parse_members_step (k : string) (v : value)
    (indent rest : string) (fuel : nat) :
  reads_back gap v → all_ws indent → delimited rest → (size v ≤ fuel)%nat →
  parse_members (S fuel)
    (line gap indent
       +:+ (quote k +:+ colon gap +:+ serialize gap indent v) +:+ rest)
  = match Str.strip_char "," (skip_ws rest),
          Str.strip_char "}" (skip_ws rest) with
    | Some r, _ =>
        '(ms, rest') ← parse_members fuel r; Some ((k, v) :: ms, rest')
    | None, Some r => Some ([(k, v)], r)
    | None, None => None
    end.
Proof.
  destruct colon_shape as (sp & Hsp & Ecolon).
  intros Hv Hi Hrest Hfuel.
  cbn [parse_members]. unfold quote.
  rewrite Ecolon, !app_assoc_s, !app_String, !app_assoc_s.
  rewrite skip_ws_app by by apply all_ws_line.
  cbn [mbind option_bind skip_ws is_ws Str.strip_char Ascii.eqb Bool.eqb].
  rewrite app_String, app_empty, parse_chars_escape.
  cbn [mbind option_bind skip_ws is_ws Str.strip_char Ascii.eqb Bool.eqb].
  rewrite parse_value_ws by done.
  by rewrite Hv.
Qed.

Lemma parse_members_join (ms : list (string * value)) :
  ms ≠ [] → Forall (λ kv, reads_back gap kv.2) ms →
  ∀ indent stepback rest fuel,
    all_ws indent → all_ws stepback →
    (list_sum (List.map (λ '(_, x), S (size x)) ms) ≤ fuel)%nat →
    parse_members fuel
      (line gap indent
         +:+ join (String "," (line gap indent))
               (List.map (λ '(k, x),
                  quote k +:+ colon gap +:+ serialize gap indent x) ms)
         +:+ line gap stepback +:+ String "}" rest)
    = Some (ms, rest).
Proof.
  induction ms as [|[k v] ms IH]; [done|]. intros _ HF.
  apply Forall_cons in HF as [Hv HF]. cbn [snd] in Hv.
  intros indent stepback rest [|fuel] Hi Hs Hfuel; [sum_lia|].
  destruct ms as [|[k' v'] ms'].
  - cbn [List.map join].
    rewrite parse_members_step; [|done|done| |sum_lia].
    2:{ apply delimited_line; [cbn; auto|done]. }
    rewrite skip_ws_app by by apply all_ws_line. done.
  - cbn [List.map]. cbn [List.map] in IH. rewrite join_cons.
    remember (quote k +:+ colon gap +:+ serialize gap indent v) as m eqn:Em.
    remember (join _ (_ :: _)) as tl eqn:Etl.
    rewrite (app_assoc_s m), (app_assoc_s (String _ _)), app_String.
    subst m.
    rewrite parse_members_step; [|done|done|cbn; auto|sum_lia].
    cbn [skip_ws is_ws Str.strip_char Ascii.eqb Bool.eqb].
    subst tl.
    rewrite (IH ltac:(done) HF indent stepback rest fuel) by (done || sum_lia).
    done.
Qed.

Theorem parse_serialize (v : value) : reads_back gap v.
Proof.

  induction v as [|b|m e|s|vs IH|ms IH] using value_ind';
    intros indent rest [|fuel] Hi Hrest Hfuel;
    try (cbn in Hfuel; lia).
  - cbn [serialize]. rewrite !app_String, app_empty. cbn.
    unfold parse_literal. cbn. by destruct rest.
  - destruct b; cbn [serialize]; rewrite !app_String, app_empty; cbn;
      unfold parse_literal; cbn; by destruct rest.
  - destruct (number_text_head m e) as (c & r & E & Hc).
    cbn [serialize]. rewrite E, app_String.
    rewrite parse_value_number by done.
    rewrite <- app_String, <- E. by apply parse_number_text.
  - cbn [serialize]. unfold quote. rewrite app_String, app_assoc_s.
    cbn [parse_value skip_ws is_ws Ascii.eqb Bool.eqb].
    rewrite app_String, app_empty, parse_chars_escape. done.
  - cbn [serialize]. unfold wrap.
    destruct vs as [|v vs]; [done|].
    remember (v :: vs) as l eqn:El.
    assert (Hl : l ≠ []) by by subst.
    destruct (List.map _ l) as [|p ps] eqn:Emap; [by subst|].
    rewrite <- Emap. clear Emap p ps.
    rewrite !app_assoc_s, !app_String, !app_empty.
    cbn [parse_value skip_ws is_ws Ascii.eqb Bool.eqb].
    assert (Hi' : all_ws (indent +:+ gap)) by by apply all_ws_app.
    destruct (strip_close_starts (line gap (indent +:+ gap))
      (join (String "," (line gap (indent +:+ gap)))
         (List.map (serialize gap (indent +:+ gap)) l)
       +:+ line gap indent +:+ String "]" rest)) as [-> _].
    { by apply all_ws_line. }
    { subst l. cbn [List.map]. apply join_starts.
      intros. apply serialize_starts. }
    rewrite parse_elements_join; [done..|]. cbn in Hfuel. lia.
  - cbn [serialize]. unfold wrap.
    destruct ms as [|kv ms]; [done|].
    remember (kv :: ms) as l eqn:El.
    assert (Hl : l ≠ []) by by subst.
    destruct (List.map _ l) as [|p ps] eqn:Emap; [by subst|].
    rewrite <- Emap. clear Emap p ps.
    rewrite !app_assoc_s, !(app_String "{"), !app_empty.
    cbn [parse_value skip_ws is_ws Ascii.eqb Bool.eqb].
    assert (Hi' : all_ws (indent +:+ gap)) by by apply all_ws_app.
    rewrite (app_String "}"), app_empty.
    destruct (strip_close_starts (line gap (indent +:+ gap))
      (join ("," +:+ line gap (indent +:+ gap))
         (List.map (λ '(k, x),
            quote k +:+ colon gap +:+ serialize gap (indent +:+ gap) x) l)
       +:+ line gap indent +:+ String "}" rest)) as [_ ->].
    { by apply all_ws_line. }
    { subst l. destruct kv as [k v]. cbn [List.map]. apply join_starts.
      intros. unfold quote. rewrite app_String.
      do 2 eexists. split; done. }
    rewrite (app_String ","), app_empty.
    rewrite parse_members_join; [done..|]. cbn in Hfuel. lia.
Qed.
Lemma join_length (sep : string) (parts : list string) :
  (1 ≤ String.length sep)%nat →
  (list_sum (List.map (λ p, S (String.length p)) parts)
   ≤ S (String.length (join sep parts)))%nat.
Proof.
  intros Hsep. induction parts as [|p ps IH]; [cbn; lia|].
  destruct ps as [|q ps]; [cbn; lia|].
  rewrite join_cons, !length_app.
  cbn [List.map] in *. rewrite !list_sum_cons in *. lia.
Qed.

Lemma list_sum_le {A} (f g : A → nat) (l : list A) :
  Forall (λ x, f x ≤ g x)%nat l →
  (list_sum (List.map f l) ≤ list_sum (List.map g l))%nat.
Proof.
  induction 1; cbn [List.map]; rewrite ?list_sum_cons; [done|lia].
Qed.

Lemma wrap_length (stepback indent open close : string)
    (partial : list string) :
  (1 ≤ String.length open)%nat → (1 ≤ String.length close)%nat →
  (S (list_sum (List.map (λ p, S (String.length p)) partial))
   ≤ String.length (wrap gap stepback indent open close partial))%nat.
Proof.
  intros Ho Hc. unfold wrap. destruct partial as [|p ps].
  - rewrite length_app. cbn. lia.
  - pose proof (join_length ("," +:+ line gap indent) (p :: ps)) as H.
    rewrite !length_app in *. cbn [String.length] in H.
    specialize (H ltac:(lia)). lia.
Qed.

Lemma size_le_length (v : value) :
  ∀ indent, (size v ≤ String.length (serialize gap indent v))%nat.
Proof.
  induction v as [|b|m e|s|vs IH|ms IH] using value_ind'; intros indent.
  - cbn. lia.
  - destruct b; cbn; lia.
  - destruct (number_text_head m e) as (c & r & E & _).
    cbn [serialize size]. rewrite E. cbn. lia.
  - cbn. lia.
  - cbn [serialize size].
    etrans; [|apply wrap_length; cbn; lia].
    apply le_n_S. rewrite map_map.
    apply list_sum_le. eapply Forall_impl; [exact IH|].
    intros v Hv. cbn. apply le_n_S, Hv.
  - cbn [serialize size].
    etrans; [|apply wrap_length; cbn; lia].
    apply le_n_S. rewrite map_map.
    apply list_sum_le. eapply Forall_impl; [exact IH|].
    intros [k v] Hv. cbn [snd] in Hv. rewrite !length_app.
    specialize (Hv (indent +:+ gap)). lia.
Qed.

(** Reading the text [serialize] writes for a value gives the value. *)
Theorem parse_serialize_top (v : value) :
  parse (serialize gap EmptyString v) = Some v.
Proof.
  unfold parse.
  pose proof (parse_serialize v EmptyString EmptyString
                (S (String.length (serialize gap EmptyString v))))
    as H.
  rewrite app_empty_r in H. rewrite H; [done..|].
  pose proof (size_le_length v EmptyString). lia.
Qed.
End roundtrip.

Corollary parse_stringify (v : value) : parse (stringify v) = Some v.
Proof. by apply parse_serialize_top. Qed.

Corollary parse_stringify2 (v : value) : parse (stringify2 v) = Some v.
Proof. by apply parse_serialize_top. Qed.
End JSONFacts.

(** ** The journal file: what is saved is loaded back *)

Module CodecFacts.
Import JSON JSONAux JSONFacts.


Section names.
Context `{Countable K}.
Variable enc : K → string.
Variable key : string → option K.
Hypothesis key_enc : ∀ k, key (enc k) = Some k.

Lemma names_fold (l : list (K * string)) (acc : gmap K string) :
  fold_left (λ acc '(k, x),
      match key k, JSON.to_string x with
      | Some k, Some name => <[k := name]> acc
      | _, _ => acc
      end)
    ((λ '(k, name), (enc k, JString name)) <$> l) acc
  = foldr (λ p, <[p.1 := p.2]>) acc (reverse l).
Proof.
  revert acc. induction l as [|[k name] l IH]; intros acc; [done|].
  cbn [fmap list_fmap fold_left]. rewrite key_enc. cbn [to_string].
  rewrite IH, reverse_cons, foldr_app. done.
Qed.

Lemma names_of_json_of_names (m : gmap K string) :
  names_of_json key (json_of_names enc (map_to_list m)) = Some m.
Proof.
  unfold names_of_json, json_of_names. f_equal.
  rewrite names_fold.
  change (foldr _ ∅ ?l) with (list_to_map (M := gmap K string) l).
  rewrite <- (list_to_map_to_list m) at 2.
  apply list_to_map_proper.
  - rewrite fmap_reverse, reverse_Permutation. apply NoDup_fst_map_to_list.
  - apply reverse_Permutation.
Qed.
End names.

Lemma record_of_json_of_record (r : ExportRecord) :
  record_of_json (json_of_record r) = r.
Proof.
  destruct r as [v t s f c].
  unfold record_of_json, json_of_record.
  assert (Hf : ∀ m, names_of_json Some (json_of_names (λ uid, uid) (map_to_list m)) = Some m)
    by (intros; by apply names_of_json_of_names).
  assert (Hc : ∀ m : gmap Z string, names_of_json Number_of_string
                  (json_of_names Number_toString (map_to_list m)) = Some m)
    by (intros; apply names_of_json_of_names, Number_of_string_toString).
  destruct v as [v|], t as [[t|]|], s as [s|], f as [f|], c as [c|];
    cbn -[names_of_json json_of_names]; rewrite ?Hf, ?Hc, ?Z.mul_1_r; reflexivity.
Qed.

Lemma journal_text_read_back (r : ExportRecord) :
  record_of_json <$> JSON.parse (JSON.stringify2 (json_of_record r)) = Some r.
Proof. by rewrite parse_stringify2; cbn; rewrite record_of_json_of_record. Qed.
End CodecFacts.

(** ** The journal operations of the service *)

Module ServiceFacts.
Import CodecFacts.

Lemma bind_run {A B} (m : Async A) (k : A → Async B) (w : Fs.World) :
  (m ≫= k) w
  = match m w with
    | (Resolved a, w') => k a w'
    | (Rejected e, w') => (Rejected e, w')
    | (OutOfFuel, w') => (OutOfFuel, w')
    end.
Proof. reflexivity. Qed.

Lemma try_catch_run {A} (m : Async A) (h : Error → Async A) (w : Fs.World) :
  Async.try_catch m h w
  = match m w with
    | (Rejected e, w') => h e w'
    | r => r
    end.
Proof. reflexivity. Qed.

Lemma length_app_s (a b : string) :
  String.length (a +:+ b) = (String.length a + String.length b)%nat.
Proof. apply JSONFacts.length_app. Qed.

Lemma journalPath_ne (folder : string) : journalPath folder ≠ folder.
Proof.
  intros H. apply (f_equal String.length) in H.
  unfold journalPath in H. rewrite !length_app_s in H. cbn in H. lia.
Qed.

Lemma frame_refl (paths : list string) (w : Fs.World) : frame paths w w.
Proof. by repeat split. Qed.

Lemma frame_trans (paths : list string) (w1 w2 w3 : Fs.World) :
  frame paths w1 w2 → frame paths w2 w3 → frame paths w1 w3.
Proof.
  intros (Ha & ? & ? & ?) (Hb & ? & ? & ?). repeat split; try congruence.
  intros p Hp. by rewrite Hb, Ha.
Qed.

Lemma frame_present (paths : list string) (folder : string) (w w' : Fs.World) :
  frame paths w w' → folder ∉ paths →
  folder_present folder w → folder_present folder w'.
Proof. intros (H & _) Hp [? ?]. split; [done|]. by rewrite H. Qed.

Lemma frame_reliable (paths : list string) (folder : string) (w w' : Fs.World) :
  frame paths w w' → journal_reliable folder w → journal_reliable folder w'.
Proof. intros (_ & H & _). unfold journal_reliable. by rewrite H. Qed.

Lemma frame_journal (paths : list string) (folder : string) (w w' : Fs.World) :
  frame paths w w' → journalPath folder ∉ paths →
  journal_of folder w' = journal_of folder w.
Proof. intros (H & _) Hp. unfold journal_of. by rewrite H. Qed.

Lemma journal_of_saved (folder : string) (r : ExportRecord)
    (nodes : gmap string Fs.node) (w : Fs.World) :
  Fs.nodes w
  = <[journalPath folder := Fs.File (JSON.stringify2 (json_of_record r))]> nodes →
  journal_of folder w = Some r.
Proof.
  intros H. unfold journal_of. rewrite H, lookup_insert_eq.
  apply journal_text_read_back.
Qed.

Section journal.
Variable folder : string.

Lemma verifyExportFolderExists_ok (w : Fs.World) :
  folder_present folder w → Fs.faults w (Fs.exists_ folder) = None →
  verifyExportFolderExists folder w
  = (Resolved (), Fs.traced [Fs.Call (Fs.exists_ folder)] w).
Proof.
  intros [Hne Hex] Hf.
  unfold verifyExportFolderExists, exportFolderExists.
  destruct (String.eqb_spec folder EmptyString) as [|_]; [done|].
  unfold Async.try_catch, mbind, Async_bind, Async.bind, exists_,
    electron.exists_, Async.call.
  cbn. rewrite Hf. by rewrite bool_decide_true by done.
Qed.

(** Loading an existing journal. *)
Lemma getExportRecord_loads (retry : bool) (w : Fs.World) (r : ExportRecord) :
  folder_present folder w → journal_reliable folder w →
  journal_of folder w = Some r →
  getExportRecord folder retry w
  = (Resolved r,
     Fs.traced [Fs.Call (Fs.readTextFile (journalPath folder));
                Fs.Call (Fs.exists_ (journalPath folder));
                Fs.Call (Fs.exists_ folder)] w).
Proof.
  intros Hp (Hf1 & Hf2 & Hf3 & _) Hj.
  unfold getExportRecord, getExportRecord_once.
  rewrite bind_run, try_catch_run, bind_run.
  rewrite verifyExportFolderExists_ok by done.
  unfold journal_of in Hj. fold (journalPath folder).
  destruct (Fs.nodes w !! journalPath folder) as [[|text]|] eqn:En; try done.
  destruct (JSON.parse text) as [v|] eqn:Ev; [|done].
  injection Hj as <-.
  unfold mbind, Async_bind, Async.bind, exists_, electron.exists_,
    electron.readTextFile, Async.call.
  cbn -[JSON.parse]. rewrite Hf2. cbn -[JSON.parse].
  rewrite En. rewrite bool_decide_true by done.
  cbn -[JSON.parse]. rewrite Hf3, En, Ev. done.
Qed.
End journal.

Ltac unfold_async :=
  unfold mbind, Async_bind, Async.bind, mret, Async_ret, Async.ret,
    Async.try_catch, Async.throw, throwError, when, Async.call.

Ltac run :=
  repeat (progress (unfold_async;
                    cbn -[JSON.parse JSON.stringify2 journalPath])).

Section journal.
Variable folder : string.

(** Loading when there is no journal file yet: the empty record is
    written and returned. *)
Lemma getExportRecord_creates (retry : bool) (w : Fs.World) :
  folder_present folder w → journal_reliable folder w →
  Fs.nodes w !! journalPath folder = None →
  getExportRecord folder retry w
  = (Resolved NULL_EXPORT_RECORD,
     Fs.with_nodes
       <[journalPath folder :=
           Fs.File (JSON.stringify2 (json_of_record NULL_EXPORT_RECORD))]>
       (Fs.traced [Fs.Call (Fs.saveFileToDisk (journalPath folder));
                   Fs.Call (Fs.exists_ (journalPath folder));
                   Fs.Call (Fs.exists_ folder)] w)).
Proof.
  intros Hp (Hf1 & Hf2 & Hf3 & Hf4) Hj.
  unfold getExportRecord, getExportRecord_once.
  rewrite bind_run, try_catch_run, bind_run.
  rewrite verifyExportFolderExists_ok by done.
  fold (journalPath folder).
  unfold mbind, Async_bind, Async.bind, exists_, electron.exists_,
    createEmptyExportRecord, electron.saveFileToDisk, Async.call.
  cbn -[JSON.parse JSON.stringify2 journalPath]. rewrite Hf2. cbn -[JSON.parse JSON.stringify2 journalPath].
  rewrite Hj. rewrite bool_decide_false by (by intros [? ?]).
  run. rewrite Hf4. done.
Qed.

Lemma getExportRecord_reads (w : Fs.World) (r : ExportRecord) :
  folder_present folder w → journal_reliable folder w →
  journal_reads folder w r →
  ∃ w', getExportRecord folder true w = (Resolved r, w')
        ∧ journal_of folder w' = Some r
        ∧ frame [journalPath folder] w w'.
Proof.
  intros Hp Hr [Hj|[Hj ->]].
  - eexists. split; [by apply getExportRecord_loads|].
    split; [done|by repeat split].
  - eexists. split; [by apply getExportRecord_creates|].
    split; [by eapply journal_of_saved|].
    repeat split. intros p Hp'. cbn. apply lookup_insert_ne.
    set_solver.
Qed.

Lemma updateExportRecordHelper_saves (newData : ExportRecord)
    (w : Fs.World) (r : ExportRecord) :
  folder_present folder w → journal_reliable folder w →
  journal_reads folder w r →
  ∃ w', updateExportRecordHelper folder newData w
        = (Resolved (spread r newData), w')
        ∧ journal_of folder w' = Some (spread r newData)
        ∧ frame [journalPath folder] w w'.
Proof.
  intros Hp Hr Hj.
  destruct (getExportRecord_reads w r Hp Hr Hj) as (w1 & E1 & Hj1 & Hfr1).
  unfold updateExportRecordHelper.
  rewrite try_catch_run, bind_run, E1, bind_run.
  fold (journalPath folder).
  unfold electron.saveFileToDisk, Async.call.
  destruct Hfr1 as (Hn & Hfa & Ht & Hc).
  destruct Hr as (_ & _ & _ & Hf4).
  cbn -[JSON.parse JSON.stringify2 journalPath]. rewrite Hfa, Hf4.
  eexists. split; [done|]. split; [by eapply journal_of_saved|].
  repeat split; try done. intros p Hp'. cbn.
  rewrite lookup_insert_ne by set_solver. by apply Hn.
Qed.
Lemma folder_not_journal : folder ∉ [journalPath folder].
Proof.
  intros H%list_elem_of_singleton. by apply (journalPath_ne folder).
Qed.

Lemma spread_with_fileExportNames (r : ExportRecord)
    (names : gmap string string) :
  spread r (with_fileExportNames r (Some names))
  = with_fileExportNames r (Some names).
Proof. by destruct r as [[] [] [] [] []]. Qed.

Lemma spread_with_collectionExportNames (r : ExportRecord)
    (names : gmap Z string) :
  spread r (with_collectionExportNames r (Some names))
  = with_collectionExportNames r (Some names).
Proof. by destruct r as [[] [] [] [] []]. Qed.

Lemma filter_key_ne `{Countable K} {A} (k : K) (m : gmap K A) :
  filter (λ '(key, _), key ≠ k) m = delete k m.
Proof.
  apply map_eq. intros i. destruct (decide (i = k)) as [->|Hne].
  - rewrite lookup_delete_eq. apply map_lookup_filter_None. right.
    intros x _ Hn. by apply Hn.
  - rewrite lookup_delete_ne by done.
    destruct (m !! i) as [x|] eqn:E.
    + apply map_lookup_filter_Some. by split.
    + apply map_lookup_filter_None. by left.
Qed.

Lemma add_file_record (r : ExportRecord) (names : gmap string string → gmap string string) :
  with_fileExportNames
    match fileExportNames r with
    | None => with_fileExportNames r (Some ∅)
    | Some _ => r
    end
    (Some (names (default ∅ (fileExportNames
             match fileExportNames r with
             | None => with_fileExportNames r (Some ∅)
             | Some _ => r
             end))))
  = with_fileExportNames r (Some (names (default ∅ (fileExportNames r)))).
Proof. by destruct r as [? ? ? [] ?]. Qed.

Lemma add_collection_record (r : ExportRecord) (names : gmap Z string → gmap Z string) :
  with_collectionExportNames
    match collectionExportNames r with
    | None => with_collectionExportNames r (Some ∅)
    | Some _ => r
    end
    (Some (names (default ∅ (collectionExportNames
             match collectionExportNames r with
             | None => with_collectionExportNames r (Some ∅)
             | Some _ => r
             end))))
  = with_collectionExportNames r (Some (names (default ∅ (collectionExportNames r)))).
Proof. by destruct r as [? ? ? ? []]. Qed.

(** One journal mutation: the record is loaded, and the changed
    record [r'] is saved through the updater. *)
Lemma load_then_save (r r' : ExportRecord) (w : Fs.World) :
  folder_present folder w → journal_reliable folder w →
  journal_reads folder w r →
  spread r r' = r' →
  ∃ w1 w2,
    getExportRecord folder true w = (Resolved r, w1)
    ∧ updateExportRecord folder r' w1 = (Resolved r', w2)
    ∧ journal_of folder w2 = Some r'
    ∧ frame [journalPath folder] w w2.
Proof.
  intros Hp Hr Hj Hspread.
  destruct (getExportRecord_reads w r Hp Hr Hj) as (w1 & E1 & Hj1 & Hfr1).
  destruct (updateExportRecordHelper_saves r' w1 r) as (w2 & E2 & Hj2 & Hfr2).
  { eapply frame_present; [done|apply folder_not_journal|done]. }
  { by eapply frame_reliable. }
  { by left. }
  exists w1, w2. split_and!; [done| | |by eapply frame_trans].
  - unfold updateExportRecord. by rewrite E2, Hspread.
  - by rewrite Hj2, Hspread.
Qed.

Lemma addFileExportedRecord_saves (fileUID fileExportName : string)
    (r : ExportRecord) (w : Fs.World) :
  folder_present folder w → journal_reliable folder w →
  journal_reads folder w r →
  ∃ w', addFileExportedRecord folder fileUID fileExportName w
        = (Resolved (), w')
        ∧ journal_of folder w'
          = Some (with_fileExportNames r
                    (Some (<[fileUID := fileExportName]>
                             (default ∅ (fileExportNames r)))))
        ∧ frame [journalPath folder] w w'.
Proof.
  intros Hp Hr Hj.
  edestruct (load_then_save r) as (w1 & w2 & E1 & E2 & Hj2 & Hfr);
    [done..|apply spread_with_fileExportNames|].
  exists w2. split; [|by split].
  unfold addFileExportedRecord.
  rewrite try_catch_run, bind_run, E1, bind_run.
  cbn zeta. by rewrite add_file_record, E2.
Qed.

Lemma removeFileExportedRecord_saves (fileUID : string)
    (r : ExportRecord) (names : gmap string string) (w : Fs.World) :
  folder_present folder w → journal_reliable folder w →
  journal_reads folder w r →
  fileExportNames r = Some names →
  ∃ w', removeFileExportedRecord folder fileUID w = (Resolved (), w')
        ∧ journal_of folder w'
          = Some (with_fileExportNames r (Some (delete fileUID names)))
        ∧ frame [journalPath folder] w w'.
Proof.
  intros Hp Hr Hj Hnames.
  edestruct (load_then_save r) as (w1 & w2 & E1 & E2 & Hj2 & Hfr);
    [done..|apply spread_with_fileExportNames|].
  exists w2. split; [|by split].
  unfold removeFileExportedRecord.
  rewrite try_catch_run, bind_run, E1, bind_run, Hnames.
  cbn [Object_entries].
  change (mret (M := Async) names w1) with (Resolved names, w1).
  cbn beta iota.
  by rewrite filter_key_ne, bind_run, E2.
Qed.

Lemma addCollectionExportedRecord_saves (collectionID : Z)
    (collectionExportName : option string)
    (r : ExportRecord) (w : Fs.World) :
  folder_present folder w → journal_reliable folder w →
  journal_reads folder w r →
  ∃ w', addCollectionExportedRecord folder collectionID collectionExportName w
        = (Resolved (), w')
        ∧ journal_of folder w'
          = Some (with_collectionExportNames r
                    (Some match collectionExportName with
                          | Some name =>
                              <[collectionID := name]>
                                (default ∅ (collectionExportNames r))
                          | None =>
                              delete collectionID
                                (default ∅ (collectionExportNames r))
                          end))
        ∧ frame [journalPath folder] w w'.
Proof.
  intros Hp Hr Hj.
  edestruct (load_then_save r) as (w1 & w2 & E1 & E2 & Hj2 & Hfr);
    [done..|apply spread_with_collectionExportNames|].
  exists w2. split; [|by split].
  unfold addCollectionExportedRecord.
  rewrite try_catch_run, bind_run, E1, bind_run.
  cbn zeta. destruct collectionExportName;
    by rewrite add_collection_record, E2.
Qed.

Lemma removeCollectionExportedRecord_saves (collectionID : Z)
    (r : ExportRecord) (names : gmap Z string) (w : Fs.World) :
  folder_present folder w → journal_reliable folder w →
  journal_reads folder w r →
  collectionExportNames r = Some names →
  ∃ w', removeCollectionExportedRecord folder collectionID w = (Resolved (), w')
        ∧ journal_of folder w'
          = Some (with_collectionExportNames r
                    (Some (delete collectionID names)))
        ∧ frame [journalPath folder] w w'.
Proof.
  intros Hp Hr Hj Hnames.
  edestruct (load_then_save r) as (w1 & w2 & E1 & E2 & Hj2 & Hfr);
    [done..|apply spread_with_collectionExportNames|].
  exists w2. split; [|by split].
  unfold removeCollectionExportedRecord.
  rewrite try_catch_run, bind_run, E1, bind_run, Hnames.
  cbn [Object_entries].
  change (mret (M := Async) names w1) with (Resolved names, w1).
  cbn beta iota.
  by rewrite filter_key_ne, bind_run, E2.
Qed.
End journal.

Lemma getExportRecord_once_false (folder : string) (a b : Async ExportRecord)
    (w : Fs.World) :
  getExportRecord_once folder false a w = getExportRecord_once folder false b w.
Proof.
  unfold getExportRecord_once. rewrite !bind_run, !try_catch_run.
  match goal with
  | |- context [match ?m w with _ => _ end] =>
      destruct (m w) as [[x|e|] w1]; [done| |done]
  end.
  by rewrite andb_false_r.
Qed.

Lemma getExportRecord_unreadable (folder : string) (retry : bool)
    (w : Fs.World) (text : string) :
  folder_present folder w → journal_reliable folder w →
  Fs.nodes w !! journalPath folder = Some (Fs.File text) →
  JSON.parse text = None →
  getExportRecord folder retry w
  = if retry then getExportRecord folder false (after_failed_attempt folder w)
    else (Rejected {| message := CustomError.EXPORT_RECORD_JSON_PARSING_FAILED |},
          Fs.traced
            [Fs.LogError "export Record JSON parsing failed"
               {| message := CustomError.EXPORT_RECORD_JSON_PARSING_FAILED |};
             Fs.Call (Fs.readTextFile (journalPath folder));
             Fs.Call (Fs.exists_ (journalPath folder));
             Fs.Call (Fs.exists_ folder)] w).
Proof.
  intros Hp (Hf1 & Hf2 & Hf3 & _) En Ev.
  unfold getExportRecord at 1. unfold getExportRecord_once at 1.
  rewrite bind_run, try_catch_run, bind_run.
  rewrite verifyExportFolderExists_ok by done.
  fold (journalPath folder).
  unfold mbind at 1 2 3. unfold Async_bind, Async.bind, exists_, electron.exists_,
    electron.readTextFile, Async.call.
  cbn -[JSON.parse getExportRecord_once journalPath]. rewrite Hf2.
  cbn -[JSON.parse getExportRecord_once journalPath].
  rewrite En. rewrite bool_decide_true by done.
  cbn -[JSON.parse getExportRecord_once journalPath]. rewrite Hf3, En, Ev.
  destruct retry.
  - cbn -[JSON.parse getExportRecord_once journalPath].
    unfold getExportRecord.
    rewrite (getExportRecord_once_false folder _ Async.out_of_fuel).
    rewrite bind_run.
    change {| Fs.nodes := _; Fs.faults := _; Fs.tamper := _; Fs.clock := _;
              Fs.trace := _ |} with (after_failed_attempt folder w).
    by destruct (getExportRecord_once folder false Async.out_of_fuel
                   (after_failed_attempt folder w)) as [[r|e|] w2].
  - reflexivity.
Qed.

Lemma when_false (m : Async unit) (w : Fs.World) :
  when false m w = (Resolved (), w).
Proof. reflexivity. Qed.

Lemma when_true (m : Async unit) (w : Fs.World) : when true m w = m w.
Proof. reflexivity. Qed.

Lemma getCollectionExportedFiles_nonempty (r : ExportRecord) (cid : Z) :
  has_file_entry_for r cid →
  (0 <? length (getCollectionExportedFiles r cid))%nat = true.
Proof.
  intros (names & uid & name & Hn & Hl & Hc).
  unfold getCollectionExportedFiles. rewrite Hn.
  apply Nat.ltb_lt.
  assert (Hin : In uid
            (List.filter (λ fileUID,
               bool_decide (Number (Str.split "_" fileUID !! 1%nat) = Some cid))
               (map_to_list names).*1)).
  { apply filter_In. split.
    - apply list_elem_of_In, list_elem_of_fmap. exists (uid, name).
      split; [done|]. by apply elem_of_map_to_list.
    - by apply bool_decide_eq_true. }
  destruct (List.filter _ _); [done|cbn; lia].
Qed.

Lemma saveFileToDisk_ok (path contents : string) (w : Fs.World) :
  Fs.faults w (Fs.saveFileToDisk path) = None →
  electron.saveFileToDisk path contents w
  = (Resolved (),
     Fs.with_nodes <[path := Fs.File contents]>
       (Fs.traced [Fs.Call (Fs.saveFileToDisk path)] w)).
Proof. intros H. unfold electron.saveFileToDisk, Async.call. cbn. by rewrite H. Qed.

Lemma saveStreamToDisk_ok (path stream : string) (w : Fs.World) :
  Fs.faults w (Fs.saveStreamToDisk path) = None →
  electron.saveStreamToDisk path stream w
  = (Resolved (),
     Fs.with_nodes <[path := Fs.File stream]>
       (Fs.traced [Fs.Call (Fs.saveStreamToDisk path)] w)).
Proof. intros H. unfold electron.saveStreamToDisk, Async.call. cbn. by rewrite H. Qed.

Lemma saveStreamToDisk_fails (path stream msg : string) (w : Fs.World) :
  Fs.faults w (Fs.saveStreamToDisk path) = Some msg →
  electron.saveStreamToDisk path stream w
  = (Rejected {| message := msg |},
     Fs.traced [Fs.Call (Fs.saveStreamToDisk path)] w).
Proof. intros H. unfold electron.saveStreamToDisk, Async.call. cbn. by rewrite H. Qed.

Lemma deleteFile_ok (path : string) (w : Fs.World) :
  Fs.faults w (Fs.deleteFile path) = None →
  electron.deleteFile path w
  = (Resolved (),
     Fs.with_nodes (delete path) (Fs.traced [Fs.Call (Fs.deleteFile path)] w)).
Proof. intros H. unfold electron.deleteFile, Async.call. cbn. by rewrite H. Qed.

Lemma same_folder_frame (paths : list string) (w w' : Fs.World) :
  same_folder w w' → frame paths w w'.
Proof. intros (Hn & ? & ? & ?). repeat split; try done. intros. by rewrite Hn. Qed.

Lemma frame_reads (paths : list string) (folder : string) (r : ExportRecord)
    (w w' : Fs.World) :
  frame paths w w' → journalPath folder ∉ paths →
  journal_reads folder w r → journal_reads folder w' r.
Proof.
  intros Hfr Hp [Hj|[Hj ->]].
  - left. by rewrite (frame_journal paths folder w w').
  - right. split; [|done]. destruct Hfr as (Hn & _). by rewrite Hn.
Qed.
End ServiceFacts.
(** ** Journals of the declared type *)

Lemma journal_holds_of (folder : string) (w : Fs.World) (r : ExportRecord) :
  journal_holds folder w r → journal_of folder w = Some r.
Proof.
  intros (text & v & Hnode & Hparse & _ & <-).
  unfold journal_of. by rewrite Hnode, Hparse.
Qed.

Lemma journal_holds_reads (folder : string) (w : Fs.World) (r : ExportRecord) :
  journal_holds folder w r → journal_reads folder w r.
Proof. intros H. left. by apply journal_holds_of. Qed.

(** ** Loading and updating the journal *)

Section journal_claims.
Import CodecFacts ServiceFacts.
(** C10. A journal update with partial data is a field-wise merge: the
    record that is saved (and that a later load finds) is the prior
    record with exactly the properties present in [newData] replaced;
    every property absent from [newData] keeps its prior value, and
    nothing but the journal file changes in the export folder. *)
Theorem updateExportRecord_fieldwise_merge
    (folder : string) (newData prior : ExportRecord) (w : Fs.World) :
  folder_present folder w → journal_reliable folder w →
  journal_reads folder w prior →
  ∃ persisted w',
    updateExportRecordHelper folder newData w = (Resolved persisted, w')
    ∧ journal_of folder w' = Some persisted
    ∧ frame [journalPath folder] w w'
    ∧ fieldwise_merge prior newData persisted.
Proof.
  intros Hp Hr Hj.
  destruct (updateExportRecordHelper_saves folder newData w prior Hp Hr Hj)
    as (w' & E & Hj' & Hfr).
  exists (spread prior newData), w'. split_and!; try done.
  unfold fieldwise_merge, merged.
  destruct newData as [[] [] [] [] []]; cbn; split_and!; try done;
    by intros [? ?].
Qed.

(** C7. Loading a journal whose file exists but does not parse as JSON:
    the load is retried exactly once, after a sleep of 1000 ms (the
    outcome of the load is the outcome of [getExportRecord(folder,
    false)] run after that sleep); if the second attempt also finds text
    that does not parse, [EXPORT_RECORD_JSON_PARSING_FAILED] is thrown
    to the caller with no further sleep or attempt. *)
Theorem getExportRecord_retries_once
    (folder : string) (w : Fs.World) (text : string) :
  folder_present folder w → journal_reliable folder w →
  Fs.nodes w !! journalPath folder = Some (Fs.File text) →
  JSON.parse text = None →
  let w1 := after_failed_attempt folder w in
  getExportRecord folder true w = getExportRecord folder false w1
  ∧ Fs.trace w1
    = [Fs.Sleep 1000;
       Fs.Call (Fs.readTextFile (journalPath folder));
       Fs.Call (Fs.exists_ (journalPath folder));
       Fs.Call (Fs.exists_ folder)] ++ Fs.trace w
  ∧ (∀ text',
       folder_present folder w1 →
       Fs.nodes w1 !! journalPath folder = Some (Fs.File text') →
       JSON.parse text' = None →
       getExportRecord folder true w
       = (Rejected {| message := CustomError.EXPORT_RECORD_JSON_PARSING_FAILED |},
          Fs.traced
            [Fs.LogError "export Record JSON parsing failed"
               {| message := CustomError.EXPORT_RECORD_JSON_PARSING_FAILED |};
             Fs.Call (Fs.readTextFile (journalPath folder));
             Fs.Call (Fs.exists_ (journalPath folder));
             Fs.Call (Fs.exists_ folder)] w1))
  ∧ (∀ r,
       folder_present folder w1 → journal_of folder w1 = Some r →
       getExportRecord folder true w
       = (Resolved r,
          Fs.traced
            [Fs.Call (Fs.readTextFile (journalPath folder));
             Fs.Call (Fs.exists_ (journalPath folder));
             Fs.Call (Fs.exists_ folder)] w1)).
Proof.
  intros Hp Hr En Ev w1.
  assert (E : getExportRecord folder true w = getExportRecord folder false w1)
    by by rewrite (getExportRecord_unreadable folder true w text).
  split_and!; [done|done| |].
  - intros text' Hp' En' Ev'. rewrite E.
    by rewrite (getExportRecord_unreadable folder false w1 text').
  - intros r Hp' Hj'. rewrite E. by apply getExportRecord_loads.
Qed.

(** Updating only the stage of a journal with one file entry. *)
Lemma updateExportRecord_fieldwise_merge_witness :
  ∃ persisted w',
    updateExportRecordHelper "/e"
      {| version := None; lastAttemptTimestamp := None;
         stage := Some ExportStage.FINISHED;
         fileExportNames := None; collectionExportNames := None |}
      folder_with_two_collections = (Resolved persisted, w')
    ∧ fileExportNames persisted = fileExportNames journal_with_file_in_5
    ∧ stage persisted = Some ExportStage.FINISHED.
Proof.
  destruct (updateExportRecord_fieldwise_merge "/e"
              {| version := None; lastAttemptTimestamp := None;
                 stage := Some ExportStage.FINISHED;
                 fileExportNames := None; collectionExportNames := None |}
              journal_with_file_in_5 folder_with_two_collections)
    as (persisted & w' & E & _ & _ & (_ & _ & Hs & Hf & _)).
  - split; [discriminate|]. by eexists.
  - by repeat split.
  - left. vm_compute. reflexivity.
  - exists persisted, w'. split; [exact E|]. split.
    + by apply Hf.
    + apply Hs. by eexists.
Defined.


(** A journal file that is not JSON, in a folder nobody else touches. *)
Lemma getExportRecord_retries_once_witness :
  (getExportRecord "/e" true folder_with_broken_journal).1
  = Rejected {| message := CustomError.EXPORT_RECORD_JSON_PARSING_FAILED |}.
Proof.
  destruct (getExportRecord_retries_once "/e" folder_with_broken_journal "{oops")
    as (_ & _ & Hfail & _).
  - split; [discriminate|]. by eexists.
  - by repeat split.
  - reflexivity.
  - vm_compute. reflexivity.
  - rewrite (Hfail "{oops").
    + reflexivity.
    + split; [discriminate|]. by eexists.
    + reflexivity.
    + vm_compute. reflexivity.
Defined.
End journal_claims.

(** ** Removing deleted collections *)

Section remover_claims.
Import CodecFacts ServiceFacts.
(** C5 (as amended). During the collection-removal phase, for every
    collection id whose removal is attempted while the journal (as loaded
    at the start of the phase) still has a file entry for that
    collection, the error [collection is not empty, can't remove] is
    raised before the journal entry or any directory is removed; it is
    not one of the fatal kinds: it is caught in the iteration, logged and
    skipped, the export folder is left as it is, and the loop goes on
    with the later collection ids. *)
Theorem collectionRemover_skips_nonempty_collection
    (exportFolder : string) (isCanceled : CancellationStatus)
    (exportRecord : ExportRecord) (collectionIDPathMap : gmap Z string)
    (collectionID : Z) (later : list Z) (w : Fs.World) :
  isCanceled w = false →
  folder_present exportFolder w →
  Fs.faults w (Fs.exists_ exportFolder) = None →
  has_file_entry_for exportRecord collectionID →
  let w' :=
    Fs.traced
      [Fs.LogError "collectionRemover failed a collection" collection_not_empty;
       Fs.Call (Fs.exists_ exportFolder)] w in
  collectionRemover_item exportFolder isCanceled exportRecord
    collectionIDPathMap collectionID w
  = (Resolved (), w')
  ∧ Fs.nodes w' = Fs.nodes w
  ∧ collectionRemover_loop exportFolder isCanceled exportRecord
      collectionIDPathMap (collectionID :: later) w
    = collectionRemover_loop exportFolder isCanceled exportRecord
        collectionIDPathMap later w'.
Proof.
  intros Hc Hp Hf He w'.
  assert (E : collectionRemover_item exportFolder isCanceled exportRecord
                collectionIDPathMap collectionID w = (Resolved (), w')).
  { unfold collectionRemover_item.
    rewrite try_catch_run, bind_run. unfold readStatus. rewrite Hc.
    rewrite bind_run, when_false.
    rewrite bind_run, verifyExportFolderExists_ok by done.
    cbn zeta.
    rewrite bind_run, getCollectionExportedFiles_nonempty, when_true by done.
    reflexivity. }
  split_and!; [done|done|].
  cbn [collectionRemover_loop]. by rewrite bind_run, E.
Qed.

(** Collection 5 still has a file entry; collection 6 is attempted next. *)
Lemma collectionRemover_skips_nonempty_collection_witness :
  collectionRemover_loop "/e" never_cancelled journal_with_file_in_5
    (<[5 := "A"]> {[ 6 := "B" ]}) [5; 6] folder_with_two_collections
  = collectionRemover_loop "/e" never_cancelled journal_with_file_in_5
      (<[5 := "A"]> {[ 6 := "B" ]}) [6]
      (Fs.traced
         [Fs.LogError "collectionRemover failed a collection" collection_not_empty;
          Fs.Call (Fs.exists_ "/e")] folder_with_two_collections).
Proof.
  apply (collectionRemover_skips_nonempty_collection "/e" never_cancelled
           journal_with_file_in_5 (<[5 := "A"]> {[ 6 := "B" ]}) 5 [6]
           folder_with_two_collections).
  - reflexivity.
  - split; [discriminate|]. by eexists.
  - reflexivity.
  - exists {[ "1_5_1" := "a.jpg" ]}, "1_5_1", "a.jpg".
    split; [reflexivity|]. split; [reflexivity|]. vm_compute. reflexivity.
Defined.



(** Removing the collections 5 and 6 when the journal still has a file
    entry for collection 5: the phase does not fail; the error for 5 is
    logged, its directory and journal entry stay, and collection 6 is
    removed from the disk and from the journal. *)
Lemma CollectionNotEmpty_is_skipped :
  ¬ CollectionNotEmpty_is_fatal [5; 6] "/e" never_cancelled
      folder_with_two_collections
  ∧ let '(outcome, w') :=
      collectionRemover [5; 6] "/e" never_cancelled folder_with_two_collections in
    outcome = Resolved ()
    ∧ Fs.nodes w' !! "/e/B" = None
    ∧ Fs.nodes w' !! "/e/A" = Some Fs.Dir
    ∧ (collectionExportNames <$> journal_of "/e" w') = Some (Some {[ 5 := "A" ]})
    ∧ Fs.LogError "collectionRemover failed a collection" collection_not_empty
      ∈ Fs.trace w'.
Proof.
  assert (E : (collectionRemover [5; 6] "/e" never_cancelled
                 folder_with_two_collections).1 = Resolved ())
    by (vm_compute; reflexivity).
  split.
  - intros H.
    destruct (H journal_with_file_in_5 5) as (e & w' & H').
    + vm_compute. reflexivity.
    + apply list_elem_of_here.
    + exists {[ "1_5_1" := "a.jpg" ]}, "1_5_1", "a.jpg".
      split; [reflexivity|]. split; [reflexivity|]. vm_compute. reflexivity.
    + rewrite H' in E. discriminate E.
  - destruct (collectionRemover _ _ _ _) as [outcome w'] eqn:Erun.
    assert (Hw : w' = (collectionRemover [5; 6] "/e" never_cancelled
                         folder_with_two_collections).2) by by rewrite Erun.
    cbn in E. subst outcome. rewrite Hw. clear.
    split; [reflexivity|].
    split; [vm_compute; reflexivity|].
    split; [vm_compute; reflexivity|].
    split; [vm_compute; reflexivity|].
    apply (bool_decide_unpack _). vm_compute. exact I.
Qed.
End remover_claims.

(** ** Live photos *)

Section live_photo.
Import CodecFacts ServiceFacts.
Variable safeFileName : string → string → Async string.
Variable decodeLivePhoto : EnteFile → string → Async LivePhoto.
Variable formatDateTimeShort : Z → string.

(** C1. A live-photo export whose video write fails after the image
    file was written: the image file is deleted, the journal entry of
    the file's UID (recorded before any write) is removed, and the
    error of the video write propagates; afterwards the journal has no
    [fileExportNames] entry for that UID. The journal file holds a
    journal of the declared type; the video write is the only call
    that fails; the allocator and the decoder leave the export folder
    as it is. *)
Theorem exportLivePhoto_rolls_back
    (exportDir fileUID collectionExportPath fileStream : string)
    (file : EnteFile) (livePhoto : LivePhoto)
    (imageExportName videoExportName failure : string)
    (r0 : ExportRecord) (w w0 w1 w2 : Fs.World) :
  let imagePath := collectionExportPath +:+ "/" +:+ imageExportName in
  let videoPath := collectionExportPath +:+ "/" +:+ videoExportName in
  let imageMetadataPath :=
    getFileMetadataExportPath collectionExportPath imageExportName in
  let videoMetadataPath :=
    getFileMetadataExportPath collectionExportPath videoExportName in
  decodeLivePhoto file fileStream w = (Resolved livePhoto, w0) →
  same_folder w w0 →
  safeFileName collectionExportPath (imageNameTitle livePhoto) w0
    = (Resolved imageExportName, w1) →
  same_folder w0 w1 →
  safeFileName collectionExportPath (videoNameTitle livePhoto) w1
    = (Resolved videoExportName, w2) →
  same_folder w1 w2 →
  folder_present exportDir w →
  journal_holds exportDir w r0 →
  Fs.faults w (Fs.saveStreamToDisk videoPath) = Some failure →
  (∀ o, o ≠ Fs.saveStreamToDisk videoPath → Fs.faults w o = None) →
  imagePath ≠ videoPath →
  journalPath exportDir ∉ [imageMetadataPath; imagePath; videoMetadataPath] →
  exportDir ≠ imagePath →
  ∃ w' r',
    exportLivePhoto safeFileName decodeLivePhoto formatDateTimeShort
      exportDir fileUID collectionExportPath fileStream file w
    = (Rejected {| message := failure |}, w')
    ∧ Fs.nodes w' !! imagePath = None
    ∧ journal_of exportDir w' = Some r'
    ∧ r' = with_fileExportNames r0
             (Some (delete fileUID (default ∅ (fileExportNames r0))))
    ∧ ¬ recorded_file r' fileUID.
Proof.
  intros imagePath videoPath imageMeta videoMeta
    Hdec Hs0 Hname1 Hs1 Hname2 Hs2 Hp Hj%journal_holds_reads
    Hfail Hothers Hiv Hjp Hdir.
  assert (Hs : same_folder w w2).
  { destruct Hs0 as (?&?&?&?), Hs1 as (?&?&?&?), Hs2 as (?&?&?&?).
    repeat split; congruence. }
  assert (Hf2 : Fs.faults w2 = Fs.faults w) by apply Hs.
  assert (Hrel : journal_reliable exportDir w).
  { repeat split; by apply Hothers. }
  (* the mapping is recorded *)
  destruct (addFileExportedRecord_saves exportDir fileUID
              (getLivePhotoExportName imageExportName videoExportName) r0 w2)
    as (w3 & E3 & Hj3 & Hfr3).
  { eapply frame_present; [by apply (same_folder_frame [])| |done].
    apply not_elem_of_nil. }
  { unfold journal_reliable. by rewrite Hf2. }
  { eapply frame_reads; [by apply (same_folder_frame [])| |done].
    apply not_elem_of_nil. }
  assert (Hf3 : Fs.faults w3 = Fs.faults w).
  { destruct Hfr3 as (_ & -> & _). done. }
  set (r1 := with_fileExportNames r0 _) in Hj3.
  (* the writes *)
  set (w7 := Fs.traced [Fs.Call (Fs.saveStreamToDisk videoPath)]
               (Fs.with_nodes
                  <[videoMeta := Fs.File
                      (getGoogleLikeMetadataFile formatDateTimeShort
                         videoExportName file)]>
                  (Fs.traced [Fs.Call (Fs.saveFileToDisk videoMeta)]
                     (Fs.with_nodes <[imagePath := Fs.File (image livePhoto)]>
                        (Fs.traced [Fs.Call (Fs.saveStreamToDisk imagePath)]
                           (Fs.with_nodes
                              <[imageMeta := Fs.File
                                  (getGoogleLikeMetadataFile formatDateTimeShort
                                     imageExportName file)]>
                              (Fs.traced [Fs.Call (Fs.saveFileToDisk imageMeta)]
                                 w3))))))).
  set (w8 := Fs.with_nodes (delete imagePath)
               (Fs.traced [Fs.Call (Fs.deleteFile imagePath)] w7)).
  assert (Hfr8 : frame [imageMeta; imagePath; videoMeta] w3 w8).
  { destruct Hfr3 as (_ & ? & ? & ?). repeat split; try done.
    intros p Hp'. cbn.
    rewrite !not_elem_of_cons in Hp'. destruct Hp' as (? & ? & ? & _).
    by rewrite lookup_delete_ne, !lookup_insert_ne by done. }
  (* the rollback of the journal *)
  destruct (removeFileExportedRecord_saves exportDir fileUID r1
              (<[fileUID := getLivePhotoExportName imageExportName videoExportName]>
                 (default ∅ (fileExportNames r0))) w8)
    as (w9 & E9 & Hj9 & Hfr9).
  { split; [apply Hp|]. cbn. rewrite lookup_delete_ne by done.
    rewrite !lookup_insert_is_Some'. do 3 right.
    destruct Hfr3 as (Hn3 & _). rewrite Hn3 by apply folder_not_journal.
    destruct Hs as (-> & _). apply Hp. }
  { eapply frame_reliable; [exact Hfr8|]. eapply frame_reliable; [exact Hfr3|].
    unfold journal_reliable. by rewrite Hf2. }
  { left. by rewrite (frame_journal _ _ _ _ Hfr8 Hjp). }
  { done. }
  exists w9, (with_fileExportNames r0
                (Some (delete fileUID (default ∅ (fileExportNames r0))))).
  split_and!.
  - unfold exportLivePhoto.
    rewrite bind_run, Hdec, bind_run, Hname1, bind_run, Hname2.
    cbn zeta. rewrite bind_run, E3, try_catch_run.
    unfold saveMetadataFile.
    rewrite bind_run, saveFileToDisk_ok
      by (rewrite Hf3; by apply Hothers).
    rewrite bind_run, saveStreamToDisk_ok
      by (cbn; rewrite Hf3; apply Hothers; by intros [= ?]).
    rewrite bind_run, saveFileToDisk_ok
      by (cbn; rewrite Hf3; by apply Hothers).
    rewrite try_catch_run, (saveStreamToDisk_fails _ _ failure)
      by (cbn; by rewrite Hf3).
    rewrite bind_run, deleteFile_ok
      by (cbn; rewrite Hf3; by apply Hothers).
    fold imagePath videoPath imageMeta videoMeta. fold w7. fold w8.
    unfold Async.throw. by rewrite bind_run, E9.
  - destruct Hfr9 as (Hn9 & _). rewrite Hn9.
    + cbn. apply lookup_delete_eq.
    + rewrite not_elem_of_cons in Hjp. destruct Hjp as (_ & Hjp).
      rewrite not_elem_of_cons in Hjp. destruct Hjp as (Hjp & _).
      by intros ->%list_elem_of_singleton.
  - rewrite Hj9. unfold r1. cbn. by rewrite delete_insert_eq.
  - done.
  - intros (names & n & [= <-] & Hl). by rewrite lookup_delete_eq in Hl.
Qed.
End live_photo.

(** The video write of a live photo fails with a full disk, in an
    export folder whose journal has an entry for another file. *)
Lemma exportLivePhoto_rolls_back_witness :
  ∃ w' r',
    exportLivePhoto (NameAllocator.safeFileName 255 4)
      (λ _ _, mret live_photo) Number_toString
      "/e" "9_5_1" "/e/A" "blob" live_photo_file folder_with_failing_video_write
    = (Rejected {| message := "disk full" |}, w')
    ∧ Fs.nodes w' !! "/e/A/LP.HEIC" = None
    ∧ journal_of "/e" w' = Some r'
    ∧ ¬ recorded_file r' "9_5_1".
Proof.
  destruct (exportLivePhoto_rolls_back (NameAllocator.safeFileName 255 4)
              (λ _ _, mret live_photo) Number_toString
              "/e" "9_5_1" "/e/A" "blob" live_photo_file live_photo
              "LP.HEIC" "LP.MOV" "disk full" journal_with_file_in_5
              folder_with_failing_video_write
              folder_with_failing_video_write
              (Fs.traced [Fs.Call (Fs.exists_ "/e/A/LP.HEIC")]
                 folder_with_failing_video_write)
              (Fs.traced [Fs.Call (Fs.exists_ "/e/A/LP.MOV");
                          Fs.Call (Fs.exists_ "/e/A/LP.HEIC")]
                 folder_with_failing_video_write))
    as (w' & r' & E & Himage & Hj & _ & Hgone).
  - reflexivity.
  - by repeat split.
  - reflexivity.
  - by repeat split.
  - reflexivity.
  - by repeat split.
  - split; [discriminate|]. by eexists.
  - eexists _, _. split; [reflexivity|].
    split; [vm_compute; reflexivity|]. split; vm_compute; reflexivity.
  - reflexivity.
  - intros o Ho. cbn. by rewrite decide_False.
  - discriminate.
  - apply (bool_decide_unpack _). vm_compute. exact I.
  - discriminate.
  - exists w', r'. split; [exact E|]. split; [exact Himage|].
    split; [exact Hj|exact Hgone].
Defined.

(** ** The canceller along the executions of the scheduler *)

Section canceller_facts.
Import Scheduler.

Lemma canceller_tracks_runs_initial : canceller_tracks_runs initial.
Proof. split; [done|]. intros n r H. cbn in H. by rewrite lookup_nil in H. Qed.

Lemma canceller_tracks_runs_scheduleExport (s : State) :
  canceller_tracks_runs s → canceller_tracks_runs (scheduleExport s).
Proof.
  intros [Hlt Hinv]. unfold scheduleExport.
  destruct (exportInProgress s) as [k|] eqn:Ek.
  - split; cbn; [intros n [= <-]; by apply Hlt|].
    intros n r Hr. destruct (Hinv n r Hr) as [(? & ?)|(? & ?)]; [left|right];
      by split.
  - split; cbn.
    + intros n [= <-]. rewrite List.length_app. cbn. lia.
    + intros n r Hr. apply lookup_app_Some in Hr as [Hr|[Hge Hr]].
      * right. split.
        { intros [= Heq]. apply lookup_lt_Some in Hr. lia. }
        destruct (Hinv n r Hr) as [([=] & _)|(_ & ?)]. done.
      * left. destruct (n - length (runs s))%nat as [|k] eqn:Ek'; [|done].
        injection Hr as <-. split_and!; [f_equal; lia|done|by left].
Qed.

Lemma canceller_tracks_runs_step (s s' : State) :
  scheduler_step s s' → canceller_tracks_runs s → canceller_tracks_runs s'.
Proof.
  intros Hstep Hs. destruct Hstep as [s|s|n s|n s|n b s Hin Hrun].
  - by apply canceller_tracks_runs_scheduleExport.
  - unfold timer_fires. destruct (timers s) as [|k]; [done|].
    apply canceller_tracks_runs_scheduleExport.
    destruct Hs as [Hlt Hinv]. by split.
  - destruct Hs as [Hlt Hinv]. unfold enter_finally.
    destruct (runs s !! n) as [[b []]|] eqn:Hn; try by split.
    destruct (Hinv n _ Hn) as [(Hin & Hb & _)|(Hin & Hb)]; cbn in Hb.
    + subst b. split; cbn; [intros m Hm; rewrite length_alter; by apply Hlt|].
      intros m r Hr. destruct (decide (m = n)) as [->|Hne].
      * rewrite list_lookup_alter_eq, Hn in Hr. injection Hr as <-.
        left. cbn. split_and!; [done|done|by right].
      * rewrite list_lookup_alter_ne in Hr by done. by apply Hinv.
    + destruct Hb as [[=]|[-> _]].
      destruct (exportInProgress s) as [k|] eqn:Ek.
      * split; cbn; rewrite ?Ek;
          [intros m Hm; rewrite length_alter; by apply Hlt|].
        intros m r Hr. destruct (decide (m = n)) as [->|Hne].
        { rewrite list_lookup_alter_eq, Hn in Hr. injection Hr as <-.
          right. cbn. split; [done|by left]. }
        rewrite list_lookup_alter_ne in Hr by done.
        by apply Hinv.
      * split; cbn; rewrite ?Ek; [done|].
        intros m r Hr. destruct (decide (m = n)) as [->|Hne].
        { rewrite list_lookup_alter_eq, Hn in Hr. injection Hr as <-.
          right. cbn. split; [done|]. right. split; [done|by right]. }
        rewrite list_lookup_alter_ne in Hr by done.
        by apply Hinv.
  - destruct Hs as [Hlt Hinv]. unfold leave_finally.
    destruct (runs s !! n) as [[b []]|] eqn:Hn; try by split.
    + (* cancelled branch *)
      destruct (Hinv n _ Hn) as [(_ & _ & [[=]|[=]])|(Hin & Hb)].
      split; cbn; [intros m Hm; rewrite length_alter; by apply Hlt|].
      intros m r Hr. destruct (decide (m = n)) as [->|Hne].
      * rewrite list_lookup_alter_eq, Hn in Hr. injection Hr as <-.
        right. cbn. split; [done|by left].
      * rewrite list_lookup_alter_ne in Hr by done. by apply Hinv.
    + (* other branch *)
      destruct (Hinv n _ Hn) as [(Hin & Hb & _)|(_ & [[=]|(_ & [[=]|[=]])])].
      assert (Hothers : ∀ m r,
                alter (move Returned) n (runs s) !! m = Some r →
                position_of r = Returned
                ∨ status r = true
                  ∧ (position_of r = Exporting
                     ∨ position_of r = PostExportCancelled)).
      { intros m r Hr. destruct (decide (m = n)) as [->|Hne].
        - rewrite list_lookup_alter_eq, Hn in Hr. injection Hr as <-. by left.
        - rewrite list_lookup_alter_ne in Hr by done.
          destruct (Hinv m r Hr) as [(Hm & _)|(_ & ?)]; [|done].
          congruence. }
      cbn. destruct (reRunNeeded s); split; cbn; try done;
        intros m r Hr; right; (split; [done|by eapply Hothers]).
  - destruct Hs as [Hlt Hinv]. unfold stopRunningExport. rewrite Hin.
    split; cbn; [done|].
    intros m r Hr. right. split; [done|].
    destruct (decide (m = n)) as [->|Hne].
    + rewrite list_lookup_alter_eq, Hrun in Hr. injection Hr as <-.
      right. cbn. split; [done|by left].
    + rewrite list_lookup_alter_ne in Hr by done.
      destruct (Hinv m r Hr) as [(Hm & _)|(_ & ?)]; [|done].
      congruence.
Qed.

Lemma reachable_canceller_tracks_runs (s : State) :
  reachable s → canceller_tracks_runs s.
Proof.
  unfold reachable. intros H.
  apply rtc_nsteps in H as [k H].
  revert s H. induction k as [|k IH]; intros s H.
  - inversion H; subst. apply canceller_tracks_runs_initial.
  - apply nsteps_inv_r in H as (s0 & H0 & Hstep).
    eapply canceller_tracks_runs_step; [exact Hstep|by apply IH].
Qed.
End canceller_facts.
(** ** The scheduler *)

Section scheduler_claims.
Import Scheduler.
Lemma scheduleExport_in_progress (s : State) (n : nat) :
  exportInProgress s = Some n →
  scheduleExport s
  = {| exportInProgress := Some n; reRunNeeded := true; runs := runs s;
       timers := timers s; postExports := postExports s |}.
Proof. intros H. unfold scheduleExport. by rewrite H. Qed.

Lemma triggers_coalesce (s : State) (n k : nat) :
  exportInProgress s = Some n →
  Nat.iter (S k) scheduleExport s = scheduleExport s.
Proof.
  intros H. induction k as [|k IH]; [done|].
  change (Nat.iter (S (S k)) scheduleExport s)
    with (scheduleExport (Nat.iter (S k) scheduleExport s)).
  rewrite IH, (scheduleExport_in_progress s n H).
  by unfold scheduleExport.
Qed.

Lemma triggers_in_progress (s : State) (n k : nat) :
  exportInProgress s = Some n →
  Nat.iter k scheduleExport s
  = {| exportInProgress := Some n;
       reRunNeeded := reRunNeeded s || (0 <? k)%nat;
       runs := runs s; timers := timers s; postExports := postExports s |}.
Proof.
  intros H. destruct k as [|k].
  - cbn. rewrite orb_false_r. destruct s. cbn in *. by subst.
  - rewrite (triggers_coalesce s n k H), (scheduleExport_in_progress s n H).
    cbn. by rewrite orb_true_r.
Qed.

(** C2 (as amended). At most one export run that has not been cancelled
    executes at a time: in every state the service reaches from its
    initial state, when the export is stopped only while the run in
    progress is exporting, the runs that have not returned and were not
    cancelled are at most one, the run whose canceller is installed (a
    cancelled run may still execute beside a new one until it observes
    the cancellation). A call of [scheduleExport] while a run is in
    progress sets the re-run flag and returns without starting a second
    run; any number of such calls leaves the same state as one; and when
    the run completes without having been cancelled, whatever the
    number of triggers before and during [postExport], [postExport] is
    called once, the flag is cleared, [exportInProgress] is reset and,
    if the flag was set, exactly one deferred call is queued, which
    starts exactly one new run when it fires. *)
Theorem scheduleExport_single_flight (s : State) :
  reachable s →
  (* at most one run has not returned and was not cancelled *)
  (∀ n m r r', runs s !! n = Some r → runs s !! m = Some r' →
               live r → live r' → n = m)
  ∧ (∀ n r, runs s !! n = Some r → live r → exportInProgress s = Some n)
  ∧ ∀ n, exportInProgress s = Some n →
      (* a trigger during a run sets the flag and starts nothing *)
      (let s' := scheduleExport s in
       reRunNeeded s' = true ∧ runs s' = runs s
       ∧ exportInProgress s' = Some n ∧ timers s' = timers s)
      (* any number of triggers is as good as one *)
      ∧ (∀ k, Nat.iter (S k) scheduleExport s = scheduleExport s)
      (* natural completion: [k] triggers while the run exports, [j]
         while it awaits [postExport] *)
      ∧ (runs s !! n = Some {| status := false; position_of := Exporting |} →
         ∀ k j,
           let s1 := enter_finally n (Nat.iter k scheduleExport s) in
           let s2 := leave_finally n (Nat.iter j scheduleExport s1) in
           let pending := reRunNeeded s || (0 <? k + j)%nat in
           postExports s2 = S (postExports s)
           ∧ exportInProgress s1 = Some n
           ∧ exportInProgress s2 = None
           ∧ reRunNeeded s2 = false
           ∧ runs s2 = alter (move Returned) n (runs s)
           ∧ (∀ m r, runs s2 !! m = Some r → ¬ live r)
           ∧ timers s2 = (if pending then S (timers s) else timers s)
           ∧ (pending = true →
              let s3 := timer_fires s2 in
              exportInProgress s3 = Some (length (runs s))
              ∧ runs s3
                = runs s2 ++ [{| status := false; position_of := Exporting |}]
              ∧ timers s3 = timers s
              ∧ reRunNeeded s3 = false)).
Proof.
  intros Hreach.
  pose proof (reachable_canceller_tracks_runs s Hreach) as [Hlt Hinv].
  assert (Hlive : ∀ n r, runs s !! n = Some r → live r →
                         exportInProgress s = Some n).
  { intros n r Hr [Hstatus Hpos].
    destruct (Hinv n r Hr) as [(? & _)|(_ & [?|(? & _)])];
      [done|done|congruence]. }
  split_and!.
  - intros n m r r' Hr Hr' Hl Hl'.
    pose proof (Hlive n r Hr Hl). pose proof (Hlive m r' Hr' Hl'). congruence.
  - exact Hlive.
  - intros n H. split_and!.
    + by rewrite (scheduleExport_in_progress s n H).
    + intros k. by apply (triggers_coalesce s n).
    + intros Hrun k j. cbv zeta.
      rewrite (triggers_in_progress s n k H).
      unfold enter_finally. cbn [runs]. rewrite Hrun.
      unfold call_postExport, set_run.
      cbn [exportInProgress reRunNeeded runs timers postExports].
      rewrite (triggers_in_progress _ n j) by reflexivity.
      cbn [exportInProgress reRunNeeded runs timers postExports].
      assert (Hn : alter (move PostExportNatural) n (runs s) !! n
                   = Some {| status := false;
                             position_of := PostExportNatural |}).
      { rewrite list_lookup_alter_eq, Hrun. reflexivity. }
      unfold leave_finally. cbn [runs]. rewrite Hn.
      unfold set_run.
      cbn [exportInProgress reRunNeeded runs timers postExports].
      assert (Halter : alter (move Returned) n
                         (alter (move PostExportNatural) n (runs s))
                       = alter (move Returned) n (runs s)).
      { rewrite list_alter_alter_eq. apply list_alter_ext; [|done].
        by intros [? ?] _. }
      assert (Hdone : ∀ m r,
                alter (move Returned) n (runs s) !! m = Some r → ¬ live r).
      { intros m r Hr [Hstatus Hpos]. destruct (decide (m = n)) as [->|Hne].
        - rewrite list_lookup_alter_eq, Hrun in Hr. injection Hr as <-.
          by apply Hpos.
        - rewrite list_lookup_alter_ne in Hr by done.
          assert (exportInProgress s = Some m) by by apply (Hlive m r).
          congruence. }
      assert (Hpending : reRunNeeded s || (0 <? k)%nat || (0 <? j)%nat
                         = reRunNeeded s || (0 <? k + j)%nat).
      { destruct (reRunNeeded s), k, j; try done.
        all: cbn; by rewrite ?orb_true_r. }
      rewrite Hpending, Halter.
      destruct (reRunNeeded s || (0 <? k + j)%nat) eqn:Ep;
        cbn [exportInProgress reRunNeeded runs timers postExports];
        split_and!; try done.
      intros _. unfold timer_fires, scheduleExport. cbn.
      by rewrite length_alter.
Qed.
End scheduler_claims.

(** Two triggers while the first run exports, one more while it awaits
    [postExport]: one deferred call, which starts the second run. *)
Lemma scheduleExport_single_flight_witness :
  let s := Scheduler.scheduleExport Scheduler.initial in
  let s1 := Scheduler.enter_finally 0 (Nat.iter 2 Scheduler.scheduleExport s) in
  let s2 := Scheduler.leave_finally 0 (Nat.iter 1 Scheduler.scheduleExport s1) in
  Scheduler.runs (Scheduler.scheduleExport s) = Scheduler.runs s
  ∧ Scheduler.timers s2 = 1%nat
  ∧ Scheduler.postExports s2 = 1%nat
  ∧ Scheduler.exportInProgress (Scheduler.timer_fires s2) = Some 1%nat.
Proof.
  destruct (scheduleExport_single_flight
              (Scheduler.scheduleExport Scheduler.initial))
    as (_ & _ & H).
  - eapply rtc_l; [apply step_trigger|]. apply rtc_refl.
  - destruct (H 0%nat eq_refl) as ((_ & Hruns & _) & _ & Hdone).
    destruct (Hdone eq_refl 2%nat 1%nat)
      as (Hpost & _ & _ & _ & _ & _ & Htimers & Hfire).
    destruct (Hfire eq_refl) as (Hnew & _).
    split; [exact Hruns|]. split; [exact Htimers|].
    split; [exact Hpost|exact Hnew].
Defined.

(** A stop and a new trigger: the cancelled run, which has not yet seen
    its cancellation, and the new run both execute. *)
Lemma cancelled_run_beside_new_run :
  let s :=
    Scheduler.scheduleExport
      (Scheduler.stopRunningExport
         (Scheduler.scheduleExport Scheduler.initial)) in
  reachable s
  ∧ Scheduler.exporting s
    = [{| Scheduler.status := true;
          Scheduler.position_of := Scheduler.Exporting |};
       {| Scheduler.status := false;
          Scheduler.position_of := Scheduler.Exporting |}]
  ∧ ¬ at_most_one_run_executes.
Proof.
  assert (Hreach : reachable
            (Scheduler.scheduleExport
               (Scheduler.stopRunningExport
                  (Scheduler.scheduleExport Scheduler.initial)))).
  { eapply rtc_r; [|apply step_trigger].
    eapply rtc_r; [|by apply (step_stop_exporting 0 false)].
    eapply rtc_r; [apply rtc_refl|apply step_trigger]. }
  split; [exact Hreach|]. split; [reflexivity|].
  intros H. specialize (H _ Hreach).
  change (2 ≤ 1)%nat in H. lia.
Qed.

(** ** Export names *)

(** C9. [isLivePhotoExportName] returns [true] for every string that
    [JSON.parse] accepts, plain export names that happen to be JSON
    (such as a purely numeric basename) included, and [false] exactly
    for the strings that fail to parse. *)
Theorem isLivePhotoExportName_iff_parses (s : string) :
  (isLivePhotoExportName s = true ↔ is_Some (JSON.parse s))
  ∧ (isLivePhotoExportName s = false ↔ JSON.parse s = None)
  ∧ isLivePhotoExportName "20240102" = true
  ∧ isLivePhotoExportName "IMG_0001.jpg" = false.
Proof.
  unfold isLivePhotoExportName. split_and!.
  - destruct (JSON.parse s); split; try done.
  - by destruct (JSON.parse s).
  - by vm_compute.
  - by vm_compute.
Qed.

(** ** Names in the Trash *)

(** C6 (failing input). With [A/1.jpg] and [A/1(1).jpg] already in the
    Trash, the path allocated for [/e/A/1.jpg] is [A/1(1)(2).jpg]: the
    loop splits the path it has just built, so the suffixes pile up. The
    candidate [stem(2).ext], [A/1(2).jpg], is free and is not the one
    returned. *)
Theorem getTrashedFileExportPath_accumulates_suffixes :
  (getTrashedFileExportPath 3 "/e" "/e/A/1.jpg" folder_with_trashed_twice).1
  = Resolved "/e/Trash/A/1(1)(2).jpg"
  ∧ second_trash_candidate "/e" "/e/A/1.jpg" = "/e/Trash/A/1(2).jpg"
  ∧ Fs.nodes folder_with_trashed_twice !! "/e/Trash/A/1(2).jpg" = None.
Proof. split_and!; vm_compute; reflexivity. Qed.
(** * Further properties of the planner *)

Lemma elem_of_keys `{Countable K} {A} (m : gmap K A) (k : K) :
  k ∈ (map_to_list m).*1 ↔ is_Some (m !! k).
Proof.
  rewrite list_elem_of_fmap. split.
  - intros ([k' v] & -> & Hin). apply elem_of_map_to_list in Hin. eauto.
  - intros [v Hv]. exists (k, v). split; [done|]. by apply elem_of_map_to_list.
Qed.

Lemma NoDup_filter_keys `{Countable K} {A} (m : gmap K A) (P : K → bool) :
  NoDup (List.filter P (map_to_list m).*1).
Proof.
  apply NoDup_ListNoDup, List.NoDup_filter, NoDup_ListNoDup,
    NoDup_fst_map_to_list.
Qed.

Lemma uid_parts (f : EnteFile) :
  Str.split "_" (getExportRecordFileUID f)
  = [Number_toString (EnteFile.id f);
     Number_toString (EnteFile.collectionID f);
     Number_toString (EnteFile.updationTime f)].
Proof.
  unfold getExportRecordFileUID.
  rewrite !app_String, !app_empty.
  rewrite (split_app_sep "_"), (split_app_sep "_"), (split_lacks "_")
    by apply Number_toString_lacks_underscore.
  done.
Qed.

Lemma Number_toString_inj (n m : Z) :
  Number_toString n = Number_toString m → n = m.
Proof.
  intros H. apply (f_equal Number_of_string) in H.
  rewrite !Number_of_string_toString in H. congruence.
Qed.

Lemma digits_close_inv (s : string) :
  NumberedSuffix.digits_close s = true →
  ∃ k, Str.forallb Str.is_digit k = true ∧ s = k +:+ ")".
Proof.
  induction s as [|c r IH]; [done|]. cbn.
  destruct (Str.is_digit c) eqn:Ec.
  - intros (k & Hk & ->)%IH. exists (String c k). cbn. by rewrite Ec, Hk.
  - intros [Hc Hr]%andb_prop.
    apply Ascii.eqb_eq in Hc as ->. apply String.eqb_eq in Hr as ->.
    by exists EmptyString.
Qed.

Lemma matches_at_inv (s : string) :
  NumberedSuffix.matches_at s = true → numbered EmptyString s.
Proof.
  destruct s as [|c [|d r]]; try done. cbn.
  intros [[Hc Hd]%andb_prop Hr]%andb_prop.
  apply Ascii.eqb_eq in Hc as ->.
  apply digits_close_inv in Hr as (k & Hk & ->).
  exists (String d k). split_and!; [done|by cbn; rewrite Hd|done].
Qed.

Lemma match_numbered (s : string) :
  is_Some (NumberedSuffix.match_ s) → numbered (NumberedSuffix.replace s) s.
Proof.
  induction s as [|c r IH].
  - cbn. by intros [? [=]].
  - cbn [NumberedSuffix.match_ NumberedSuffix.replace].
    destruct (NumberedSuffix.matches_at (String c r)) eqn:E.
    + intros _. by apply matches_at_inv.
    + intros [n Hn]. destruct (NumberedSuffix.match_ r) as [m|] eqn:Em; [|done].
      destruct IH as (k & Hk & Hd & Hr); [eauto|].
      exists k. split_and!; [done..|].
      by rewrite app_String, <- Hr.
Qed.

(** X1. The file UIDs planned for the trash are exactly the keys of the
    journal's [fileExportNames] that are the UID of no file of the
    inventory, each listed once; without [fileExportNames] nothing is
    planned. *)
Theorem getDeletedExportedFiles_exact
    (allFiles : list EnteFile) (exportRecord : ExportRecord) :
  NoDup (getDeletedExportedFiles allFiles exportRecord)
  ∧ ∀ fileUID,
      fileUID ∈ getDeletedExportedFiles allFiles exportRecord
      ↔ recorded_file exportRecord fileUID
        ∧ ∀ file, file ∈ allFiles → getExportRecordFileUID file ≠ fileUID.
Proof.
  unfold getDeletedExportedFiles, recorded_file.
  destruct (fileExportNames exportRecord) as [names|].
  - split; [apply NoDup_filter_keys|]. intros fileUID.
    rewrite list_elem_of_In, filter_In, <- list_elem_of_In, elem_of_keys.
    rewrite negb_true_iff, bool_decide_eq_false, elem_of_list_to_set,
      list_elem_of_fmap.
    split.
    + intros [[n Hn] Hno]. split; [eauto|].
      intros f Hf Hu. apply Hno. eauto.
    + intros [(names' & n & [= <-] & Hn) Hno]. split; [eauto|].
      intros (f & -> & Hf). by eapply Hno.
  - split; [constructor|]. intros fileUID.
    split; [by intros ?%elem_of_nil|]. by intros [(? & ? & ? & _) _].
Qed.

(** X2. The collection ids planned for removal are exactly the keys of the
    journal's [collectionExportNames] that are the id of no collection of
    the inventory, each listed once. *)
Theorem getDeletedExportedCollections_exact
    (collections : list Collection) (exportRecord : ExportRecord) :
  NoDup (getDeletedExportedCollections collections exportRecord)
  ∧ ∀ collectionID,
      collectionID ∈ getDeletedExportedCollections collections exportRecord
      ↔ (∃ names exportName,
            collectionExportNames exportRecord = Some names
            ∧ names !! collectionID = Some exportName)
        ∧ ∀ collection, collection ∈ collections →
                        Collection.id collection ≠ collectionID.
Proof.
  unfold getDeletedExportedCollections.
  destruct (collectionExportNames exportRecord) as [names|].
  - split; [apply NoDup_filter_keys|]. intros collectionID.
    rewrite list_elem_of_In, filter_In, <- list_elem_of_In, elem_of_keys.
    rewrite negb_true_iff, bool_decide_eq_false, elem_of_list_to_set,
      list_elem_of_fmap.
    split.
    + intros [[n Hn] Hno]. split; [eauto|].
      intros c Hc Hu. apply Hno. eauto.
    + intros [(names' & n & [= <-] & Hn) Hno]. split; [eauto|].
      intros (c & -> & Hc). by eapply Hno.
  - split; [constructor|]. intros collectionID.
    split; [by intros ?%elem_of_nil|]. by intros [(? & ? & ? & _) _].
Qed.

(** X3. When the journal and the inventory agree (every file of the
    inventory has a journal entry and every journal entry is the UID of a
    file of the inventory) the planner has no file to export and no file
    to trash. *)
Theorem planner_in_sync_plans_no_file
    (allFiles : list EnteFile) (exportRecord : ExportRecord) :
  (∀ file, file ∈ allFiles →
           recorded_file exportRecord (getExportRecordFileUID file)) →
  (∀ fileUID, recorded_file exportRecord fileUID →
              ∃ file, file ∈ allFiles ∧ getExportRecordFileUID file = fileUID) →
  getUnExportedFiles allFiles exportRecord = []
  ∧ getDeletedExportedFiles allFiles exportRecord = [].
Proof.
  intros Hall Hrec. split.
  - rewrite getUnExportedFiles_filter.
    apply elem_of_nil_inv. intros f [Hn Hf]%list_elem_of_filter.
    by apply Hn, Hall.
  - apply elem_of_nil_inv. intros u Hu.
    unfold getDeletedExportedFiles in Hu.
    destruct (fileExportNames exportRecord) as [names|] eqn:E;
      [|by apply elem_of_nil in Hu].
    apply list_elem_of_In, filter_In in Hu as [Hk Hno].
    apply list_elem_of_In, elem_of_keys in Hk as [n Hn].
    destruct (Hrec u) as (f & Hf & <-).
    { exists names, n. by rewrite E. }
    apply negb_true_iff, bool_decide_eq_false in Hno. apply Hno.
    apply elem_of_list_to_set, list_elem_of_fmap. eauto.
Qed.

Lemma planner_in_sync_plans_no_file_witness :
  getUnExportedFiles [file_2_in_1]
    {| version := Some 3; lastAttemptTimestamp := Some None;
       stage := Some ExportStage.FINISHED;
       fileExportNames := Some {[ "2_1_1" := "b.jpg" ]};
       collectionExportNames := Some ∅ |} = []
  ∧ getDeletedExportedFiles [file_2_in_1]
      {| version := Some 3; lastAttemptTimestamp := Some None;
         stage := Some ExportStage.FINISHED;
         fileExportNames := Some {[ "2_1_1" := "b.jpg" ]};
         collectionExportNames := Some ∅ |} = [].
Proof.
  apply planner_in_sync_plans_no_file.
  - intros f ->%list_elem_of_singleton.
    exists {[ "2_1_1" := "b.jpg" ]}, "b.jpg". split; reflexivity.
  - intros u (names & n & [= <-] & Hn).
    apply lookup_singleton_Some in Hn as [<- _].
    exists file_2_in_1. split; [apply list_elem_of_singleton|]; reflexivity.
Defined.

Section planner_more.
Variable getCollectionUserFacingName : Collection → string.

(** X4. A collection of the inventory is selected for rename exactly when
    the journal records a directory name for it that is neither its
    user-facing name nor that name followed by a numbered suffix [(k)]. *)
Theorem getRenamedExportedCollections_exact
    (collections : list Collection) (exportRecord : ExportRecord)
    (c : Collection) :
  c ∈ getRenamedExportedCollections getCollectionUserFacingName
        collections exportRecord
  ↔ c ∈ collections
    ∧ ∃ names recordedName,
        collectionExportNames exportRecord = Some names
        ∧ names !! Collection.id c = Some recordedName
        ∧ recordedName ≠ getCollectionUserFacingName c
        ∧ ¬ numbered (getCollectionUserFacingName c) recordedName.
Proof.
  unfold getRenamedExportedCollections.
  destruct (collectionExportNames exportRecord) as [names|].
  - rewrite list_elem_of_In, filter_In, <- list_elem_of_In. cbn.
    split.
    + intros [Hc Hsel]. split; [done|].
      destruct (names !! Collection.id c) as [recorded|] eqn:En; [|done].
      exists names, recorded. split_and!; [done..| |].
      * destruct (String.eqb_spec recorded (getCollectionUserFacingName c));
          [done|done].
      * intros [[n Hm] Hr]%(replace_numbered).
        rewrite Hm, Hr, String.eqb_refl in Hsel.
        by destruct (String.eqb recorded (getCollectionUserFacingName c)).
    + intros [Hc (names' & recorded & [= <-] & -> & Hne & Hnum)].
      split; [done|].
      destruct (String.eqb_spec recorded (getCollectionUserFacingName c))
        as [|_]; [done|].
      destruct (NumberedSuffix.match_ recorded) as [n|] eqn:Em.
      * apply negb_true_iff, String.eqb_neq. intros Heq. apply Hnum.
        rewrite Heq. apply match_numbered. by rewrite Em.
      * apply negb_true_iff, String.eqb_neq. congruence.
  - split; [by intros ?%elem_of_nil|]. by intros [_ (? & ? & ? & _)].
Qed.
End planner_more.

(** X5. For a file, its UID is among the exported files of a collection
    exactly when the journal has an entry for the UID and the collection
    is the file's. *)
Theorem getCollectionExportedFiles_of_uid
    (exportRecord : ExportRecord) (collectionID : Z) (file : EnteFile) :
  getExportRecordFileUID file
    ∈ getCollectionExportedFiles exportRecord collectionID
  ↔ recorded_file exportRecord (getExportRecordFileUID file)
    ∧ EnteFile.collectionID file = collectionID.
Proof.
  unfold getCollectionExportedFiles, recorded_file.
  destruct (fileExportNames exportRecord) as [names|].
  - rewrite list_elem_of_In, filter_In, <- list_elem_of_In, elem_of_keys.
    rewrite uid_parts. cbn. rewrite Number_of_string_toString.
    rewrite bool_decide_eq_true. split.
    + intros [[n Hn] [= <-]]. eauto.
    + intros [(names' & n & [= <-] & Hn) <-]. eauto.
  - split; [by intros ?%elem_of_nil|]. by intros [(? & ? & ? & _) _].
Qed.

(** X6. Two files have the same UID only when they agree on id,
    collection id and updation time: distinct versions of a file, and the
    copies of a file in distinct collections, have distinct journal
    keys. *)
Theorem getExportRecordFileUID_inj (f g : EnteFile) :
  getExportRecordFileUID f = getExportRecordFileUID g →
  EnteFile.id f = EnteFile.id g
  ∧ EnteFile.collectionID f = EnteFile.collectionID g
  ∧ EnteFile.updationTime f = EnteFile.updationTime g.
Proof.
  intros H. apply (f_equal (Str.split "_")) in H.
  rewrite !uid_parts in H. injection H as H1 H2 H3.
  by repeat split; apply Number_toString_inj.
Qed.

(** Two listings of the same version of a file, with different titles. *)
Lemma getExportRecordFileUID_inj_witness :
  EnteFile.id file_1_in_1 = 1
  ∧ EnteFile.collectionID file_1_in_1 = 1
  ∧ EnteFile.updationTime file_1_in_1 = 1.
Proof.
  apply (getExportRecordFileUID_inj file_1_in_1
           {| EnteFile.id := 1; EnteFile.collectionID := 1;
              EnteFile.updationTime := 1; EnteFile.ownerID := 7;
              EnteFile.metadata :=
                {| Metadata.title := "renamed.jpg"; Metadata.creationTime := 0;
                   Metadata.modificationTime := None;
                   Metadata.latitude := None; Metadata.longitude := None;
                   Metadata.fileType := IMAGE |};
              EnteFile.caption := None |}).
  reflexivity.
Defined.
(** * Export names and paths *)

Lemma prefix_empty (s : string) : String.prefix EmptyString s = true.
Proof. by destruct s. Qed.

Lemma prefix_String (c d : ascii) (p s : string) :
  String.prefix (String c p) (String d s)
  = if Ascii.eqb c d then String.prefix p s else false.
Proof.
  change (String.prefix (String c p) (String d s))
    with (if ascii_dec c d then String.prefix p s else false).
  destruct (ascii_dec c d) as [->|Hne].
  - by rewrite Ascii.eqb_refl.
  - apply Ascii.eqb_neq in Hne. by rewrite Hne.
Qed.

Lemma prefix_app (p b : string) : String.prefix p (p +:+ b) = true.
Proof.
  induction p as [|c r IH]; [apply prefix_empty|].
  by rewrite app_String, prefix_String, Ascii.eqb_refl.
Qed.

Lemma drop_app (p b : string) : Str.drop (String.length p) (p +:+ b) = b.
Proof. induction p as [|c r IH]; [by destruct b|]. by rewrite app_String. Qed.

Lemma remove_first_prefix (p b : string) : Str.remove_first p (p +:+ b) = b.
Proof.
  destruct p as [|c r].
  - rewrite app_empty. by destruct b.
  - rewrite app_String. cbn [Str.remove_first].
    rewrite <- app_String, prefix_app. apply drop_app.
Qed.

(** A name without slash that starts a text with a slash further on
    starts the text before that slash. *)
Lemma prefix_before_slash (name a t : string) :
  Str.lacks "/" name = true →
  String.prefix name (a +:+ String "/" t) = true →
  String.prefix name a = true.
Proof.
  revert a. induction name as [|c n IH]; [intros; apply prefix_empty|].
  intros a [Hc Hn]%andb_prop. destruct a as [|d a].
  - rewrite app_empty, prefix_String.
    by destruct (Ascii.eqb c "/").
  - rewrite app_String, !prefix_String.
    destruct (Ascii.eqb c d); [|done]. by apply IH.
Qed.

Lemma remove_first_last (name a : string) :
  Str.lacks "/" name = true →
  String_includes (String "/" name) a = false →
  Str.remove_first (String "/" name) (a +:+ String "/" name) = a.
Proof.
  intros Hname. induction a as [|c r IH].
  - intros _. rewrite app_empty.
    rewrite <- (app_empty_r (String "/" name)) at 2.
    apply remove_first_prefix.
  - cbn [String_includes]. intros [Hp Hi]%orb_false_elim.
    rewrite app_String. cbn [Str.remove_first].
    assert (Hp' : String.prefix (String "/" name)
                    (String c (r +:+ String "/" name)) = false).
    { rewrite prefix_String in Hp |- *.
      destruct (Ascii.eqb "/" c); [|done].
      apply not_true_is_false. intros H. apply not_true_iff_false in Hp.
      apply Hp. by eapply prefix_before_slash. }
    rewrite Hp'. by rewrite IH.
Qed.

Lemma split_app_any (sep : ascii) (a b : string) :
  ∃ l, Str.split sep (a +:+ String sep b) = l ++ Str.split sep b ∧ l ≠ [].
Proof.
  induction a as [|c r (l & IH & Hl)].
  - exists [EmptyString]. rewrite app_empty. cbn. by rewrite Ascii.eqb_refl.
  - rewrite app_String. cbn. rewrite IH. destruct (Ascii.eqb c sep).
    + by exists (EmptyString :: l).
    + destruct l as [|p l]; [done|]. by exists (String c p :: l).
Qed.

Lemma last_split_app (sep : ascii) (a name : string) :
  Str.lacks sep name = true →
  last (Str.split sep (a +:+ String sep name)) = Some name.
Proof.
  intros H. destruct (split_app_any sep a name) as (l & -> & _).
  by rewrite last_app, split_lacks.
Qed.

Lemma parse_live_photo_name (imageExportName videoExportName : string) :
  JSON.parse (getLivePhotoExportName imageExportName videoExportName)
  = Some (JSON.JObject [("image", JSON.JString imageExportName);
                        ("video", JSON.JString videoExportName)]).
Proof. apply JSONFacts.parse_stringify. Qed.

(** X7. The name of a live photo round-trips: the name built from the
    export names of the image and of the video is recognised as a live
    photo name and parses back to those two names. *)
Theorem parseLivePhotoExportName_getLivePhotoExportName
    (imageExportName videoExportName : string) :
  parseLivePhotoExportName
    (getLivePhotoExportName imageExportName videoExportName)
  = inr (Some (JSON.JString imageExportName),
         Some (JSON.JString videoExportName))
  ∧ isLivePhotoExportName
      (getLivePhotoExportName imageExportName videoExportName) = true.
Proof.
  unfold parseLivePhotoExportName, isLivePhotoExportName.
  by rewrite parse_live_photo_name.
Qed.

(** X8. The sidecar path derived from the path of an exported file is the
    path at which the sidecar was written, provided the file name has no
    slash and does not occur, after a slash, in the path of the
    collection directory. *)
Theorem getMetadataFileExportPath_of_export_path
    (collectionExportPath fileExportName : string) :
  Str.lacks "/" fileExportName = true →
  String_includes ("/" +:+ fileExportName) collectionExportPath = false →
  getMetadataFileExportPath (collectionExportPath +:+ "/" +:+ fileExportName)
  = getFileMetadataExportPath collectionExportPath fileExportName.
Proof.
  intros Hname Hinc.
  unfold getMetadataFileExportPath, getFileMetadataExportPath.
  change ("/" +:+ fileExportName) with (String "/" fileExportName) in *.
  rewrite last_split_app by done. cbn [template default from_option id].
  change ("/" +:+ fileExportName) with (String "/" fileExportName).
  by rewrite remove_first_last.
Qed.

Lemma getMetadataFileExportPath_of_export_path_witness :
  getMetadataFileExportPath "/e/A/1.jpg" = "/e/A/metadata/1.jpg.json".
Proof.
  apply (getMetadataFileExportPath_of_export_path "/e/A" "1.jpg");
    reflexivity.
Defined.
(** ** Paths in the Trash *)

Lemma split_last_dot_app (s a b : string) :
  Str.split_last_dot s = Some (a, b) → s = a +:+ String "." b.
Proof.
  revert a. induction s as [|c r IH]; [done|]. intros a. cbn.
  destruct (Str.split_last_dot r) as [[a' b']|].
  - intros [= <- <-]. by rewrite app_String, <- (IH a').
  - destruct (Ascii.eqb_spec c "."); [|done]. intros [= <- <-]. by subst.
Qed.

Lemma Number_toString_nonempty (n : Z) :
  (0 < String.length (Number_toString n))%nat.
Proof.
  pose proof (Number_of_string_toString n) as H.
  destruct (Number_toString n) as [|c r] eqn:E; cbn; [|lia].
  assert (Hz := Number_of_string_toString 0).
  assert (Ho := Number_of_string_toString 1).
  destruct (decide (n = 0)) as [->|Hn].
  - clear H Hz Ho. by vm_compute in E.
  - cbn in H. congruence.
Qed.

(** The next candidate of the loop is longer than the path it replaces. *)
Lemma trashed_candidate_longer (trashedFilePath : string) (count : Z) :
  (String.length trashedFilePath
   < String.length
       match truthy (splitFilenameAndExtension trashedFilePath).2 with
       | Some ext =>
           (splitFilenameAndExtension trashedFilePath).1 +:+ "("
             +:+ Number_toString count +:+ ")." +:+ ext
       | None =>
           (splitFilenameAndExtension trashedFilePath).1 +:+ "("
             +:+ Number_toString count +:+ ")"
       end)%nat.
Proof.
  unfold splitFilenameAndExtension.
  destruct (Str.split_last_dot trashedFilePath) as [[stem ext]|] eqn:E.
  - apply split_last_dot_app in E as ->. cbn [fst snd truthy].
    destruct ext as [|c ext];
      rewrite !JSONFacts.length_app; cbn [String.length]; lia.
  - cbn [fst snd truthy]. rewrite !JSONFacts.length_app. cbn [String.length]. lia.
Qed.

Lemma exists_run (path : string) (w : Fs.World) :
  Fs.faults w (Fs.exists_ path) = None →
  exists_ path w
  = (Resolved (bool_decide (is_Some (Fs.nodes w !! path))),
     Fs.traced [Fs.Call (Fs.exists_ path)] w).
Proof. intros H. unfold exists_, electron.exists_, Async.call. cbn. by rewrite H. Qed.

Lemma getTrashedFileExportPath_loop_finds
    (fuel : nat) (trashedFilePath : string) (count : Z) (w : Fs.World) :
  (∀ path, Fs.faults w (Fs.exists_ path) = None) →
  (size (filter (λ path, String.length trashedFilePath ≤ String.length path)%nat
           (dom (Fs.nodes w))) < fuel)%nat →
  ∃ path w',
    getTrashedFileExportPath_loop fuel trashedFilePath count w
    = (Resolved path, w')
    ∧ Fs.nodes w' !! path = None
    ∧ same_folder w w'.
Proof.
  revert trashedFilePath count w.
  induction fuel as [|fuel IH]; intros p count w Hf Hsize; [lia|].
  cbn [getTrashedFileExportPath_loop].
  rewrite ServiceFacts.bind_run, exists_run by done.
  destruct (Fs.nodes w !! p) as [node|] eqn:Ep.
  - rewrite bool_decide_true by eauto. cbn zeta.
    set (p' := match truthy _ with Some _ => _ | None => _ end).
    destruct (IH p' (count + 1)
                (Fs.traced [Fs.Call (Fs.exists_ p)] w)) as (q & w' & E & Hq & Hs).
    + done.
    + cbn [Fs.nodes Fs.traced].
      assert (Hlt : (String.length p < String.length p')%nat)
        by apply trashed_candidate_longer.
      apply Nat.lt_le_trans with
        (size (filter (λ path, String.length p ≤ String.length path)%nat
                 (dom (Fs.nodes w)))); [|lia].
      apply subset_size. split.
      * intros x [Hx Hd]%elem_of_filter. apply elem_of_filter. split; [lia|done].
      * intros H.
        assert (Hp : p ∈ filter (λ path, String.length p' ≤ String.length path)%nat
                       (dom (Fs.nodes w))).
        { apply H, elem_of_filter. split; [lia|]. apply elem_of_dom. eauto. }
        apply elem_of_filter in Hp as [Hp _]. lia.
    + exists q, w'. split; [done|]. split; [done|].
      destruct Hs as (? & ? & ? & ?). by repeat split.
  - rewrite bool_decide_false by (by intros [? ?]).
    exists p, (Fs.traced [Fs.Call (Fs.exists_ p)] w).
    split; [done|]. split; [done|]. by repeat split.
Qed.

(** X9. The path for a file in the Trash mirrors its path in the export
    folder: a file at [exportDir/relative] goes to
    [exportDir/Trash/relative] when nothing exists at that path; the one
    call on the bridge is the probe of that path. *)
Theorem getTrashedFileExportPath_mirrors_path
    (fuel : nat) (exportDir relative : string) (w : Fs.World) :
  let trashedFilePath :=
    exportDir +:+ "/" +:+ exportTrashDirectoryName +:+ "/" +:+ relative in
  Fs.faults w (Fs.exists_ trashedFilePath) = None →
  Fs.nodes w !! trashedFilePath = None →
  getTrashedFileExportPath (S fuel) exportDir
    (exportDir +:+ "/" +:+ relative) w
  = (Resolved trashedFilePath,
     Fs.traced [Fs.Call (Fs.exists_ trashedFilePath)] w).
Proof.
  intros p Hf Hn. unfold getTrashedFileExportPath.
  rewrite <- (app_assoc_s exportDir "/" relative), remove_first_prefix.
  fold p.
  cbn [getTrashedFileExportPath_loop].
  rewrite ServiceFacts.bind_run, exists_run by done.
  rewrite Hn, bool_decide_false by (by intros [? ?]). done.
Qed.

Lemma getTrashedFileExportPath_mirrors_path_witness :
  getTrashedFileExportPath 1 "/e" "/e/A/2.jpg" folder_with_trashed_twice
  = (Resolved "/e/Trash/A/2.jpg",
     Fs.traced [Fs.Call (Fs.exists_ "/e/Trash/A/2.jpg")]
       folder_with_trashed_twice).
Proof.
  apply (getTrashedFileExportPath_mirrors_path 0 "/e" "A/2.jpg"
           folder_with_trashed_twice); reflexivity.
Defined.

(** X10. The allocation of a path in the Trash ends: when the probes do
    not fail, more iterations than there are entries in the export folder
    are never needed, the path returned is one at which nothing exists,
    and the export folder is left as it is. *)
Theorem getTrashedFileExportPath_finds_free_path
    (fuel : nat) (exportDir path : string) (w : Fs.World) :
  (∀ p, Fs.faults w (Fs.exists_ p) = None) →
  (size (Fs.nodes w) < fuel)%nat →
  ∃ trashedFilePath w',
    getTrashedFileExportPath fuel exportDir path w
    = (Resolved trashedFilePath, w')
    ∧ Fs.nodes w' !! trashedFilePath = None
    ∧ same_folder w w'.
Proof.
  intros Hf Hsize. unfold getTrashedFileExportPath.
  apply getTrashedFileExportPath_loop_finds; [done|].
  eapply Nat.le_lt_trans; [|exact Hsize].
  rewrite <- size_dom. apply subseteq_size.
  intros x [_ Hx]%elem_of_filter. done.
Qed.

Lemma getTrashedFileExportPath_finds_free_path_witness :
  ∃ trashedFilePath w',
    getTrashedFileExportPath 4 "/e" "/e/A/1.jpg" folder_with_trashed_twice
    = (Resolved trashedFilePath, w')
    ∧ Fs.nodes w' !! trashedFilePath = None
    ∧ same_folder folder_with_trashed_twice w'.
Proof.
  apply (getTrashedFileExportPath_finds_free_path 4 "/e" "/e/A/1.jpg"
           folder_with_trashed_twice).
  - reflexivity.
  - vm_compute. lia.
Defined.
(** ** Sidecars *)

Section sidecar.
Variable formatDateTimeShort : Z → string.

(** X11. The sidecar of a file is a JSON text that reads back: its
    [title] is the export name, its creation timestamp is the creation
    time in seconds (rounded down), and its modification timestamp is
    the modification time in seconds or, for a file without
    modification time, the creation timestamp. *)
Theorem getGoogleLikeMetadataFile_reads_back
    (fileExportName : string) (file : EnteFile) :
  ∃ v,
    JSON.parse (getGoogleLikeMetadataFile formatDateTimeShort
                  fileExportName file) = Some v
    ∧ JSON.get "title" v = Some (JSON.JString fileExportName)
    ∧ JSON.get "creationTime" v ≫= JSON.get "timestamp"
      = Some (JSON.JNumber
                (Metadata.creationTime (EnteFile.metadata file) / 1000000) 0)
    ∧ JSON.get "modificationTime" v ≫= JSON.get "timestamp"
      = Some (JSON.JNumber
                (match Metadata.modificationTime (EnteFile.metadata file) with
                 | Some t => t / 1000000
                 | None =>
                     Metadata.creationTime (EnteFile.metadata file) / 1000000
                 end) 0).
Proof.
  unfold getGoogleLikeMetadataFile.
  eexists. split; [apply JSONFacts.parse_stringify2|].
  destruct file as [? ? ? ? [? ? [m|] [lat|] [lon|] ?] [c|]]; cbn;
    split_and!; reflexivity.
Qed.
End sidecar.
(** * Further properties of the journal *)

Section journal_more.
Import CodecFacts ServiceFacts.
Variable folder : string.

Lemma verifyExportFolderExists_missing (w : Fs.World) :
  ¬ folder_present folder w → Fs.faults w (Fs.exists_ folder) = None →
  verifyExportFolderExists folder w
  = (Rejected {| message := CustomError.EXPORT_FOLDER_DOES_NOT_EXIST |},
     if String.eqb folder EmptyString then w
     else Fs.traced [Fs.Call (Fs.exists_ folder)] w).
Proof.
  intros Hp Hf. unfold verifyExportFolderExists, exportFolderExists.
  destruct (String.eqb_spec folder EmptyString) as [|Hne]; [done|].
  rewrite try_catch_run, bind_run, exists_run by done.
  rewrite bool_decide_false; [done|].
  intros H. apply Hp. by split.
Qed.

Lemma getExportRecord_missing (retry : bool) (w : Fs.World) :
  ¬ folder_present folder w → Fs.faults w (Fs.exists_ folder) = None →
  getExportRecord folder retry w
  = (Rejected {| message := CustomError.EXPORT_FOLDER_DOES_NOT_EXIST |},
     if String.eqb folder EmptyString then w
     else Fs.traced [Fs.Call (Fs.exists_ folder)] w).
Proof.
  intros Hp Hf. unfold getExportRecord, getExportRecord_once.
  rewrite bind_run, try_catch_run, bind_run.
  by rewrite verifyExportFolderExists_missing.
Qed.

Lemma updateExportRecord_missing (newData : ExportRecord) (w : Fs.World) :
  ¬ folder_present folder w → Fs.faults w (Fs.exists_ folder) = None →
  updateExportRecord folder newData w
  = (Rejected {| message := CustomError.EXPORT_FOLDER_DOES_NOT_EXIST |},
     if String.eqb folder EmptyString then w
     else Fs.traced [Fs.Call (Fs.exists_ folder)] w).
Proof.
  intros Hp Hf. unfold updateExportRecord, updateExportRecordHelper.
  rewrite try_catch_run, bind_run.
  by rewrite getExportRecord_missing.
Qed.

(** X12. Without an export folder (none is set, or the one that is set
    does not exist) every operation on the journal rejects with
    [EXPORT_FOLDER_DOES_NOT_EXIST]: the error reaches the caller
    unchanged, nothing is logged, nothing is written and no load is
    retried; at most the one probe of the folder is made. *)
Theorem journal_operations_without_folder
    (retry : bool) (newData : ExportRecord) (fileUID fileExportName : string)
    (collectionID : Z) (collectionExportName : option string)
    (w : Fs.World) :
  ¬ folder_present folder w → Fs.faults w (Fs.exists_ folder) = None →
  let e := {| message := CustomError.EXPORT_FOLDER_DOES_NOT_EXIST |} in
  let w' := if String.eqb folder EmptyString then w
            else Fs.traced [Fs.Call (Fs.exists_ folder)] w in
  verifyExportFolderExists folder w = (Rejected e, w')
  ∧ getExportRecord folder retry w = (Rejected e, w')
  ∧ updateExportRecord folder newData w = (Rejected e, w')
  ∧ addFileExportedRecord folder fileUID fileExportName w = (Rejected e, w')
  ∧ removeFileExportedRecord folder fileUID w = (Rejected e, w')
  ∧ addCollectionExportedRecord folder collectionID collectionExportName w
    = (Rejected e, w')
  ∧ removeCollectionExportedRecord folder collectionID w = (Rejected e, w').
Proof.
  intros Hp Hf e w'. split_and!.
  - by apply verifyExportFolderExists_missing.
  - by apply getExportRecord_missing.
  - by apply updateExportRecord_missing.
  - unfold addFileExportedRecord.
    by rewrite try_catch_run, bind_run, getExportRecord_missing.
  - unfold removeFileExportedRecord.
    by rewrite try_catch_run, bind_run, getExportRecord_missing.
  - unfold addCollectionExportedRecord.
    by rewrite try_catch_run, bind_run, getExportRecord_missing.
  - unfold removeCollectionExportedRecord.
    by rewrite try_catch_run, bind_run, getExportRecord_missing.
Qed.

Lemma getExportRecord_loads_for_update (w : Fs.World) (r : ExportRecord) :
  folder_present folder w →
  Fs.faults w (Fs.exists_ folder) = None →
  Fs.faults w (Fs.exists_ (journalPath folder)) = None →
  Fs.faults w (Fs.readTextFile (journalPath folder)) = None →
  journal_of folder w = Some r →
  getExportRecord folder true w
  = (Resolved r,
     Fs.traced [Fs.Call (Fs.readTextFile (journalPath folder));
                Fs.Call (Fs.exists_ (journalPath folder));
                Fs.Call (Fs.exists_ folder)] w).
Proof.
  intros Hp Hf1 Hf2 Hf3 Hj.
  unfold getExportRecord, getExportRecord_once.
  rewrite bind_run, try_catch_run, bind_run.
  rewrite verifyExportFolderExists_ok by done.
  unfold journal_of in Hj. fold (journalPath folder).
  destruct (Fs.nodes w !! journalPath folder) as [[|text]|] eqn:En; try done.
  destruct (JSON.parse text) as [v|] eqn:Ev; [|done].
  injection Hj as <-.
  unfold mbind, Async_bind, Async.bind, exists_, electron.exists_,
    electron.readTextFile, Async.call.
  cbn -[JSON.parse]. rewrite Hf2. cbn -[JSON.parse].
  rewrite En. rewrite bool_decide_true by done.
  cbn -[JSON.parse]. rewrite Hf3, En, Ev. done.
Qed.

Lemma updateExportRecord_fails_on_write
    (newData r : ExportRecord) (failure : string) (w : Fs.World) :
  folder_present folder w →
  Fs.faults w (Fs.exists_ folder) = None →
  Fs.faults w (Fs.exists_ (journalPath folder)) = None →
  Fs.faults w (Fs.readTextFile (journalPath folder)) = None →
  Fs.faults w (Fs.saveFileToDisk (journalPath folder)) = Some failure →
  failure ≠ CustomError.EXPORT_FOLDER_DOES_NOT_EXIST →
  journal_of folder w = Some r →
  updateExportRecord folder newData w
  = (Rejected {| message := CustomError.UPDATE_EXPORTED_RECORD_FAILED |},
     Fs.traced
       [Fs.LogError "error updating Export Record" {| message := failure |};
        Fs.Call (Fs.saveFileToDisk (journalPath folder));
        Fs.Call (Fs.readTextFile (journalPath folder));
        Fs.Call (Fs.exists_ (journalPath folder));
        Fs.Call (Fs.exists_ folder)] w).
Proof.
  intros Hp Hf1 Hf2 Hf3 Hf4 Hne Hj.
  unfold updateExportRecord, updateExportRecordHelper.
  rewrite try_catch_run, bind_run, (getExportRecord_loads_for_update w r)
    by done.
  rewrite bind_run. fold (journalPath folder).
  unfold electron.saveFileToDisk, Async.call.
  cbn -[JSON.stringify2 journalPath String.eqb]. rewrite Hf4.
  cbn -[JSON.stringify2 journalPath String.eqb].
  apply String.eqb_neq in Hne. by rewrite Hne.
Qed.

(** X14. When the journal file cannot be written, an update rejects with
    [UPDATE_EXPORTED_RECORD_FAILED], one of the errors that abort a run,
    whatever the error of the write was; that error is logged and the
    journal file is left as it was. *)
Theorem updateExportRecord_write_failure
    (newData r : ExportRecord) (failure : string) (w : Fs.World) :
  folder_present folder w →
  Fs.faults w (Fs.exists_ folder) = None →
  Fs.faults w (Fs.exists_ (journalPath folder)) = None →
  Fs.faults w (Fs.readTextFile (journalPath folder)) = None →
  Fs.faults w (Fs.saveFileToDisk (journalPath folder)) = Some failure →
  failure ≠ CustomError.EXPORT_FOLDER_DOES_NOT_EXIST →
  journal_of folder w = Some r →
  let e := {| message := CustomError.UPDATE_EXPORTED_RECORD_FAILED |} in
  let w' :=
    Fs.traced
      [Fs.LogError "error updating Export Record" {| message := failure |};
       Fs.Call (Fs.saveFileToDisk (journalPath folder));
       Fs.Call (Fs.readTextFile (journalPath folder));
       Fs.Call (Fs.exists_ (journalPath folder));
       Fs.Call (Fs.exists_ folder)] w in
  updateExportRecord folder newData w = (Rejected e, w')
  ∧ is_fatal e = true
  ∧ journal_of folder w' = Some r.
Proof.
  intros Hp Hf1 Hf2 Hf3 Hf4 Hne Hj e w'. split_and!; [|done|done].
  unfold updateExportRecord, updateExportRecordHelper.
  rewrite try_catch_run, bind_run, (getExportRecord_loads_for_update w r)
    by done.
  rewrite bind_run. fold (journalPath folder).
  unfold electron.saveFileToDisk, Async.call.
  cbn -[JSON.stringify2 journalPath String.eqb]. rewrite Hf4.
  cbn -[JSON.stringify2 journalPath String.eqb].
  apply String.eqb_neq in Hne. by rewrite Hne.
Qed.

(** X15. Recording a file in an export folder that exists, when no
    call fails and the journal file holds a journal of the declared
    type: after [addFileExportedRecord] the journal maps the
    UID to the export name and keeps every other entry and every other
    property; a journal without [fileExportNames] gets one. *)
Theorem addFileExportedRecord_records
    (fileUID fileExportName : string) (r : ExportRecord) (w : Fs.World) :
  folder_present folder w → journal_reliable folder w →
  journal_holds folder w r →
  ∃ w' r' names',
    addFileExportedRecord folder fileUID fileExportName w = (Resolved (), w')
    ∧ journal_of folder w' = Some r'
    ∧ fileExportNames r' = Some names'
    ∧ names' !! fileUID = Some fileExportName
    ∧ (∀ other, other ≠ fileUID →
         names' !! other = default ∅ (fileExportNames r) !! other)
    ∧ version r' = version r
    ∧ lastAttemptTimestamp r' = lastAttemptTimestamp r
    ∧ stage r' = stage r
    ∧ collectionExportNames r' = collectionExportNames r
    ∧ frame [journalPath folder] w w'.
Proof.
  intros Hp Hr Hj%journal_holds_reads.
  destruct (addFileExportedRecord_saves folder fileUID fileExportName r w)
    as (w' & E & Hj' & Hfr); [done..|].
  eexists w', _, _. split; [exact E|]. split; [exact Hj'|].
  split; [reflexivity|]. split; [apply lookup_insert_eq|].
  split; [intros other Hne; by apply lookup_insert_ne|].
  by split_and!.
Qed.

(** X16. Recording a file and removing the record again (the rollback
    of a failed write) gives back the journal as it was, when the
    export folder exists, no call fails and the journal file holds a
    journal of the declared type that has the property
    [fileExportNames], without an entry for the UID. *)
Theorem addFileExportedRecord_removeFileExportedRecord
    (fileUID fileExportName : string) (r : ExportRecord)
    (names : gmap string string) (w : Fs.World) :
  folder_present folder w → journal_reliable folder w →
  journal_holds folder w r →
  fileExportNames r = Some names →
  names !! fileUID = None →
  ∃ w1 w2,
    addFileExportedRecord folder fileUID fileExportName w = (Resolved (), w1)
    ∧ removeFileExportedRecord folder fileUID w1 = (Resolved (), w2)
    ∧ journal_of folder w2 = Some r
    ∧ frame [journalPath folder] w w2.
Proof.
  intros Hp Hr Hj%journal_holds_reads Hnames Hfresh.
  destruct (addFileExportedRecord_saves folder fileUID fileExportName r w)
    as (w1 & E1 & Hj1 & Hfr1); [done..|].
  edestruct (removeFileExportedRecord_saves folder fileUID) with (w := w1)
    as (w2 & E2 & Hj2 & Hfr2).
  - eapply frame_present; [done|apply folder_not_journal|done].
  - by eapply frame_reliable.
  - left. exact Hj1.
  - reflexivity.
  - exists w1, w2. split; [done|]. split; [done|].
    split; [|by eapply frame_trans].
    rewrite Hj2, Hnames. cbn. rewrite delete_insert_id by done.
    by destruct r; cbn in *; subst.
Qed.

(** X17. Removing the record of a file when the export folder exists,
    no call fails and the journal file holds a journal of the declared
    type that has no [fileExportNames] property fails with the [TypeError] of [Object.entries(undefined)];
    the error is logged, it is not one that aborts a run, and the
    journal is not written. *)
Theorem removeFileExportedRecord_without_names
    (fileUID : string) (r : ExportRecord) (w : Fs.World) :
  folder_present folder w → journal_reliable folder w →
  journal_holds folder w r →
  fileExportNames r = None →
  let e := {| message := "Cannot convert undefined or null to object" |} in
  let w' :=
    Fs.traced
      [Fs.LogError "removeFileExportedRecord failed" e;
       Fs.Call (Fs.readTextFile (journalPath folder));
       Fs.Call (Fs.exists_ (journalPath folder));
       Fs.Call (Fs.exists_ folder)] w in
  removeFileExportedRecord folder fileUID w = (Rejected e, w')
  ∧ is_fatal e = false.
Proof.
  intros Hp Hr Hj%journal_holds_of Hnames e w'. split; [|done].
  unfold removeFileExportedRecord.
  rewrite try_catch_run, bind_run, (getExportRecord_loads folder true w r)
    by done.
  by rewrite Hnames.
Qed.

(** X18. Removing the record of a collection and recording it again with
    the name the journal had for it (the rollback of a failed removal)
    gives back the journal as it was, when the export folder exists,
    no call fails and the journal file holds a journal of the declared
    type that has the property [collectionExportNames], with or without
    an entry for the collection. *)
Theorem removeCollectionExportedRecord_addCollectionExportedRecord
    (collectionID : Z) (r : ExportRecord) (names : gmap Z string)
    (w : Fs.World) :
  folder_present folder w → journal_reliable folder w →
  journal_holds folder w r →
  collectionExportNames r = Some names →
  ∃ w1 w2,
    removeCollectionExportedRecord folder collectionID w = (Resolved (), w1)
    ∧ addCollectionExportedRecord folder collectionID
        (names !! collectionID) w1 = (Resolved (), w2)
    ∧ journal_of folder w2 = Some r
    ∧ frame [journalPath folder] w w2.
Proof.
  intros Hp Hr Hj%journal_holds_reads Hnames.
  destruct (removeCollectionExportedRecord_saves folder collectionID r names w)
    as (w1 & E1 & Hj1 & Hfr1); [done..|].
  edestruct (addCollectionExportedRecord_saves folder collectionID
               (names !! collectionID)) with (w := w1)
    as (w2 & E2 & Hj2 & Hfr2).
  - eapply frame_present; [done|apply folder_not_journal|done].
  - by eapply frame_reliable.
  - left. exact Hj1.
  - exists w1, w2. split; [done|]. split; [done|].
    split; [|by eapply frame_trans].
    rewrite Hj2. cbn.
    destruct (names !! collectionID) as [name|] eqn:En.
    + rewrite insert_delete_eq, insert_id by done.
      by destruct r; cbn in *; subst.
    + rewrite delete_delete_eq, delete_id by done.
      by destruct r; cbn in *; subst.
Qed.
End journal_more.
Section journal_more_witnesses.
Import CodecFacts ServiceFacts.

Lemma journal_operations_without_folder_witness :
  getExportRecord "/e" true no_folder
  = (Rejected {| message := CustomError.EXPORT_FOLDER_DOES_NOT_EXIST |},
     Fs.traced [Fs.Call (Fs.exists_ "/e")] no_folder).
Proof.
  destruct (journal_operations_without_folder "/e" true emptyRecord
              "1_5_1" "a.jpg" 5 None no_folder) as (_ & H & _).
  - intros [_ [node H]]. discriminate H.
  - reflexivity.
  - exact H.
Defined.

Lemma updateExportRecord_write_failure_witness :
  (updateExportRecord "/e"
     {| version := None; lastAttemptTimestamp := None;
        stage := Some ExportStage.FINISHED;
        fileExportNames := None; collectionExportNames := None |}
     folder_with_failing_journal_write).1
  = Rejected {| message := CustomError.UPDATE_EXPORTED_RECORD_FAILED |}.
Proof.
  destruct (updateExportRecord_write_failure "/e"
              {| version := None; lastAttemptTimestamp := None;
                 stage := Some ExportStage.FINISHED;
                 fileExportNames := None; collectionExportNames := None |}
              journal_with_file_in_5 "disk full"
              folder_with_failing_journal_write) as (E & _ & _).
  - split; [discriminate|]. by eexists.
  - reflexivity.
  - reflexivity.
  - reflexivity.
  - reflexivity.
  - discriminate.
  - vm_compute. reflexivity.
  - rewrite E. reflexivity.
Defined.

Lemma addFileExportedRecord_records_witness :
  ∃ w' r' names',
    addFileExportedRecord "/e" "2_6_1" "b.jpg" folder_with_two_collections
    = (Resolved (), w')
    ∧ journal_of "/e" w' = Some r'
    ∧ fileExportNames r' = Some names'
    ∧ names' !! "2_6_1" = Some "b.jpg"
    ∧ names' !! "1_5_1" = Some "a.jpg".
Proof.
  destruct (addFileExportedRecord_records "/e" "2_6_1" "b.jpg"
              journal_with_file_in_5 folder_with_two_collections)
    as (w' & r' & names' & E & Hj & Hn & Hnew & Hold & _).
  - split; [discriminate|]. by eexists.
  - by repeat split.
  - eexists _, _. split; [reflexivity|].
    split; [vm_compute; reflexivity|]. split; vm_compute; reflexivity.
  - exists w', r', names'. split; [exact E|]. split; [exact Hj|].
    split; [exact Hn|]. split; [exact Hnew|].
    rewrite (Hold "1_5_1"); [reflexivity|discriminate].
Defined.

Lemma addFileExportedRecord_removeFileExportedRecord_witness :
  ∃ w1 w2,
    addFileExportedRecord "/e" "2_6_1" "b.jpg" folder_with_two_collections
    = (Resolved (), w1)
    ∧ removeFileExportedRecord "/e" "2_6_1" w1 = (Resolved (), w2)
    ∧ journal_of "/e" w2 = Some journal_with_file_in_5.
Proof.
  destruct (addFileExportedRecord_removeFileExportedRecord "/e" "2_6_1" "b.jpg"
              journal_with_file_in_5 {[ "1_5_1" := "a.jpg" ]}
              folder_with_two_collections)
    as (w1 & w2 & E1 & E2 & Hj & _).
  - split; [discriminate|]. by eexists.
  - by repeat split.
  - eexists _, _. split; [reflexivity|].
    split; [vm_compute; reflexivity|]. split; vm_compute; reflexivity.
  - reflexivity.
  - reflexivity.
  - exists w1, w2. split; [exact E1|]. split; [exact E2|exact Hj].
Defined.

Lemma removeFileExportedRecord_without_names_witness :
  (removeFileExportedRecord "/e" "1_5_1" folder_with_bare_journal).1
  = Rejected {| message := "Cannot convert undefined or null to object" |}.
Proof.
  destruct (removeFileExportedRecord_without_names "/e" "1_5_1" emptyRecord
              folder_with_bare_journal) as (E & _).
  - split; [discriminate|]. by eexists.
  - by repeat split.
  - eexists _, _. split; [reflexivity|].
    split; [vm_compute; reflexivity|]. split; vm_compute; reflexivity.
  - reflexivity.
  - rewrite E. reflexivity.
Defined.

Lemma removeCollectionExportedRecord_addCollectionExportedRecord_witness :
  ∃ w1 w2,
    removeCollectionExportedRecord "/e" 6 folder_with_two_collections
    = (Resolved (), w1)
    ∧ addCollectionExportedRecord "/e" 6 (Some "B") w1 = (Resolved (), w2)
    ∧ journal_of "/e" w2 = Some journal_with_file_in_5.
Proof.
  destruct (removeCollectionExportedRecord_addCollectionExportedRecord "/e" 6
              journal_with_file_in_5 (<[5 := "A"]> {[ 6 := "B" ]})
              folder_with_two_collections)
    as (w1 & w2 & E1 & E2 & Hj & _).
  - split; [discriminate|]. by eexists.
  - by repeat split.
  - eexists _, _. split; [reflexivity|].
    split; [vm_compute; reflexivity|]. split; vm_compute; reflexivity.
  - reflexivity.
  - exists w1, w2. split; [exact E1|]. split; [exact E2|exact Hj].
Defined.
End journal_more_witnesses.
(** * Saving files *)

Lemma file_path_ne_metadata_path (collectionExportPath fileExportName : string) :
  collectionExportPath +:+ "/" +:+ fileExportName
  ≠ getFileMetadataExportPath collectionExportPath fileExportName.
Proof.
  intros H. apply (f_equal String.length) in H.
  unfold getFileMetadataExportPath in H.
  rewrite !JSONFacts.length_app in H. cbn in H. lia.
Qed.

Lemma sidecar_titled_getGoogleLikeMetadataFile
    (formatDateTimeShort : Z → string) (fileExportName : string)
    (file : EnteFile) :
  sidecar_titled
    (Some (Fs.File (getGoogleLikeMetadataFile formatDateTimeShort
                      fileExportName file)))
    fileExportName.
Proof.
  eexists _, _. split; [reflexivity|].
  unfold getGoogleLikeMetadataFile.
  split; [apply JSONFacts.parse_stringify2|].
  by destruct file as [? ? ? ? [? ? ? [lat|] [lon|] ?] [c|]].
Qed.

Section downloader_facts.
Import CodecFacts ServiceFacts.
Variable safeFileName : string → string → Async string.
Variable decodeLivePhoto : EnteFile → string → Async LivePhoto.
Variable formatDateTimeShort : Z → string.
Variable getFile : EnteFile → Async string.
Variable getUpdatedEXIFFileForDownload : EnteFile → string → Async string.

(** X19. Exporting a file that is not a live photo into an export
    folder whose journal file holds a journal of the declared type, when
    no call fails: the journal records the export name under the file's
    UID, the file is written under that name in the collection
    directory and holds the stream that the EXIF updater returned, its
    sidecar is written beside it, a JSON text whose title is the export
    name, and nothing else changes in the export folder. The export
    folder exists; the download, the EXIF updater and the allocator
    resolve and leave the export folder as it is; neither path written
    is the journal file. *)
Theorem downloadAndSave_exports_file
    (exportDir collectionExportPath : string) (file : EnteFile)
    (originalFileStream updatedFileStream fileExportName : string)
    (r0 : ExportRecord) (w w0 w1 w2 : Fs.World) :
  let fileUID := getExportRecordFileUID file in
  let filePath := collectionExportPath +:+ "/" +:+ fileExportName in
  let metadataPath :=
    getFileMetadataExportPath collectionExportPath fileExportName in
  Metadata.fileType (EnteFile.metadata file) ≠ LIVE_PHOTO →
  resolves_to (getFile file) w originalFileStream w0 →
  resolves_to (getUpdatedEXIFFileForDownload file originalFileStream) w0
    updatedFileStream w1 →
  resolves_to
    (safeFileName collectionExportPath
       (Metadata.title (EnteFile.metadata file))) w1 fileExportName w2 →
  folder_present exportDir w →
  journal_holds exportDir w r0 →
  (∀ o, Fs.faults w o = None) →
  journalPath exportDir ∉ [metadataPath; filePath] →
  ∃ w',
    downloadAndSave safeFileName decodeLivePhoto formatDateTimeShort
      getFile getUpdatedEXIFFileForDownload
      exportDir collectionExportPath file w
    = (Resolved (), w')
    ∧ Fs.nodes w' !! filePath = Some (Fs.File updatedFileStream)
    ∧ sidecar_titled (Fs.nodes w' !! metadataPath) fileExportName
    ∧ journal_of exportDir w'
      = Some (with_fileExportNames r0
                (Some (<[fileUID := fileExportName]>
                         (default ∅ (fileExportNames r0)))))
    ∧ frame [journalPath exportDir; metadataPath; filePath] w w'.
Proof.
  intros fileUID filePath metadataPath Htype Hget Hexif Hname Hp
    Hj%journal_holds_reads Hok Hjp.
  assert (Hs : same_folder w w2).
  { destruct Hget as [_ (?&?&?&?)], Hexif as [_ (?&?&?&?)],
      Hname as [_ (?&?&?&?)]. repeat split; congruence. }
  destruct Hget as [Hget _], Hexif as [Hexif _], Hname as [Hname _].
  assert (Hf2 : Fs.faults w2 = Fs.faults w) by apply Hs.
  destruct (addFileExportedRecord_saves exportDir fileUID fileExportName r0 w2)
    as (w3 & E3 & Hj3 & Hfr3).
  { eapply frame_present; [by apply (same_folder_frame [])| |done].
    apply not_elem_of_nil. }
  { unfold journal_reliable. rewrite Hf2. by repeat split. }
  { eapply frame_reads; [by apply (same_folder_frame [])| |done].
    apply not_elem_of_nil. }
  assert (Hf3 : Fs.faults w3 = Fs.faults w).
  { destruct Hfr3 as (_ & -> & _). done. }
  set (w5 := Fs.with_nodes <[filePath := Fs.File updatedFileStream]>
               (Fs.traced [Fs.Call (Fs.saveStreamToDisk filePath)]
                  (Fs.with_nodes
                     <[metadataPath := Fs.File
                         (getGoogleLikeMetadataFile formatDateTimeShort
                            fileExportName file)]>
                     (Fs.traced [Fs.Call (Fs.saveFileToDisk metadataPath)]
                        w3)))).
  assert (Hfr5 : frame [metadataPath; filePath] w3 w5).
  { repeat split. intros p Hp'. cbn.
    rewrite !not_elem_of_cons in Hp'. destruct Hp' as (? & ? & _).
    by rewrite !lookup_insert_ne by done. }
  exists w5. split_and!.
  - unfold downloadAndSave.
    rewrite try_catch_run. cbn zeta.
    rewrite bind_run, Hget, bind_run, Hexif.
    rewrite decide_False by done.
    rewrite bind_run, Hname, bind_run. fold fileUID. rewrite E3.
    rewrite try_catch_run. unfold saveMetadataFile.
    rewrite bind_run, saveFileToDisk_ok by (rewrite Hf3; apply Hok).
    rewrite saveStreamToDisk_ok by (cbn; rewrite Hf3; apply Hok).
    reflexivity.
  - cbn. apply lookup_insert_eq.
  - cbn. rewrite lookup_insert_ne
      by apply file_path_ne_metadata_path.
    rewrite lookup_insert_eq.
    apply sidecar_titled_getGoogleLikeMetadataFile.
  - by rewrite (frame_journal _ _ _ _ Hfr5 Hjp).
  - destruct Hfr3 as (Hn3 & ? & ? & ?), Hs as (Hn & ? & ? & ?).
    repeat split; cbn; try congruence.
    intros p Hp'. rewrite !not_elem_of_cons in Hp'.
    destruct Hp' as (? & ? & ? & _).
    rewrite !lookup_insert_ne by done.
    rewrite Hn3 by (by intros ->%list_elem_of_singleton). by rewrite Hn.
Qed.

(** X20. Exporting a file that is not a live photo into an export
    folder whose journal file holds a journal of the declared type, when
    the write of the file fails after its sidecar was written and no
    other call fails: the journal entry recorded for the UID is removed
    again, the error of the write is logged and reaches the caller, the
    export path holds what it held before, and the sidecar, a JSON text
    whose title is the export name, stays where it was written. The
    export folder exists; the download, the EXIF updater and the
    allocator resolve and leave the export folder as it is; neither
    path is the journal file and the sidecar path is not the export
    folder. *)
Theorem downloadAndSave_rolls_back
    (exportDir collectionExportPath : string) (file : EnteFile)
    (originalFileStream updatedFileStream fileExportName failure : string)
    (r0 : ExportRecord) (w w0 w1 w2 : Fs.World) :
  let fileUID := getExportRecordFileUID file in
  let filePath := collectionExportPath +:+ "/" +:+ fileExportName in
  let metadataPath :=
    getFileMetadataExportPath collectionExportPath fileExportName in
  Metadata.fileType (EnteFile.metadata file) ≠ LIVE_PHOTO →
  resolves_to (getFile file) w originalFileStream w0 →
  resolves_to (getUpdatedEXIFFileForDownload file originalFileStream) w0
    updatedFileStream w1 →
  resolves_to
    (safeFileName collectionExportPath
       (Metadata.title (EnteFile.metadata file))) w1 fileExportName w2 →
  folder_present exportDir w →
  journal_holds exportDir w r0 →
  Fs.faults w (Fs.saveStreamToDisk filePath) = Some failure →
  (∀ o, o ≠ Fs.saveStreamToDisk filePath → Fs.faults w o = None) →
  journalPath exportDir ∉ [metadataPath; filePath] →
  exportDir ≠ metadataPath →
  ∃ w' r',
    downloadAndSave safeFileName decodeLivePhoto formatDateTimeShort
      getFile getUpdatedEXIFFileForDownload
      exportDir collectionExportPath file w
    = (Rejected {| message := failure |}, w')
    ∧ journal_of exportDir w' = Some r'
    ∧ ¬ recorded_file r' fileUID
    ∧ (∀ other, other ≠ fileUID →
         recorded_file r' other ↔ recorded_file r0 other)
    ∧ Fs.nodes w' !! filePath = Fs.nodes w !! filePath
    ∧ sidecar_titled (Fs.nodes w' !! metadataPath) fileExportName
    ∧ head (Fs.trace w')
      = Some (Fs.LogError "download and save failed" {| message := failure |}).
Proof.
  intros fileUID filePath metadataPath Htype Hget Hexif Hname Hp
    Hj%journal_holds_reads Hfail Hothers Hjp Hdir.
  assert (Hs : same_folder w w2).
  { destruct Hget as [_ (?&?&?&?)], Hexif as [_ (?&?&?&?)],
      Hname as [_ (?&?&?&?)]. repeat split; congruence. }
  destruct Hget as [Hget _], Hexif as [Hexif _], Hname as [Hname _].
  assert (Hf2 : Fs.faults w2 = Fs.faults w) by apply Hs.
  assert (Hrel : journal_reliable exportDir w).
  { repeat split; by apply Hothers. }
  destruct (addFileExportedRecord_saves exportDir fileUID fileExportName r0 w2)
    as (w3 & E3 & Hj3 & Hfr3).
  { eapply frame_present; [by apply (same_folder_frame [])| |done].
    apply not_elem_of_nil. }
  { unfold journal_reliable. by rewrite Hf2. }
  { eapply frame_reads; [by apply (same_folder_frame [])| |done].
    apply not_elem_of_nil. }
  assert (Hf3 : Fs.faults w3 = Fs.faults w).
  { destruct Hfr3 as (_ & -> & _). done. }
  set (r1 := with_fileExportNames r0 _) in Hj3.
  set (w5 := Fs.traced [Fs.Call (Fs.saveStreamToDisk filePath)]
               (Fs.with_nodes
                  <[metadataPath := Fs.File
                      (getGoogleLikeMetadataFile formatDateTimeShort
                         fileExportName file)]>
                  (Fs.traced [Fs.Call (Fs.saveFileToDisk metadataPath)] w3))).
  rewrite !not_elem_of_cons in Hjp. destruct Hjp as (Hjm & Hjf & _).
  assert (Hfr5 : frame [metadataPath] w3 w5).
  { repeat split. intros p Hp'. cbn.
    apply lookup_insert_ne. by intros <-; apply Hp', list_elem_of_singleton. }
  destruct (removeFileExportedRecord_saves exportDir fileUID r1
              (<[fileUID := fileExportName]> (default ∅ (fileExportNames r0)))
              w5)
    as (w6 & E6 & Hj6 & Hfr6).
  { split; [apply Hp|]. cbn. rewrite lookup_insert_ne by done.
    destruct Hfr3 as (Hn3 & _). rewrite Hn3 by apply folder_not_journal.
    destruct Hs as (-> & _). apply Hp. }
  { eapply frame_reliable; [exact Hfr5|]. eapply frame_reliable; [exact Hfr3|].
    unfold journal_reliable. by rewrite Hf2. }
  { left. rewrite (frame_journal _ _ _ _ Hfr5); [done|].
    by intros H%list_elem_of_singleton. }
  { done. }
  exists (Fs.record (Fs.LogError "download and save failed"
                       {| message := failure |}) w6),
    (with_fileExportNames r0
       (Some (delete fileUID (default ∅ (fileExportNames r0))))).
  split_and!.
  - unfold downloadAndSave.
    rewrite try_catch_run. cbn zeta.
    rewrite bind_run, Hget, bind_run, Hexif.
    rewrite decide_False by done.
    rewrite bind_run, Hname, bind_run. fold fileUID. rewrite E3.
    rewrite try_catch_run. unfold saveMetadataFile.
    rewrite bind_run, saveFileToDisk_ok
      by (rewrite Hf3; by apply Hothers).
    rewrite (saveStreamToDisk_fails _ _ failure) by (cbn; by rewrite Hf3).
    fold filePath metadataPath. fold w5.
    rewrite bind_run, E6. reflexivity.
  - change (journal_of exportDir (Fs.record _ w6))
      with (journal_of exportDir w6).
    rewrite Hj6. unfold r1. cbn. by rewrite delete_insert_eq.
  - intros (names & n & [= <-] & Hl). by rewrite lookup_delete_eq in Hl.
  - intros other Hne. unfold recorded_file. cbn. split.
    + intros (names & n & [= <-] & Hl). rewrite lookup_delete_ne in Hl by done.
      destruct (fileExportNames r0) as [names0|]; [eauto|].
      cbn in Hl. by rewrite lookup_empty in Hl.
    + intros (names & n & Hn & Hl). rewrite Hn. cbn.
      eexists _, n. split; [done|]. by rewrite lookup_delete_ne.
  - cbn. destruct Hfr6 as (Hn6 & _). rewrite Hn6.
    + cbn. destruct (decide (filePath = metadataPath)) as [Heq|Hne].
      { by apply file_path_ne_metadata_path in Heq. }
      rewrite lookup_insert_ne by done.
      destruct Hfr3 as (Hn3 & _), Hs as (Hn & _).
      rewrite Hn3 by (by intros ->%list_elem_of_singleton). by rewrite Hn.
    + by intros ->%list_elem_of_singleton.
  - cbn. destruct Hfr6 as (Hn6 & _). rewrite Hn6.
    + cbn. rewrite lookup_insert_eq.
      apply sidecar_titled_getGoogleLikeMetadataFile.
    + by intros ->%list_elem_of_singleton.
  - done.
Qed.
End downloader_facts.
Lemma downloadAndSave_exports_file_witness :
  ∃ w',
    downloadAndSave (NameAllocator.safeFileName 255 4)
      (λ _ _, mret live_photo) Number_toString
      (λ _, mret "bytes") (λ _ stream, mret stream)
      "/e" "/e/A" file_1_in_1 folder_with_one_directory
    = (Resolved (), w')
    ∧ Fs.nodes w' !! "/e/A/a.jpg" = Some (Fs.File "bytes")
    ∧ (fileExportNames <$> journal_of "/e" w')
      = Some (Some (<["1_1_1" := "a.jpg"]> {[ "1_5_1" := "a.jpg" ]})).
Proof.
  destruct (downloadAndSave_exports_file (NameAllocator.safeFileName 255 4)
              (λ _ _, mret live_photo) Number_toString
              (λ _, mret "bytes") (λ _ stream, mret stream)
              "/e" "/e/A" file_1_in_1 "bytes" "bytes" "a.jpg"
              journal_with_file_in_5
              folder_with_one_directory folder_with_one_directory
              folder_with_one_directory
              (Fs.traced [Fs.Call (Fs.exists_ "/e/A/a.jpg")]
                 folder_with_one_directory))
    as (w' & E & Hfile & _ & Hj & _).
  - discriminate.
  - by repeat split.
  - by repeat split.
  - by repeat split.
  - split; [discriminate|]. by eexists.
  - eexists _, _. split; [reflexivity|]. split; [vm_compute; reflexivity|].
    split; vm_compute; reflexivity.
  - reflexivity.
  - apply (bool_decide_unpack _). vm_compute. exact I.
  - exists w'. split; [exact E|]. split; [exact Hfile|].
    rewrite Hj. reflexivity.
Defined.

Lemma downloadAndSave_rolls_back_witness :
  ∃ w' r',
    downloadAndSave (NameAllocator.safeFileName 255 4)
      (λ _ _, mret live_photo) Number_toString
      (λ _, mret "bytes") (λ _ stream, mret stream)
      "/e" "/e/A" file_1_in_1 folder_with_failing_file_write
    = (Rejected {| message := "disk full" |}, w')
    ∧ journal_of "/e" w' = Some r'
    ∧ ¬ recorded_file r' "1_1_1".
Proof.
  destruct (downloadAndSave_rolls_back (NameAllocator.safeFileName 255 4)
              (λ _ _, mret live_photo) Number_toString
              (λ _, mret "bytes") (λ _ stream, mret stream)
              "/e" "/e/A" file_1_in_1 "bytes" "bytes" "a.jpg" "disk full"
              journal_with_file_in_5
              folder_with_failing_file_write folder_with_failing_file_write
              folder_with_failing_file_write
              (Fs.traced [Fs.Call (Fs.exists_ "/e/A/a.jpg")]
                 folder_with_failing_file_write))
    as (w' & r' & E & Hj & Hgone & _).
  - discriminate.
  - by repeat split.
  - by repeat split.
  - by repeat split.
  - split; [discriminate|]. by eexists.
  - eexists _, _. split; [reflexivity|]. split; [vm_compute; reflexivity|].
    split; vm_compute; reflexivity.
  - reflexivity.
  - intros o Ho. cbn. by rewrite decide_False.
  - apply (bool_decide_unpack _). vm_compute. exact I.
  - discriminate.
  - exists w', r'. split; [exact E|]. split; [exact Hj|exact Hgone].
Defined.
Lemma app_inv_head_s (a x y : string) : a +:+ x = a +:+ y → x = y.
Proof.
  induction a as [|c a IH]; [done|].
  rewrite !app_String. intros [= H]. by apply IH.
Qed.

Lemma app_inv_tail_s (x y t : string) : x +:+ t = y +:+ t → x = y.
Proof.
  revert y. induction x as [|c x IH]; intros [|d y] H.
  - done.
  - apply (f_equal String.length) in H.
    rewrite app_empty, JSONFacts.length_app in H. cbn in H. lia.
  - apply (f_equal String.length) in H.
    rewrite app_empty, JSONFacts.length_app in H. cbn in H. lia.
  - rewrite !app_String in H. injection H as -> H. f_equal. by apply IH.
Qed.

Lemma getFileMetadataExportPath_inj (collectionExportPath a b : string) :
  getFileMetadataExportPath collectionExportPath a
  = getFileMetadataExportPath collectionExportPath b → a = b.
Proof.
  unfold getFileMetadataExportPath.
  intros H. do 4 apply app_inv_head_s in H. by apply app_inv_tail_s in H.
Qed.

Section live_photo_more.
Import CodecFacts ServiceFacts.
Variable safeFileName : string → string → Async string.
Variable decodeLivePhoto : EnteFile → string → Async LivePhoto.
Variable formatDateTimeShort : Z → string.

(** X21. Exporting a live photo into an export folder whose journal
    file holds a journal of the declared type, when no call fails and
    the two allocated names differ: the image and the video are written
    under the two allocated names, each with a sidecar, a JSON text
    whose title is the asset's export name, and the journal records for
    the UID the live photo name that parses back to these two names.
    The export folder exists; the decoder and the allocator resolve and
    leave the export folder as it is; no asset is written at the path
    of the other asset's sidecar, and none of the four paths is the
    journal file. *)
Theorem exportLivePhoto_exports_both_assets
    (exportDir fileUID collectionExportPath fileStream : string)
    (file : EnteFile) (livePhoto : LivePhoto)
    (imageExportName videoExportName : string)
    (r0 : ExportRecord) (w w0 w1 w2 : Fs.World) :
  let imagePath := collectionExportPath +:+ "/" +:+ imageExportName in
  let videoPath := collectionExportPath +:+ "/" +:+ videoExportName in
  let imageMetadataPath :=
    getFileMetadataExportPath collectionExportPath imageExportName in
  let videoMetadataPath :=
    getFileMetadataExportPath collectionExportPath videoExportName in
  resolves_to (decodeLivePhoto file fileStream) w livePhoto w0 →
  resolves_to (safeFileName collectionExportPath (imageNameTitle livePhoto))
    w0 imageExportName w1 →
  resolves_to (safeFileName collectionExportPath (videoNameTitle livePhoto))
    w1 videoExportName w2 →
  folder_present exportDir w →
  journal_holds exportDir w r0 →
  (∀ o, Fs.faults w o = None) →
  imagePath ≠ videoPath →
  imagePath ≠ videoMetadataPath →
  imageMetadataPath ≠ videoPath →
  journalPath exportDir
    ∉ [imageMetadataPath; imagePath; videoMetadataPath; videoPath] →
  ∃ w' r' livePhotoExportName,
    exportLivePhoto safeFileName decodeLivePhoto formatDateTimeShort
      exportDir fileUID collectionExportPath fileStream file w
    = (Resolved (), w')
    ∧ Fs.nodes w' !! imagePath = Some (Fs.File (image livePhoto))
    ∧ Fs.nodes w' !! videoPath = Some (Fs.File (video livePhoto))
    ∧ sidecar_titled (Fs.nodes w' !! imageMetadataPath) imageExportName
    ∧ sidecar_titled (Fs.nodes w' !! videoMetadataPath) videoExportName
    ∧ journal_of exportDir w' = Some r'
    ∧ fileExportNames r'
      = Some (<[fileUID := livePhotoExportName]>
                (default ∅ (fileExportNames r0)))
    ∧ parseLivePhotoExportName livePhotoExportName
      = inr (Some (JSON.JString imageExportName),
             Some (JSON.JString videoExportName)).
Proof.
  intros imagePath videoPath imageMeta videoMeta
    Hdec Hname1 Hname2 Hp Hj%journal_holds_reads Hok Hiv Hivm Himv Hjp.
  assert (Hs : same_folder w w2).
  { destruct Hdec as [_ (?&?&?&?)], Hname1 as [_ (?&?&?&?)],
      Hname2 as [_ (?&?&?&?)]. repeat split; congruence. }
  destruct Hdec as [Hdec _], Hname1 as [Hname1 _], Hname2 as [Hname2 _].
  assert (Hf2 : Fs.faults w2 = Fs.faults w) by apply Hs.
  destruct (addFileExportedRecord_saves exportDir fileUID
              (getLivePhotoExportName imageExportName videoExportName) r0 w2)
    as (w3 & E3 & Hj3 & Hfr3).
  { eapply frame_present; [by apply (same_folder_frame [])| |done].
    apply not_elem_of_nil. }
  { unfold journal_reliable. rewrite Hf2. by repeat split. }
  { eapply frame_reads; [by apply (same_folder_frame [])| |done].
    apply not_elem_of_nil. }
  assert (Hf3 : Fs.faults w3 = Fs.faults w).
  { destruct Hfr3 as (_ & -> & _). done. }
  set (w7 := Fs.with_nodes <[videoPath := Fs.File (video livePhoto)]>
               (Fs.traced [Fs.Call (Fs.saveStreamToDisk videoPath)]
               (Fs.with_nodes
                  <[videoMeta := Fs.File
                      (getGoogleLikeMetadataFile formatDateTimeShort
                         videoExportName file)]>
                  (Fs.traced [Fs.Call (Fs.saveFileToDisk videoMeta)]
                     (Fs.with_nodes <[imagePath := Fs.File (image livePhoto)]>
                        (Fs.traced [Fs.Call (Fs.saveStreamToDisk imagePath)]
                           (Fs.with_nodes
                              <[imageMeta := Fs.File
                                  (getGoogleLikeMetadataFile formatDateTimeShort
                                     imageExportName file)]>
                              (Fs.traced [Fs.Call (Fs.saveFileToDisk imageMeta)]
                                 w3)))))))).
  assert (Hfr7 : frame [imageMeta; imagePath; videoMeta; videoPath] w3 w7).
  { repeat split. intros p Hp'. cbn.
    rewrite !not_elem_of_cons in Hp'. destruct Hp' as (? & ? & ? & ? & _).
    by rewrite !lookup_insert_ne by done. }
  eexists w7, _, (getLivePhotoExportName imageExportName videoExportName).
  split_and!.
  - unfold exportLivePhoto.
    rewrite bind_run, Hdec, bind_run, Hname1, bind_run, Hname2.
    cbn zeta. rewrite bind_run, E3, try_catch_run.
    unfold saveMetadataFile.
    rewrite bind_run, saveFileToDisk_ok by (rewrite Hf3; apply Hok).
    rewrite bind_run, saveStreamToDisk_ok by (cbn; rewrite Hf3; apply Hok).
    rewrite bind_run, saveFileToDisk_ok by (cbn; rewrite Hf3; apply Hok).
    rewrite try_catch_run, saveStreamToDisk_ok
      by (cbn; rewrite Hf3; apply Hok).
    reflexivity.
  - cbn. rewrite !lookup_insert_ne by done. apply lookup_insert_eq.
  - cbn. apply lookup_insert_eq.
  - cbn.
    rewrite (lookup_insert_ne _ videoPath)
      by (apply not_eq_sym; exact Himv).
    rewrite (lookup_insert_ne _ videoMeta).
    + rewrite lookup_insert_ne by apply file_path_ne_metadata_path.
      rewrite lookup_insert_eq.
      apply sidecar_titled_getGoogleLikeMetadataFile.
    + intros Heq%getFileMetadataExportPath_inj. apply Hiv.
      unfold imagePath, videoPath. by rewrite Heq.
  - cbn. rewrite lookup_insert_ne.
    + rewrite lookup_insert_eq.
      apply sidecar_titled_getGoogleLikeMetadataFile.
    + apply file_path_ne_metadata_path.
  - rewrite (frame_journal _ _ _ _ Hfr7 Hjp). exact Hj3.
  - reflexivity.
  - unfold parseLivePhotoExportName. by rewrite parse_live_photo_name.
Qed.
End live_photo_more.
Lemma exportLivePhoto_exports_both_assets_witness :
  ∃ w' r' livePhotoExportName,
    exportLivePhoto (NameAllocator.safeFileName 255 4)
      (λ _ _, mret live_photo) Number_toString
      "/e" "9_5_1" "/e/A" "blob" live_photo_file folder_with_one_directory
    = (Resolved (), w')
    ∧ Fs.nodes w' !! "/e/A/LP.HEIC" = Some (Fs.File "image bytes")
    ∧ Fs.nodes w' !! "/e/A/LP.MOV" = Some (Fs.File "video bytes")
    ∧ journal_of "/e" w' = Some r'
    ∧ fileExportNames r'
      = Some (<["9_5_1" := livePhotoExportName]> {[ "1_5_1" := "a.jpg" ]})
    ∧ parseLivePhotoExportName livePhotoExportName
      = inr (Some (JSON.JString "LP.HEIC"), Some (JSON.JString "LP.MOV")).
Proof.
  destruct (exportLivePhoto_exports_both_assets
              (NameAllocator.safeFileName 255 4)
              (λ _ _, mret live_photo) Number_toString
              "/e" "9_5_1" "/e/A" "blob" live_photo_file live_photo
              "LP.HEIC" "LP.MOV" journal_with_file_in_5
              folder_with_one_directory
              folder_with_one_directory
              (Fs.traced [Fs.Call (Fs.exists_ "/e/A/LP.HEIC")]
                 folder_with_one_directory)
              (Fs.traced [Fs.Call (Fs.exists_ "/e/A/LP.MOV");
                          Fs.Call (Fs.exists_ "/e/A/LP.HEIC")]
                 folder_with_one_directory))
    as (w' & r' & n & E & Hi & Hv & _ & _ & Hj & Hn & Hparse).
  - by repeat split.
  - by repeat split.
  - by repeat split.
  - split; [discriminate|]. by eexists.
  - eexists _, _. split; [reflexivity|]. split; [vm_compute; reflexivity|].
    split; vm_compute; reflexivity.
  - reflexivity.
  - discriminate.
  - discriminate.
  - discriminate.
  - apply (bool_decide_unpack _). vm_compute. exact I.
  - exists w', r', n. split; [exact E|]. split; [exact Hi|].
    split; [exact Hv|]. split; [exact Hj|]. split; [exact Hn|exact Hparse].
Defined.
(** * Removing collections *)

Section remover_more.
Import CodecFacts ServiceFacts.

Lemma deleteFolder_ok (path : string) (w : Fs.World) :
  Fs.faults w (Fs.deleteFolder path) = None →
  electron.deleteFolder path w
  = (Resolved (),
     Fs.with_nodes (delete path)
       (Fs.traced [Fs.Call (Fs.deleteFolder path)] w)).
Proof. intros H. unfold electron.deleteFolder, Async.call. cbn. by rewrite H. Qed.

Lemma deleteFolder_fails (path msg : string) (w : Fs.World) :
  Fs.faults w (Fs.deleteFolder path) = Some msg →
  electron.deleteFolder path w
  = (Rejected {| message := msg |},
     Fs.traced [Fs.Call (Fs.deleteFolder path)] w).
Proof. intros H. unfold electron.deleteFolder, Async.call. cbn. by rewrite H. Qed.

Lemma path_ne_metadata_folder (collectionExportPath : string) :
  collectionExportPath ≠ getMetadataFolderExportPath collectionExportPath.
Proof.
  intros H. apply (f_equal String.length) in H.
  unfold getMetadataFolderExportPath in H.
  rewrite !JSONFacts.length_app in H. cbn in H. lia.
Qed.

(** X22. Removing a collection when no call fails, the keys of the
    file names of the journal in memory are all file UIDs and none of
    them is of the collection, and the journal file holds a journal of
    the declared type with collection names: the journal entry of the
    collection is removed, then the metadata directory and the directory
    of the collection are deleted; the other journal entries and the
    rest of the export folder stay. The run is not cancelled, the
    export folder exists and neither directory is the journal file. *)
Theorem collectionRemover_removes_collection
    (exportFolder : string) (isCanceled : CancellationStatus)
    (exportRecord r0 : ExportRecord) (collectionIDPathMap names : gmap Z string)
    (collectionID : Z) (w : Fs.World) :
  let collectionExportPath :=
    exportFolder +:+ "/" +:+ template (collectionIDPathMap !! collectionID) in
  let metadataPath := getMetadataFolderExportPath collectionExportPath in
  isCanceled w = false →
  folder_present exportFolder w →
  (∀ o, Fs.faults w o = None) →
  file_keys_are_uids exportRecord →
  getCollectionExportedFiles exportRecord collectionID = [] →
  journal_holds exportFolder w r0 →
  collectionExportNames r0 = Some names →
  journalPath exportFolder ∉ [metadataPath; collectionExportPath] →
  ∃ w',
    collectionRemover_item exportFolder isCanceled exportRecord
      collectionIDPathMap collectionID w
    = (Resolved (), w')
    ∧ journal_of exportFolder w'
      = Some (with_collectionExportNames r0 (Some (delete collectionID names)))
    ∧ Fs.nodes w' !! collectionExportPath = None
    ∧ Fs.nodes w' !! metadataPath = None
    ∧ frame [journalPath exportFolder; metadataPath; collectionExportPath]
        w w'.
Proof.
  intros collectionExportPath metadataPath Hc Hp Hok _ Hempty
    Hj%journal_holds_reads Hnames Hjp.
  set (w1 := Fs.traced [Fs.Call (Fs.exists_ exportFolder)] w).
  destruct (removeCollectionExportedRecord_saves exportFolder collectionID
              r0 names w1) as (w2 & E2 & Hj2 & Hfr2); [done| |done|done|].
  { repeat split; apply Hok. }
  assert (Hf2 : Fs.faults w2 = Fs.faults w).
  { destruct Hfr2 as (_ & -> & _). done. }
  set (w4 := Fs.with_nodes (delete collectionExportPath)
               (Fs.traced [Fs.Call (Fs.deleteFolder collectionExportPath)]
                  (Fs.with_nodes (delete metadataPath)
                     (Fs.traced [Fs.Call (Fs.deleteFolder metadataPath)] w2)))).
  assert (Hfr4 : frame [metadataPath; collectionExportPath] w2 w4).
  { repeat split. intros p Hp'. cbn.
    rewrite !not_elem_of_cons in Hp'. destruct Hp' as (? & ? & _).
    by rewrite !lookup_delete_ne by done. }
  exists w4. split_and!.
  - unfold collectionRemover_item.
    rewrite try_catch_run, bind_run. unfold readStatus. rewrite Hc.
    rewrite bind_run, when_false.
    rewrite bind_run, verifyExportFolderExists_ok by done.
    cbn zeta. rewrite Hempty. cbn [length Nat.ltb Nat.leb].
    rewrite bind_run, when_false.
    fold collectionExportPath. fold w1.
    rewrite bind_run, E2, try_catch_run.
    fold metadataPath.
    rewrite bind_run, deleteFolder_ok by (rewrite Hf2; apply Hok).
    rewrite deleteFolder_ok by (cbn; rewrite Hf2; apply Hok).
    reflexivity.
  - by rewrite (frame_journal _ _ _ _ Hfr4 Hjp).
  - cbn. apply lookup_delete_eq.
  - cbn. rewrite lookup_delete_ne by apply path_ne_metadata_folder.
    apply lookup_delete_eq.
  - destruct Hfr2 as (Hn2 & ? & ? & ?).
    repeat split; cbn; try done.
    intros p Hp'. rewrite !not_elem_of_cons in Hp'.
    destruct Hp' as (? & ? & ? & _).
    rewrite !lookup_delete_ne by done.
    by rewrite Hn2 by (by intros H'%list_elem_of_singleton).
Qed.

(** X23. Removing a collection when the deletion of its directory
    fails with an error that is not fatal and no other call fails, the
    keys of the file names of the journal in memory are all file UIDs
    and none of them is of the collection, and the journal file holds a
    journal of the declared type with collection names: the journal
    entry that was removed first is recorded again under the name the
    collection had, the error is logged, and the loop goes on; but the
    metadata directory, deleted before the failure, is not restored.
    The run is not cancelled, the export folder exists, the names the
    phase works with are those of the journal, neither directory is
    the journal file and the metadata directory is not the export
    folder. *)
Theorem collectionRemover_restores_record
    (exportFolder : string) (isCanceled : CancellationStatus)
    (exportRecord r0 : ExportRecord) (names : gmap Z string)
    (collectionID : Z) (failure : string) (w : Fs.World) :
  let collectionExportPath :=
    exportFolder +:+ "/" +:+ template (names !! collectionID) in
  let metadataPath := getMetadataFolderExportPath collectionExportPath in
  isCanceled w = false →
  folder_present exportFolder w →
  Fs.faults w (Fs.deleteFolder collectionExportPath) = Some failure →
  (∀ o, o ≠ Fs.deleteFolder collectionExportPath → Fs.faults w o = None) →
  is_fatal {| message := failure |} = false →
  file_keys_are_uids exportRecord →
  getCollectionExportedFiles exportRecord collectionID = [] →
  journal_holds exportFolder w r0 →
  collectionExportNames r0 = Some names →
  journalPath exportFolder ∉ [metadataPath; collectionExportPath] →
  exportFolder ≠ metadataPath →
  ∃ w',
    collectionRemover_item exportFolder isCanceled exportRecord
      names collectionID w
    = (Resolved (), w')
    ∧ journal_of exportFolder w' = Some r0
    ∧ Fs.nodes w' !! collectionExportPath = Fs.nodes w !! collectionExportPath
    ∧ Fs.nodes w' !! metadataPath = None
    ∧ head (Fs.trace w')
      = Some (Fs.LogError "collectionRemover failed a collection"
                {| message := failure |}).
Proof.
  intros collectionExportPath metadataPath Hc Hp Hfail Hothers Hfatal _
    Hempty Hj%journal_holds_reads Hnames Hjp Hdir.
  rewrite !not_elem_of_cons in Hjp. destruct Hjp as (Hjm & Hjc & _).
  assert (Hne : collectionExportPath ≠ metadataPath)
    by apply path_ne_metadata_folder.
  assert (Hrel : journal_reliable exportFolder w).
  { repeat split; by apply Hothers. }
  set (w1 := Fs.traced [Fs.Call (Fs.exists_ exportFolder)] w).
  destruct (removeCollectionExportedRecord_saves exportFolder collectionID
              r0 names w1) as (w2 & E2 & Hj2 & Hfr2); [done..|].
  assert (Hf2 : Fs.faults w2 = Fs.faults w).
  { destruct Hfr2 as (_ & -> & _). done. }
  set (w4 := Fs.traced [Fs.Call (Fs.deleteFolder collectionExportPath)]
               (Fs.with_nodes (delete metadataPath)
                  (Fs.traced [Fs.Call (Fs.deleteFolder metadataPath)] w2))).
  assert (Hfr4 : frame [metadataPath] w2 w4).
  { repeat split. intros p Hp'. cbn.
    apply lookup_delete_ne. by intros <-; apply Hp', list_elem_of_singleton. }
  destruct (addCollectionExportedRecord_saves exportFolder collectionID
              (names !! collectionID)
              (with_collectionExportNames r0 (Some (delete collectionID names)))
              w4) as (w5 & E5 & Hj5 & Hfr5).
  { destruct Hp as [? Hex]. split; [done|]. cbn.
    rewrite lookup_delete_ne by done.
    destruct Hfr2 as (Hn2 & _). by rewrite Hn2 by apply folder_not_journal. }
  { eapply frame_reliable; [exact Hfr4|]. by eapply frame_reliable. }
  { left. rewrite (frame_journal _ _ _ _ Hfr4); [done|].
    by intros H%list_elem_of_singleton. }
  exists (Fs.record (Fs.LogError "collectionRemover failed a collection"
                       {| message := failure |}) w5).
  split_and!.
  - unfold collectionRemover_item.
    rewrite try_catch_run, bind_run. unfold readStatus. rewrite Hc.
    rewrite bind_run, when_false.
    rewrite bind_run, verifyExportFolderExists_ok by (done || by apply Hothers).
    cbn zeta. rewrite Hempty. cbn [length Nat.ltb Nat.leb].
    rewrite bind_run, when_false.
    fold collectionExportPath. fold w1.
    rewrite bind_run, E2, try_catch_run.
    fold metadataPath.
    rewrite bind_run, deleteFolder_ok
      by (rewrite Hf2; apply Hothers; by intros [= ?]).
    rewrite (deleteFolder_fails _ failure) by (cbn; by rewrite Hf2).
    fold w4. rewrite bind_run, E5.
    unfold Async.throw. rewrite bind_run. unfold log.error.
    by rewrite Hfatal.
  - change (journal_of exportFolder (Fs.record _ w5))
      with (journal_of exportFolder w5).
    rewrite Hj5. cbn.
    destruct (names !! collectionID) as [name|] eqn:En.
    + rewrite insert_delete_eq, insert_id by done.
      by destruct r0; cbn in *; subst.
    + rewrite delete_delete_eq, delete_id by done.
      by destruct r0; cbn in *; subst.
  - cbn. destruct Hfr5 as (Hn5 & _).
    rewrite Hn5 by (by intros H%list_elem_of_singleton). cbn.
    rewrite lookup_delete_ne by done.
    destruct Hfr2 as (Hn2 & _).
    by rewrite Hn2 by (by intros H%list_elem_of_singleton).
  - cbn. destruct Hfr5 as (Hn5 & _).
    rewrite Hn5 by (by intros H%list_elem_of_singleton). cbn.
    apply lookup_delete_eq.
  - done.
Qed.

(** X24. A removal phase that finds the run cancelled stops at once: the
    first collection throws [EXPORT_STOPPED], which is logged and
    aborts the loop; no call is made on the bridge and nothing changes
    in the export folder. *)
Theorem collectionRemover_loop_cancelled
    (exportFolder : string) (isCanceled : CancellationStatus)
    (exportRecord : ExportRecord) (collectionIDPathMap : gmap Z string)
    (collectionID : Z) (later : list Z) (w : Fs.World) :
  isCanceled w = true →
  let e := {| message := CustomError.EXPORT_STOPPED |} in
  collectionRemover_loop exportFolder isCanceled exportRecord
    collectionIDPathMap (collectionID :: later) w
  = (Rejected e,
     Fs.traced [Fs.LogError "collectionRemover failed a collection" e] w)
  ∧ is_fatal e = true.
Proof.
  intros Hc e. split; [|done].
  cbn [collectionRemover_loop]. rewrite bind_run.
  unfold collectionRemover_item.
  rewrite try_catch_run, bind_run. unfold readStatus. by rewrite Hc.
Qed.
End remover_more.
Section remover_more_witnesses.
Import CodecFacts ServiceFacts.

Lemma collectionRemover_removes_collection_witness :
  ∃ w',
    collectionRemover_item "/e" never_cancelled journal_with_file_in_5
      (<[5 := "A"]> {[ 6 := "B" ]}) 6 folder_with_two_collections
    = (Resolved (), w')
    ∧ (collectionExportNames <$> journal_of "/e" w')
      = Some (Some (delete 6 (<[5 := "A"]> {[ 6 := "B" ]})))
    ∧ Fs.nodes w' !! "/e/B" = None
    ∧ Fs.nodes w' !! "/e/B/metadata" = None.
Proof.
  destruct (collectionRemover_removes_collection "/e" never_cancelled
              journal_with_file_in_5 journal_with_file_in_5
              (<[5 := "A"]> {[ 6 := "B" ]}) (<[5 := "A"]> {[ 6 := "B" ]}) 6
              folder_with_two_collections)
    as (w' & E & Hj & Hdir & Hmeta & _).
  - reflexivity.
  - split; [discriminate|]. by eexists.
  - reflexivity.
  - intros names fileUID exportName [= <-] [<- _]%lookup_singleton_Some.
    by exists file_1_in_5.
  - vm_compute. reflexivity.
  - eexists _, _. split; [reflexivity|]. split; [vm_compute; reflexivity|].
    split; vm_compute; reflexivity.
  - reflexivity.
  - apply (bool_decide_unpack _). vm_compute. exact I.
  - exists w'. split; [exact E|]. split; [by rewrite Hj|].
    split; [exact Hdir|exact Hmeta].
Defined.

Lemma collectionRemover_restores_record_witness :
  ∃ w',
    collectionRemover_item "/e" never_cancelled journal_with_file_in_5
      (<[5 := "A"]> {[ 6 := "B" ]}) 6 folder_with_failing_directory_removal
    = (Resolved (), w')
    ∧ journal_of "/e" w' = Some journal_with_file_in_5
    ∧ Fs.nodes w' !! "/e/B" = Some Fs.Dir
    ∧ Fs.nodes w' !! "/e/B/metadata" = None.
Proof.
  destruct (collectionRemover_restores_record "/e" never_cancelled
              journal_with_file_in_5 journal_with_file_in_5
              (<[5 := "A"]> {[ 6 := "B" ]}) 6 "directory not empty"
              folder_with_failing_directory_removal)
    as (w' & E & Hj & Hdir & Hmeta & _).
  - reflexivity.
  - split; [discriminate|]. by eexists.
  - reflexivity.
  - intros o Ho. cbn. by rewrite decide_False.
  - reflexivity.
  - intros names fileUID exportName [= <-] [<- _]%lookup_singleton_Some.
    by exists file_1_in_5.
  - vm_compute. reflexivity.
  - eexists _, _. split; [reflexivity|]. split; [vm_compute; reflexivity|].
    split; vm_compute; reflexivity.
  - reflexivity.
  - apply (bool_decide_unpack _). vm_compute. exact I.
  - discriminate.
  - exists w'. split; [exact E|]. split; [exact Hj|].
    split; [exact Hdir|exact Hmeta].
Defined.

Lemma collectionRemover_loop_cancelled_witness :
  collectionRemover_loop "/e" cancelled journal_with_file_in_5
    (<[5 := "A"]> {[ 6 := "B" ]}) [5; 6] folder_with_two_collections
  = (Rejected {| message := CustomError.EXPORT_STOPPED |},
     Fs.traced
       [Fs.LogError "collectionRemover failed a collection"
          {| message := CustomError.EXPORT_STOPPED |}]
       folder_with_two_collections).
Proof.
  destruct (collectionRemover_loop_cancelled "/e" cancelled
              journal_with_file_in_5 (<[5 := "A"]> {[ 6 := "B" ]}) 5 [6]
              folder_with_two_collections) as (E & _).
  - reflexivity.
  - exact E.
Defined.
End remover_more_witnesses.
(** * Further properties of the scheduler *)

Section scheduler_more.
Import Scheduler.

Lemma enter_finally_exporting (n : nat) (s : State) (isCanceled : bool) :
  runs s !! n = Some {| status := isCanceled; position_of := Exporting |} →
  enter_finally n s
  = if isCanceled then
      match exportInProgress s with
      | None => call_postExport (set_run n (move PostExportCancelled) s)
      | Some _ => set_run n (move Returned) s
      end
    else call_postExport (set_run n (move PostExportNatural) s).
Proof. intros H. unfold enter_finally. by rewrite H. Qed.

Lemma leave_finally_cancelled (n : nat) (s : State) (isCanceled : bool) :
  runs s !! n
    = Some {| status := isCanceled; position_of := PostExportCancelled |} →
  leave_finally n s = set_run n (move Returned) s.
Proof. intros H. unfold leave_finally. by rewrite H. Qed.

(** X25. Stopping an export while the run in progress is exporting,
    that is, before it has left [preExport] and [runExport], and has not
    been cancelled: the canceller of the run is executed and removed, a
    pending re-run is dropped and [postExport] is called. When the
    cancelled run ends afterwards it calls [postExport] once more and
    queues no deferred call; but if a new run was started in the
    meantime, the cancelled run returns at once and leaves the canceller
    of the new run installed. (A stop that arrives later, while the run
    awaits its final [postExport], is not covered.) *)
Theorem stopRunningExport_cancels_run (s : State) (n : nat) :
  exportInProgress s = Some n →
  runs s !! n = Some {| status := false; position_of := Exporting |} →
  let s1 := stopRunningExport s in
  (exportInProgress s1 = None ∧ reRunNeeded s1 = false
   ∧ runs s1 !! n = Some {| status := true; position_of := Exporting |}
   ∧ postExports s1 = S (postExports s) ∧ timers s1 = timers s)
  ∧ (let s2 := leave_finally n (enter_finally n s1) in
     exportInProgress s2 = None ∧ reRunNeeded s2 = false
     ∧ runs s2 !! n = Some {| status := true; position_of := Returned |}
     ∧ postExports s2 = S (S (postExports s)) ∧ timers s2 = timers s)
  ∧ (let s2 := enter_finally n (scheduleExport s1) in
     exportInProgress s2 = Some (length (runs s))
     ∧ runs s2 !! n = Some {| status := true; position_of := Returned |}
     ∧ runs s2 !! length (runs s)
       = Some {| status := false; position_of := Exporting |}
     ∧ postExports s2 = S (postExports s) ∧ timers s2 = timers s).
Proof.
  intros Hin Hrun.
  assert (Hlt : (n < length (runs s))%nat) by by eapply lookup_lt_Some.
  unfold stopRunningExport. rewrite Hin. cbn zeta.
  cbn [set_run call_postExport exportInProgress reRunNeeded runs timers
         postExports].
  set (l1 := alter _ n (runs s)).
  assert (H1 : l1 !! n = Some {| status := true; position_of := Exporting |}).
  { unfold l1. rewrite list_lookup_alter_eq, Hrun. reflexivity. }
  assert (Hlen : length l1 = length (runs s)) by apply length_alter.
  split; [done|]. split.
  - rewrite (enter_finally_exporting n _ true) by exact H1.
    cbn [exportInProgress].
    rewrite (leave_finally_cancelled n _ true).
    + cbn. rewrite list_lookup_alter_eq, list_lookup_alter_eq, H1.
      by split_and!.
    + cbn. rewrite list_lookup_alter_eq, H1. reflexivity.
  - unfold scheduleExport. cbn [exportInProgress runs reRunNeeded timers postExports].
    rewrite (enter_finally_exporting n _ true).
    + cbn. rewrite Hlen. split_and!; try done.
      * rewrite list_lookup_alter_eq, lookup_app_l by lia. by rewrite H1.
      * rewrite list_lookup_alter_ne by lia.
        rewrite lookup_app_r by lia. by rewrite Hlen, Nat.sub_diag.
    + cbn. rewrite lookup_app_l by lia. exact H1.
Qed.

Lemma stopRunningExport_cancels_run_witness :
  let s :=
    stopRunningExport (scheduleExport (scheduleExport Scheduler.initial)) in
  exportInProgress s = None ∧ reRunNeeded s = false.
Proof.
  destruct (stopRunningExport_cancels_run
              (scheduleExport (scheduleExport Scheduler.initial)) 0)
    as ((H1 & H2 & _) & _).
  - reflexivity.
  - reflexivity.
  - split; [exact H1|exact H2].
Defined.
End scheduler_more.
Section scheduler_invariant.
Import Scheduler.

(** X26. Single flight along every execution: in each state the
    service reaches when the export is stopped only while the run in
    progress is exporting, a run that has not returned and was not
    cancelled is the run whose canceller is installed; so at most one
    such run exists, and none when no export is in progress. *)
Theorem reachable_single_flight (s : State) :
  reachable s →
  (∀ n r, runs s !! n = Some r → live r → exportInProgress s = Some n)
  ∧ (∀ n m r r', runs s !! n = Some r → runs s !! m = Some r' →
                 live r → live r' → n = m)
  ∧ (exportInProgress s = None → ∀ n r, runs s !! n = Some r → ¬ live r).
Proof.
  intros [Hlt Hinv]%reachable_canceller_tracks_runs.
  assert (H : ∀ n r, runs s !! n = Some r → live r →
                     exportInProgress s = Some n).
  { intros n r Hr [Hstatus Hpos].
    destruct (Hinv n r Hr) as [(? & _)|(_ & [?|(? & _)])];
      [done|done|congruence]. }
  split_and!.
  - exact H.
  - intros n m r r' Hr Hr' Hl Hl'.
    pose proof (H n r Hr Hl). pose proof (H m r' Hr' Hl'). congruence.
  - intros Hnone n r Hr Hl. pose proof (H n r Hr Hl). congruence.
Qed.

Lemma reachable_single_flight_witness :
  exportInProgress (scheduleExport (scheduleExport initial)) = Some 0%nat.
Proof.
  destruct (reachable_single_flight (scheduleExport (scheduleExport initial)))
    as (H & _).
  - eapply rtc_l; [apply step_trigger|].
    eapply rtc_l; [apply step_trigger|].
    apply rtc_refl.
  - apply (H 0%nat {| status := false; position_of := Exporting |}).
    + reflexivity.
    + split; [reflexivity|discriminate].
Defined.
End scheduler_invariant.
Section continuous_export.
Import ExportService.

Lemma toggle_listeners (s s' : t) :
  toggle s s' →
  listeners s = (if continuousExportEventHandler s then 1 else 0)%nat →
  listeners s' = (if continuousExportEventHandler s' then 1 else 0)%nat.
Proof.
  intros [s0|s0|s0] H;
    unfold enableContinuousExport, disableContinuousExport,
      LOCAL_FILES_UPDATED;
    destruct (continuousExportEventHandler s0) eqn:E; cbn;
    rewrite ?E; try done; by rewrite H.
Qed.

(** X27. Continuous export: enabling and disabling are idempotent;
    along every sequence of enabling, disabling and events from the
    initial state the handler is registered once while continuous
    export is enabled and not at all while it is disabled, so that an
    event calls [scheduleExport] exactly once or not at all; and
    enabling calls [scheduleExport] once. *)
Theorem continuous_export_registers_once (s : t) :
  rtc toggle initial s →
  enableContinuousExport (enableContinuousExport s)
  = enableContinuousExport s
  ∧ disableContinuousExport (disableContinuousExport s)
    = disableContinuousExport s
  ∧ listeners s = (if continuousExportEventHandler s then 1 else 0)%nat
  ∧ scheduler (LOCAL_FILES_UPDATED s)
    = (if continuousExportEventHandler s
       then Scheduler.scheduleExport (scheduler s) else scheduler s)
  ∧ scheduler (enableContinuousExport s)
    = (if continuousExportEventHandler s
       then scheduler s else Scheduler.scheduleExport (scheduler s))
  ∧ listeners (disableContinuousExport s) = 0%nat.
Proof.
  intros Hreach.
  assert (Hl : listeners s
               = (if continuousExportEventHandler s then 1 else 0)%nat).
  { apply rtc_nsteps in Hreach as [k H].
    revert s H. induction k as [|k IH]; intros s H.
    - by inversion H; subst.
    - apply nsteps_inv_r in H as (s0 & H0 & Hstep).
      eapply toggle_listeners; [exact Hstep|by apply IH]. }
  unfold enableContinuousExport, disableContinuousExport, LOCAL_FILES_UPDATED.
  destruct (continuousExportEventHandler s) eqn:E; cbn; rewrite ?E, ?Hl;
    by split_and!.
Qed.

Lemma continuous_export_registers_once_witness :
  listeners (enableContinuousExport
               (disableContinuousExport (enableContinuousExport initial)))
  = 1%nat.
Proof.
  destruct (continuous_export_registers_once
              (enableContinuousExport
                 (disableContinuousExport (enableContinuousExport initial))))
    as (_ & _ & H & _).
  - eapply rtc_l; [apply toggle_enable|].
    eapply rtc_l; [apply toggle_disable|].
    eapply rtc_l; [apply toggle_enable|].
    apply rtc_refl.
  - exact H.
Defined.
End continuous_export.
(** * Before and after a run *)

Section lifecycle_facts.
Import CodecFacts ServiceFacts.
Variable uiUpdater : ExportUIUpdaters.
Variable getAllLocalFiles : Async (list EnteFile).
Variable getAllLocalCollections : Async (list Collection).
Variable getPersonalFiles : list EnteFile → gmap Z Z → list EnteFile.
Variable migrateExport :
  string → ExportRecord → (ExportProgress → Async unit) → Async unit.
Variable settingsFolder : string.

Lemma updateExportStage_saves (stage' : Z) (r : ExportRecord) (w : Fs.World) :
  silent_ui uiUpdater →
  folder_present settingsFolder w → journal_reliable settingsFolder w →
  journal_reads settingsFolder w r →
  ∃ w', updateExportStage uiUpdater settingsFolder stage' w = (Resolved (), w')
        ∧ journal_of settingsFolder w'
          = Some {| version := version r;
                    lastAttemptTimestamp := lastAttemptTimestamp r;
                    stage := Some stage';
                    fileExportNames := fileExportNames r;
                    collectionExportNames := collectionExportNames r |}
        ∧ frame [journalPath settingsFolder] w w'.
Proof.
  intros (_ & Hui & _) Hp Hr Hj.
  edestruct (updateExportRecordHelper_saves settingsFolder) as (w' & E & Hj' & Hfr);
    [exact Hp|exact Hr|exact Hj|].
  exists w'. split; [|split; [|exact Hfr]].
  - unfold updateExportStage, updateExportRecord. cbn zeta.
    rewrite bind_run, E. apply Hui.
  - rewrite Hj'. by destruct r as [? ? ? ? ?].
Qed.

Lemma updateLastExportTime_saves (exportTime : Z) (r : ExportRecord)
    (w : Fs.World) :
  silent_ui uiUpdater →
  folder_present settingsFolder w → journal_reliable settingsFolder w →
  journal_reads settingsFolder w r →
  ∃ w', updateLastExportTime uiUpdater settingsFolder exportTime w
        = (Resolved (), w')
        ∧ journal_of settingsFolder w'
          = Some {| version := version r;
                    lastAttemptTimestamp := Some (Some exportTime);
                    stage := stage r;
                    fileExportNames := fileExportNames r;
                    collectionExportNames := collectionExportNames r |}
        ∧ frame [journalPath settingsFolder] w w'.
Proof.
  intros (_ & _ & Hui & _) Hp Hr Hj.
  edestruct (updateExportRecordHelper_saves settingsFolder) as (w' & E & Hj' & Hfr);
    [exact Hp|exact Hr|exact Hj|].
  exists w'. split; [|split; [|exact Hfr]].
  - unfold updateLastExportTime, updateExportRecord. cbn zeta.
    rewrite bind_run, E. apply Hui.
  - rewrite Hj'. by destruct r as [? ? ? ? ?].
Qed.

(** X28. [postExport] never rejects: what fails in it is logged as
    [postExport failed] and swallowed. When the export folder is not
    there (and the probe of the folder does not fail) it probes the
    folder at most once and then only calls [setExportStage] of the
    user interface with [INIT]; an error of that call is logged and
    swallowed, and the journal is not written. When the folder is
    there, the journal file is read, and its write fails with an error
    other than [EXPORT_FOLDER_DOES_NOT_EXIST], the first update fails:
    the error of the write is logged, then
    [UPDATE_EXPORTED_RECORD_FAILED] is logged as [postExport failed];
    [postExport] resolves, the journal file is as it was and the user
    interface is told nothing. *)
Theorem postExport_swallows_errors
    (now : Z) (r : ExportRecord) (failure : string) (w : Fs.World) :
  (∀ e w', postExport uiUpdater getAllLocalFiles getAllLocalCollections
             getPersonalFiles settingsFolder now w
           ≠ (Rejected e, w'))
  ∧ (¬ folder_present settingsFolder w →
     Fs.faults w (Fs.exists_ settingsFolder) = None →
     postExport uiUpdater getAllLocalFiles getAllLocalCollections
       getPersonalFiles settingsFolder now w
     = Async.try_catch (setExportStage uiUpdater ExportStage.INIT)
         (λ e, log.error "postExport failed" e)
         (if String.eqb settingsFolder EmptyString then w
          else Fs.traced [Fs.Call (Fs.exists_ settingsFolder)] w))
  ∧ (folder_present settingsFolder w →
     Fs.faults w (Fs.exists_ settingsFolder) = None →
     Fs.faults w (Fs.exists_ (journalPath settingsFolder)) = None →
     Fs.faults w (Fs.readTextFile (journalPath settingsFolder)) = None →
     Fs.faults w (Fs.saveFileToDisk (journalPath settingsFolder))
     = Some failure →
     failure ≠ CustomError.EXPORT_FOLDER_DOES_NOT_EXIST →
     journal_of settingsFolder w = Some r →
     let w' :=
       Fs.traced
         [Fs.LogError "postExport failed"
            {| message := CustomError.UPDATE_EXPORTED_RECORD_FAILED |};
          Fs.LogError "error updating Export Record"
            {| message := failure |};
          Fs.Call (Fs.saveFileToDisk (journalPath settingsFolder));
          Fs.Call (Fs.readTextFile (journalPath settingsFolder));
          Fs.Call (Fs.exists_ (journalPath settingsFolder));
          Fs.Call (Fs.exists_ settingsFolder);
          Fs.Call (Fs.exists_ settingsFolder)] w in
     postExport uiUpdater getAllLocalFiles getAllLocalCollections
       getPersonalFiles settingsFolder now w
     = (Resolved (), w')
     ∧ journal_of settingsFolder w' = Some r).
Proof.
  split_and!.
  - intros e w'. unfold postExport. rewrite try_catch_run.
    match goal with
    | |- context [match ?m with _ => _ end] =>
        destruct m as [[a|e'|] w1]
    end; [by destruct a|done|done].
  - intros Hp Hf. unfold postExport.
    rewrite !try_catch_run. cbn zeta. rewrite bind_run.
    unfold exportFolderExists.
    destruct (String.eqb_spec settingsFolder EmptyString) as [|Hne].
    + change (mret (M := Async) false w) with (Resolved false, w).
      reflexivity.
    + rewrite exists_run by done.
      rewrite bool_decide_false by (intros H; apply Hp; by split).
      reflexivity.
  - intros Hp Hf1 Hf2 Hf3 Hf4 Hne Hj w'. split; [|done].
    unfold postExport. rewrite try_catch_run. cbn zeta.
    rewrite bind_run. unfold exportFolderExists.
    destruct Hp as [Hset Hex].
    destruct (String.eqb_spec settingsFolder EmptyString) as [|_]; [done|].
    rewrite exists_run by done.
    rewrite bool_decide_true by done. cbn [negb].
    rewrite bind_run. unfold updateExportStage. cbn zeta.
    rewrite bind_run.
    rewrite (updateExportRecord_fails_on_write settingsFolder _ r failure)
      by done.
    reflexivity.
Qed.

Lemma resumeExportsIfNeeded_loads (continuous : bool)
    (service : ExportService.t) (r : ExportRecord) (w : Fs.World) :
  folder_present settingsFolder w → journal_reliable settingsFolder w →
  journal_of settingsFolder w = Some r →
  (resumeExportsIfNeeded
     (Some {| folder := settingsFolder; continuousExport := continuous |})
     service w).1
  = Resolved
      (let service :=
         if continuous then ExportService.enableContinuousExport service
         else service in
       if from_option isExportInProgress false (stage r)
       then service_scheduleExport service else service).
Proof.
  intros Hp Hr Hj. unfold resumeExportsIfNeeded.
  cbn [from_option folder continuousExport].
  rewrite bind_run. unfold exportFolderExists.
  destruct (String.eqb_spec settingsFolder EmptyString) as [He|_];
    [by destruct Hp|].
  rewrite (exists_run settingsFolder w) by apply Hr.
  rewrite bool_decide_true by apply Hp. cbn [negb].
  rewrite bind_run, (getExportRecord_loads settingsFolder true _ r);
    [done| | |done].
  - destruct Hp. by split.
  - done.
Qed.

(** X29. [postExport] after a run, in an export folder that is there:
    the journal is marked [FINISHED] and gets the time of the attempt;
    the export names and the version are kept, and nothing but the
    journal file changes in the export folder. A later start of the
    application finds no export to resume: unless continuous export is
    enabled, [resumeExportsIfNeeded] leaves the service as it is. *)
Theorem postExport_marks_finished
    (now : Z) (r : ExportRecord) (files : list EnteFile)
    (collections : list Collection) (w : Fs.World) :
  silent_ui uiUpdater →
  (∀ w, getAllLocalFiles w = (Resolved files, w)) →
  (∀ w, getAllLocalCollections w = (Resolved collections, w)) →
  folder_present settingsFolder w → journal_reliable settingsFolder w →
  journal_reads settingsFolder w r →
  ∃ w',
    postExport uiUpdater getAllLocalFiles getAllLocalCollections
      getPersonalFiles settingsFolder now w
    = (Resolved (), w')
    ∧ journal_of settingsFolder w'
      = Some {| version := version r;
                lastAttemptTimestamp := Some (Some now);
                stage := Some ExportStage.FINISHED;
                fileExportNames := fileExportNames r;
                collectionExportNames := collectionExportNames r |}
    ∧ frame [journalPath settingsFolder] w w'
    ∧ ∀ service,
        (resumeExportsIfNeeded
           (Some {| folder := settingsFolder; continuousExport := false |})
           service w').1
        = Resolved service.
Proof.
  intros Hui Hfiles Hcollections Hp Hr Hj.
  set (w0 := Fs.traced [Fs.Call (Fs.exists_ settingsFolder)] w).
  assert (Hfr0 : frame [journalPath settingsFolder] w w0) by by repeat split.
  destruct (updateExportStage_saves ExportStage.FINISHED r w0)
    as (w1 & E1 & Hj1 & Hfr1); [done|done|done|done|].
  assert (Hp1 : folder_present settingsFolder w1).
  { eapply frame_present; [exact Hfr1|apply folder_not_journal|done]. }
  assert (Hr1 : journal_reliable settingsFolder w1)
    by by eapply frame_reliable.
  destruct (updateLastExportTime_saves now _ w1 Hui Hp1 Hr1 (or_introl Hj1))
    as (w2 & E2 & Hj2 & Hfr2).
  cbn [version lastAttemptTimestamp stage fileExportNames
         collectionExportNames] in Hj2.
  assert (Hp2 : folder_present settingsFolder w2).
  { eapply frame_present; [exact Hfr2|apply folder_not_journal|done]. }
  assert (Hr2 : journal_reliable settingsFolder w2)
    by by eapply frame_reliable.
  eexists. split_and!.
  - unfold postExport. rewrite try_catch_run. cbn zeta.
    rewrite bind_run. unfold exportFolderExists.
    destruct Hp as [Hne Hex].
    destruct (String.eqb_spec settingsFolder EmptyString) as [|_]; [done|].
    rewrite (exists_run settingsFolder w) by apply Hr.
    rewrite bool_decide_true by done. cbn [negb]. fold w0.
    rewrite bind_run, E1, bind_run, E2, bind_run.
    rewrite (getExportRecord_loads settingsFolder true w2 _ Hp2 Hr2 Hj2).
    rewrite bind_run. unfold getPendingExports.
    rewrite try_catch_run, bind_run, Hfiles, bind_run, Hcollections.
    cbn zeta.
    match goal with
    | |- context [mret (M := Async) ?x ?w] =>
        change (mret (M := Async) x w) with (Resolved x, w)
    end.
    destruct Hui as (_ & _ & _ & Hui). by rewrite Hui.
  - exact Hj2.
  - eapply frame_trans; [exact Hfr0|].
    eapply frame_trans; [exact Hfr1|].
    eapply frame_trans; [exact Hfr2|]. by repeat split.
  - intros service.
    by rewrite (resumeExportsIfNeeded_loads false service _ (Fs.traced _ w2)
                  Hp2 Hr2 Hj2).
Qed.

(** X30. [preExport] in an export folder that is there, when the
    migration has nothing to do: the journal is marked [STARTING] and
    keeps its export names. If the application ends before the run
    does, the next start resumes the export: [resumeExportsIfNeeded]
    calls [scheduleExport], which starts a run. *)
Theorem preExport_marks_in_progress
    (continuous : bool) (r : ExportRecord) (w : Fs.World) :
  silent_ui uiUpdater →
  (∀ exportRecord w,
     migrateExport settingsFolder exportRecord
       (updateExportProgress uiUpdater) w = (Resolved (), w)) →
  folder_present settingsFolder w → journal_reliable settingsFolder w →
  journal_reads settingsFolder w r →
  ∃ w',
    preExport uiUpdater migrateExport settingsFolder settingsFolder w
    = (Resolved (), w')
    ∧ journal_of settingsFolder w'
      = Some {| version := version r;
                lastAttemptTimestamp := lastAttemptTimestamp r;
                stage := Some ExportStage.STARTING;
                fileExportNames := fileExportNames r;
                collectionExportNames := collectionExportNames r |}
    ∧ frame [journalPath settingsFolder] w w'
    ∧ ∃ service,
        (resumeExportsIfNeeded
           (Some {| folder := settingsFolder;
                    continuousExport := continuous |})
           ExportService.initial w').1
        = Resolved service
        ∧ Scheduler.exportInProgress (ExportService.scheduler service)
          = Some 0%nat
        ∧ Scheduler.runs (ExportService.scheduler service)
          = [{| Scheduler.status := false;
                Scheduler.position_of := Scheduler.Exporting |}].
Proof.
  intros Hui Hmig Hp Hr Hj.
  set (w0 := Fs.traced [Fs.Call (Fs.exists_ settingsFolder)] w).
  assert (Hfr0 : frame [journalPath settingsFolder] w w0) by by repeat split.
  destruct (getExportRecord_reads settingsFolder w0 r)
    as (w1 & E1 & Hj1 & Hfr1); [done|done| |].
  { eapply (frame_reads []); [|apply not_elem_of_nil|exact Hj].
    by repeat split. }
  assert (Hp1 : folder_present settingsFolder w1).
  { eapply frame_present; [exact Hfr1|apply folder_not_journal|done]. }
  assert (Hr1 : journal_reliable settingsFolder w1)
    by by eapply frame_reliable.
  destruct (updateExportStage_saves ExportStage.MIGRATION r w1 Hui Hp1 Hr1
              (or_introl Hj1)) as (w2 & E2 & Hj2 & Hfr2).
  assert (Hp2 : folder_present settingsFolder w2).
  { eapply frame_present; [exact Hfr2|apply folder_not_journal|done]. }
  assert (Hr2 : journal_reliable settingsFolder w2)
    by by eapply frame_reliable.
  destruct (updateExportStage_saves ExportStage.STARTING _ w2 Hui Hp2 Hr2
              (or_introl Hj2)) as (w3 & E3 & Hj3 & Hfr3).
  cbn [version lastAttemptTimestamp stage fileExportNames
         collectionExportNames] in Hj3.
  assert (Hp3 : folder_present settingsFolder w3).
  { eapply frame_present; [exact Hfr3|apply folder_not_journal|done]. }
  assert (Hr3 : journal_reliable settingsFolder w3)
    by by eapply frame_reliable.
  exists w3. split_and!.
  - unfold preExport.
    rewrite bind_run, verifyExportFolderExists_ok by (done || apply Hr).
    fold w0. rewrite bind_run, E1, bind_run, E2, bind_run.
    unfold runMigration. rewrite try_catch_run, Hmig. exact E3.
  - exact Hj3.
  - eapply frame_trans; [exact Hfr0|].
    eapply frame_trans; [exact Hfr1|].
    eapply frame_trans; [exact Hfr2|exact Hfr3].
  - eexists. split.
    + by apply (resumeExportsIfNeeded_loads continuous ExportService.initial
                  _ w3 Hp3 Hr3 Hj3).
    + by destruct continuous.
Qed.
End lifecycle_facts.
Lemma postExport_swallows_errors_witness :
  postExport initialUIUpdaters (mret [file_1_in_1]) (mret [summer])
    (λ files _, files) "/e" 1700000000000 no_folder
  = (Resolved (), Fs.traced [Fs.Call (Fs.exists_ "/e")] no_folder)
  ∧ (postExport initialUIUpdaters (mret [file_1_in_1]) (mret [summer])
       (λ files _, files) "/e" 1700000000000
       folder_with_failing_journal_write).1
    = Resolved ()
  ∧ head (Fs.trace
            (postExport initialUIUpdaters (mret [file_1_in_1]) (mret [summer])
               (λ files _, files) "/e" 1700000000000
               folder_with_failing_journal_write).2)
    = Some (Fs.LogError "postExport failed"
              {| message := CustomError.UPDATE_EXPORTED_RECORD_FAILED |}).
Proof.
  destruct (postExport_swallows_errors initialUIUpdaters
              (mret [file_1_in_1]) (mret [summer]) (λ files _, files)
              "/e" 1700000000000 journal_with_file_in_5 "disk full" no_folder)
    as (_ & H & _).
  destruct (postExport_swallows_errors initialUIUpdaters
              (mret [file_1_in_1]) (mret [summer]) (λ files _, files)
              "/e" 1700000000000 journal_with_file_in_5 "disk full"
              folder_with_failing_journal_write)
    as (_ & _ & H').
  split.
  - rewrite H; [reflexivity| |reflexivity].
    intros [_ [node Hnode]]. discriminate Hnode.
  - destruct H' as [-> _]; [|reflexivity..|discriminate| |split; reflexivity].
    + split; [discriminate|]. by eexists.
    + vm_compute. reflexivity.
Defined.

Lemma postExport_marks_finished_witness :
  ∃ w',
    postExport initialUIUpdaters (mret [file_1_in_1]) (mret [summer])
      (λ files _, files) "/e" 1700000000000 folder_with_two_collections
    = (Resolved (), w')
    ∧ (stage <$> journal_of "/e" w') = Some (Some ExportStage.FINISHED)
    ∧ (lastAttemptTimestamp <$> journal_of "/e" w')
      = Some (Some (Some 1700000000000)).
Proof.
  destruct (postExport_marks_finished initialUIUpdaters
              (mret [file_1_in_1]) (mret [summer]) (λ files _, files)
              "/e" 1700000000000 journal_with_file_in_5
              [file_1_in_1] [summer] folder_with_two_collections)
    as (w' & E & Hj & _).
  - by repeat split.
  - reflexivity.
  - reflexivity.
  - split; [discriminate|]. by eexists.
  - by repeat split.
  - left. vm_compute. reflexivity.
  - exists w'. split; [exact E|]. rewrite Hj. split; reflexivity.
Defined.

Lemma preExport_marks_in_progress_witness :
  ∃ w',
    preExport initialUIUpdaters (λ _ _ _, mret ()) "/e" "/e"
      folder_with_two_collections
    = (Resolved (), w')
    ∧ (stage <$> journal_of "/e" w') = Some (Some ExportStage.STARTING).
Proof.
  destruct (preExport_marks_in_progress initialUIUpdaters (λ _ _ _, mret ())
              "/e" false journal_with_file_in_5 folder_with_two_collections)
    as (w' & E & Hj & _).
  - by repeat split.
  - reflexivity.
  - split; [discriminate|]. by eexists.
  - by repeat split.
  - left. vm_compute. reflexivity.
  - exists w'. split; [exact E|]. rewrite Hj. reflexivity.
Defined.
